(** * The publish pipeline of obsidian-wordpress

    A shallow embedding of [src/abstract-wp-client.ts]: the term resolver
    ([convertCategoryNamesToIds], [convertCategoryIdsToNames]), the front
    matter merge of [tryToPublish], the parameter builder
    [readFromFrontMatter], the media relay ([getImages], [updatePostImages])
    and the orchestrator [publishPost] with its process-wide lock.

    The source file holds two revisions of the class.  The second one (with
    [publishInProgress] and the name based categories) is the current one and
    is embedded at top level; the parts of the first revision that differ and
    matter are kept in [Module Legacy]. *)

From Stdlib Require Import ZArith Ascii String List Bool Lia.
From stdpp Require Import base decidable option list gmap strings pretty.

Local Set Warnings "-register-all".

(** ** JavaScript values *)

(** A JavaScript number as far as the client uses it: a double whose value
    is an integer, an infinity, or [NaN] (the results of [parseInt]). *)
Inductive number : Type :=
| Num (z : Z)
| Infinity (negative : bool)
| NaN.

Global Instance number_eq_dec : EqDecision number.
Proof. solve_decision. Defined.

(** Front matter is untyped: every property read from it is one of these. *)
Inductive value : Type :=
| VUndef
| VNull
| VBool (b : bool)
| VNum (n : number)
| VStr (s : string)
| VArr (items : list value).

Definition truthy (v : value) : bool :=
  match v with
  | VUndef | VNull => false
  | VBool b => b
  | VNum (Num z) => negb (z =? 0)%Z
  | VNum (Infinity _) => true
  | VNum NaN => false
  | VStr s => negb (String.eqb s "")
  | VArr _ => true
  end.

(** [a ?? b] *)
Definition nullish (a b : value) : value :=
  match a with
  | VUndef | VNull => b
  | _ => a
  end.

(** [typeof v === 'string'] *)
Definition isString (v : value) : bool :=
  match v with VStr _ => true | _ => false end.

(** [v === s] for a string [s] *)
Definition strictEqStr (v : value) (s : string) : bool :=
  match v with VStr s' => String.eqb s' s | _ => false end.

(** [n === v] for a number [n]; [NaN] is not equal to itself. *)
Definition strictEqNum (n : number) (v : value) : bool :=
  match n, v with
  | Num a, VNum (Num b) => (a =? b)%Z
  | Infinity a, VNum (Infinity b) => Bool.eqb a b
  | _, _ => false
  end.

Definition numberToString (n : number) : string :=
  match n with
  | Num z => pretty z
  | Infinity false => "Infinity"
  | Infinity true => "-Infinity"
  | NaN => "NaN"
  end.

Fixpoint joinStrings (sep : string) (l : list string) : string :=
  match l with
  | [] => ""
  | [x] => x
  | x :: rest => x +:+ sep +:+ joinStrings sep rest
  end.

(** [String(v)], with [Array.prototype.join] for arrays. *)
Fixpoint toStr (v : value) : string :=
  match v with
  | VUndef => "undefined"
  | VNull => "null"
  | VBool true => "true"
  | VBool false => "false"
  | VNum n => numberToString n
  | VStr s => s
  | VArr items =>
      joinStrings ","
        (List.map (fun x => match x with
                            | VUndef | VNull => ""
                            | _ => toStr x
                            end) items)
  end.

(** [items.join(sep)] *)
Definition arrayJoin (sep : string) (items : list value) : string :=
  joinStrings sep
    (List.map (fun x => match x with
                        | VUndef | VNull => ""
                        | _ => toStr x
                        end) items).

(** ** Strings *)

(** The lower case of a text of ASCII code units, which is also the folding
    that the [i] flag applies for a pattern of ASCII letters: [A] to [Z]
    become [a] to [z], other code units are left as they are. *)
Definition lowerAscii (c : ascii) : ascii :=
  let n := nat_of_ascii c in
  if (65 <=? n)%nat && (n <=? 90)%nat then ascii_of_nat (n + 32) else c.

Fixpoint toLowerCase (s : string) : string :=
  match s with
  | EmptyString => EmptyString
  | String c rest => String (lowerAscii c) (toLowerCase rest)
  end.

Definition isWhiteSpace (c : ascii) : bool :=
  let n := nat_of_ascii c in
  ((9 <=? n)%nat && (n <=? 13)%nat) || (n =? 32)%nat.

Definition digitValue (c : ascii) : option Z :=
  let n := nat_of_ascii c in
  if (48 <=? n)%nat && (n <=? 57)%nat then Some (Z.of_nat (n - 48)) else None.

Fixpoint skipWhiteSpace (s : string) : string :=
  match s with
  | String c rest => if isWhiteSpace c then skipWhiteSpace rest else s
  | EmptyString => s
  end.

Fixpoint parseDigits (s : string) (acc : option Z) : option Z :=
  match s with
  | String c rest =>
      match digitValue c with
      | Some d => parseDigits rest (Some (10 * default 0%Z acc + d)%Z)
      | None => acc
      end
  | EmptyString => acc
  end.

(** The integer that [parseInt(s, 10)] reads: leading white space, an
    optional sign, the longest run of decimal digits; nothing when there is
    no digit. *)
Definition parsedInteger (s : string) : option Z :=
  match skipWhiteSpace s with
  | String "-" rest => Z.opp <$> parseDigits rest None
  | String "+" rest => parseDigits rest None
  | s' => parseDigits s' None
  end.

(** ** The engine *)

(** What is left to the JavaScript engine: the lower case of a text that
    holds a code unit outside ASCII, and the number for an integer beyond
    [2^53], which is the nearest double (engines may differ past twenty
    digits) or an infinity. *)
Record Engine : Type := mkEngine {
  lowerCaseBeyondAscii : string -> string;
  numberBeyondSafe : Z -> number
}.

Fixpoint isAscii (s : string) : bool :=
  match s with
  | EmptyString => true
  | String c rest => (nat_of_ascii c <? 128)%nat && isAscii rest
  end.

(** [String.prototype.toLowerCase] *)
Definition String_toLowerCase (engine : Engine) (s : string) : string :=
  if isAscii s then toLowerCase s else lowerCaseBeyondAscii engine s.

(** Up to [2^53] in absolute value every integer is a double. *)
Definition numberOfInteger (engine : Engine) (z : Z) : number :=
  if (Z.abs z <=? 2 ^ 53)%Z then Num z else numberBeyondSafe engine z.

(** [parseInt(s, 10)]: [NaN] when there is no digit. *)
Definition parseInt (engine : Engine) (s : string) : number :=
  match parsedInteger s with
  | Some z => numberOfInteger engine z
  | None => NaN
  end.

(** The double quote, for messages that contain one. *)
Definition dquote : string := String (ascii_of_nat 34) EmptyString.

(** ** Exceptions *)

(** What a [throw] carries: an [Error] instance (a [TypeError] is one) or
    anything else. *)
Inductive exn : Type :=
| JsError (message : string)
| NonError (v : value).

(** ** Remote terms and the term resolver *)

(** [Term] of wp-api: the identifier is a string on the wire. *)
Record Term : Type := mkTerm { term_id : string; term_name : string }.

(** [new Set(xs)] spread back into an array: first occurrences, in order.
    [Set] compares with SameValueZero, under which [NaN] equals [NaN]. *)
Definition uniqueInOrder (xs : list number) : list number :=
  foldl (fun seen x => if decide (x ∈ seen) then seen else seen ++ [x]) [] xs.

Section Resolver.

Context (engine : Engine).

(** [cat => cat.name.toLowerCase() === name.toLowerCase()] for a string
    [name]. *)
Definition nameMatches (name : string) (cat : Term) : bool :=
  String.eqb (String_toLowerCase engine (term_name cat))
    (String_toLowerCase engine name).

(** [allCategories.find(...)] inside [convertCategoryNamesToIds].  The
    callback runs on the first category at least, and [name.toLowerCase()]
    throws a [TypeError] there when [name] is not a string; on an empty list
    the callback never runs. *)
Definition findCategoryByName (allCategories : list Term) (name : value)
  : exn + option Term :=
  match allCategories with
  | [] => inr None
  | _ :: _ =>
      match name with
      | VStr s => inr (List.find (nameMatches s) allCategories)
      | _ => inl (JsError "name.toLowerCase is not a function")
      end
  end.

(** The [for] loop of [convertCategoryNamesToIds]: the ids pushed so far and
    the names not found so far. *)
Fixpoint namesToIdsLoop (allCategories : list Term) (categoryNames : list value)
    (categoryIds : list number) (missingCategories : list value)
  : exn + (list number * list value) :=
  match categoryNames with
  | [] => inr (categoryIds, missingCategories)
  | name :: rest =>
      match findCategoryByName allCategories name with
      | inl e => inl e
      | inr (Some category) =>
          namesToIdsLoop allCategories rest
            (categoryIds ++ [parseInt engine (term_id category)]) missingCategories
      | inr None =>
          namesToIdsLoop allCategories rest
            (categoryIds ++ [Num 1]) (missingCategories ++ [name])
      end
  end.

Definition categoriesNotFoundNotice (missingCategories : list value) : string :=
  "Categories not found: " +:+ arrayJoin ", " missingCategories +:+
  ". Using " +:+ dquote +:+ "Uncategorized" +:+ dquote +:+ " instead.".

(** The body of [convertCategoryNamesToIds]: the ids for the API call and
    the notices shown.  [getCategories] is the outcome of the remote listing. *)
Definition categoryIdsOfNames (getCategories : exn + list Term)
    (categoryNames : list value) : list number * list string :=
  match getCategories with
  | inl _ => ([Num 1], [])
  | inr allCategories =>
      match namesToIdsLoop allCategories categoryNames [] [] with
      | inl _ => ([Num 1], [])
      | inr (categoryIds, missingCategories) =>
          let notices :=
            match missingCategories with
            | [] => []
            | _ :: _ => [categoriesNotFoundNotice missingCategories]
            end in
          let uniqueIds := uniqueInOrder categoryIds in
          (match uniqueIds with [] => [Num 1] | _ :: _ => uniqueIds end, notices)
      end
  end.

(** [allCategories.find(cat => parseInt(cat.id, 10) === id)] *)
Definition findCategoryById (allCategories : list Term) (id : value) : option Term :=
  List.find (fun cat => strictEqNum (parseInt engine (term_id cat)) id) allCategories.

Fixpoint idsToNamesLoop (allCategories : list Term) (categoryIds : list value)
  : list string :=
  match categoryIds with
  | [] => []
  | id :: rest =>
      match findCategoryById allCategories id with
      | Some category => term_name category :: idsToNamesLoop allCategories rest
      | None => idsToNamesLoop allCategories rest
      end
  end.

(** The body of [convertCategoryIdsToNames].  One call site passes the
    [categories] of the remote result, which may be missing: [None] is a value
    that cannot be iterated, and the [for ... of] then throws inside the
    [try]. *)
Definition categoryNamesOfIds (getCategories : exn + list Term)
    (categoryIds : option (list value)) : list string :=
  match getCategories with
  | inl _ => ["Uncategorized"]
  | inr allCategories =>
      match categoryIds with
      | None => ["Uncategorized"]
      | Some items =>
          match idsToNamesLoop allCategories items with
          | [] => ["Uncategorized"]
          | names => names
          end
      end
  end.

End Resolver.

(** ** Requests and results *)

(** [WordPressPostParams].  Fields filled from front matter hold whatever
    the front matter held, hence [value]. *)
Record PostParams : Type := mkPostParams {
  status : string;
  commentStatus : string;
  postType : value;
  categories : list value;
  tags : value;
  title : value;
  content : string;
  postId : option string;
  profileName : value
}.

Definition setTitle (v : value) (p : PostParams) : PostParams :=
  mkPostParams (status p) (commentStatus p) (postType p) (categories p) (tags p)
    v (content p) (postId p) (profileName p).
Definition setPostId (v : string) (p : PostParams) : PostParams :=
  mkPostParams (status p) (commentStatus p) (postType p) (categories p) (tags p)
    (title p) (content p) (Some v) (profileName p).
Definition setProfileName (v : value) (p : PostParams) : PostParams :=
  mkPostParams (status p) (commentStatus p) (postType p) (categories p) (tags p)
    (title p) (content p) (postId p) v.
Definition setPostType (v : value) (p : PostParams) : PostParams :=
  mkPostParams (status p) (commentStatus p) v (categories p) (tags p)
    (title p) (content p) (postId p) (profileName p).
Definition setCategories (v : list value) (p : PostParams) : PostParams :=
  mkPostParams (status p) (commentStatus p) (postType p) v (tags p)
    (title p) (content p) (postId p) (profileName p).
Definition setTags (v : value) (p : PostParams) : PostParams :=
  mkPostParams (status p) (commentStatus p) (postType p) (categories p) v
    (title p) (content p) (postId p) (profileName p).
Definition setContent (v : string) (p : PostParams) : PostParams :=
  mkPostParams (status p) (commentStatus p) (postType p) (categories p) (tags p)
    (title p) v (postId p) (profileName p).

(** The [error.code] of a failed client result. *)
Inductive ErrorCode : Type :=
| ServerInternalError
| OtherErrorCode (code : string).

(** [WordPressClientResult<T>]: [code] is [OK] with [data], or [Error] with
    [error]. *)
Inductive ClientResult (A : Type) : Type :=
| ResOK (data : A)
| ResError (code : ErrorCode) (message : string).
Arguments ResOK {A} data.
Arguments ResError {A} code message.

(** [WordPressPublishResult]: the post id (or [true] when editing), the
    canonical URL when the server sent one, the categories of the post. *)
Record PublishData : Type := mkPublishData {
  res_postId : value;
  res_postUrl : value;
  res_categories : option (list value)
}.

Record Auth : Type := mkAuth { username : option string; password : option string }.

Inductive ConfirmCode : Type := Confirm | Cancel.

(** What [new URL(url)] exposes to [extractPostIdFromUrl]. *)
Record URLObj : Type := mkURL { searchParam_p : option string; pathname : string }.

(** The front matter block: a JavaScript object used as a map. *)
Abbreviation FrontMatter := (gmap string value).

(** [obj.key]: [undefined] when the key is absent. *)
Definition prop (obj : FrontMatter) (key : string) : value :=
  default VUndef (obj !! key).

(** [PostTypeConst.Post].
    Modelled from the spec: the constant of wp-api, which the source spells
    out in its comments ("assign it as 'post'"). *)
Definition PostTypeConst_Post : string := "post".

(** ** The world around the client *)

(** What the collaborators answer.  A remote call or a prompt is asked at a
    point in time ([clock]), so two calls of one attempt may be answered
    differently; credentials do not select the answer. *)
Record Env : Type := mkEnv {
  profile_name : string;
  profile_endpoint : string;
  profile_username : string;
  profile_password : string;
  needLogin : bool;
  WP_DEFAULT_PROFILE_NAME : string;
  defaultPostStatus : string;
  defaultCommentStatus : string;
  rememberLastSelectedCategories : bool;
  replaceMediaLinks : bool;
  (** [workspace.getActiveFile()]: the basename of the active file *)
  activeFile : option string;
  fileSize : nat;
  (** [workspace.activeEditor && activeEditor.editor] *)
  hasActiveEditor : bool;
  validateUser : nat -> exn + ClientResult bool;
  openLoginModal : nat -> exn + Auth;
  getCategories : nat -> exn + list Term;
  getPostTypes : nat -> exn + list string;
  getTag : nat -> value -> exn + Term;
  publish : nat -> value -> string -> PostParams -> exn + ClientResult PublishData;
  (** [uploadMedia] by file name *)
  uploadMedia : nat -> string -> exn + ClientResult string;
  (** [metadataCache.getFirstLinkpathDest(src, fileName)]: the name of the
      [TFile] found, if any *)
  getFirstLinkpathDest : string -> string -> option string;
  openConfirmModal : nat -> ConfirmCode;
  (** what the user submits in the publish modal, in order, before closing it *)
  publishModalSubmissions :
    list (PostParams * option (FrontMatter -> exn + FrontMatter));
  markdownRender : string -> string;
  (** [new URL(s)], [None] when it throws *)
  newURL : string -> option URLObj;
  (** [getPostsBySlug]: the [id] of each post found *)
  getPostsBySlug : nat -> string -> exn + list value;
  isValidUrl : string -> bool;
  decodeURI : string -> exn + string;
  (** the JavaScript engine under the client *)
  engine : Engine
}.

(** What an attempt can change. *)
Record State : Type := mkState {
  publishInProgress : bool;
  (** the persisted front matter and body of the active file *)
  fileFrontMatter : FrontMatter;
  (** whether the raw text of the file mentions a [wp_] key *)
  fileTextHasWpKey : bool;
  fileBody : string;
  (** the last [editor.setValue] *)
  editorValue : option string;
  (** [profile.lastSelectedCategories] *)
  lastSelectedCategories : option (list value);
  notices : list string;
  clock : nat;
  (** the requests sent with [publish] *)
  published : list PostParams
}.

Definition setInProgress (b : bool) (st : State) : State :=
  mkState b (fileFrontMatter st) (fileTextHasWpKey st) (fileBody st) (editorValue st)
    (lastSelectedCategories st) (notices st) (clock st) (published st).
Definition setFrontMatter (fm : FrontMatter) (st : State) : State :=
  mkState (publishInProgress st) fm (fileTextHasWpKey st) (fileBody st) (editorValue st)
    (lastSelectedCategories st) (notices st) (clock st) (published st).
Definition setEditorValue (v : string) (st : State) : State :=
  mkState (publishInProgress st) (fileFrontMatter st) (fileTextHasWpKey st) (fileBody st)
    (Some v) (lastSelectedCategories st) (notices st) (clock st) (published st).
Definition setLastSelected (v : option (list value)) (st : State) : State :=
  mkState (publishInProgress st) (fileFrontMatter st) (fileTextHasWpKey st) (fileBody st)
    (editorValue st) v (notices st) (clock st) (published st).
Definition addNotice (msg : string) (st : State) : State :=
  mkState (publishInProgress st) (fileFrontMatter st) (fileTextHasWpKey st) (fileBody st)
    (editorValue st) (lastSelectedCategories st) (notices st ++ [msg]) (clock st)
    (published st).
Definition tickClock (st : State) : State :=
  mkState (publishInProgress st) (fileFrontMatter st) (fileTextHasWpKey st) (fileBody st)
    (editorValue st) (lastSelectedCategories st) (notices st) (S (clock st))
    (published st).
Definition addPublished (p : PostParams) (st : State) : State :=
  mkState (publishInProgress st) (fileFrontMatter st) (fileTextHasWpKey st) (fileBody st)
    (editorValue st) (lastSelectedCategories st) (notices st) (clock st)
    (published st ++ [p]).

(** ** The monad of an attempt: state, exceptions, and a promise that is
    never settled *)

Inductive outcome (A : Type) : Type :=
| Ok (a : A)
| Throw (e : exn)
| Pending.
Arguments Ok {A} a.
Arguments Throw {A} e.
Arguments Pending {A}.

Definition M (A : Type) : Type := State -> outcome A * State.

Global Instance M_ret : MRet M := fun A (a : A) st => (Ok a, st).

Global Instance M_bind : MBind M := fun A B (k : A -> M B) (m : M A) st =>
  match m st with
  | (Ok a, st') => k a st'
  | (Throw e, st') => (Throw e, st')
  | (Pending, st') => (Pending, st')
  end.

Definition throw {A} (e : exn) : M A := fun st => (Throw e, st).

(** [try { m } catch (error) { handler }] *)
Definition tryCatch {A} (m : M A) (handler : exn -> M A) : M A :=
  fun st =>
    match m st with
    | (Throw e, st') => handler e st'
    | r => r
    end.

(** [try { m } finally { fin }], for a [fin] that only writes the state.
    A promise that never settles never reaches the [finally]. *)
Definition tryFinally {A} (m : M A) (fin : State -> State) : M A :=
  fun st =>
    match m st with
    | (Pending, st') => (Pending, st')
    | (r, st') => (r, fin st')
    end.

Definition getState : M State := fun st => (Ok st, st).
Definition modify (f : State -> State) : M unit := fun st => (Ok tt, f st).

(** [new Notice(msg)] *)
Definition Notice (msg : string) : M unit := modify (addNotice msg).

(** The answer of a collaborator asked now; the clock advances. *)
Definition ask {A} (answer : nat -> A) : M A :=
  fun st => (Ok (answer (clock st)), tickClock st).

(** A collaborator whose promise is rejected throws at the [await]. *)
Definition await {A} (answer : nat -> exn + A) : M A :=
  r ← ask answer;
  match r with
  | inl e => throw e
  | inr a => mret a
  end.

(** [this.plugin.i18n.t(key)].
    Modelled from the spec: the translation table is not part of the source;
    a message is named by its key. *)
Definition i18n_t (key : string) : string := key.

Definition errorMessage (e : exn) : string :=
  match e with
  | JsError m => m
  | NonError v => toStr v
  end.

(** [showError] of utils.
    Modelled from the spec: a fatal condition produces one notification
    describing its cause, and the caller gets an error result back. *)
Definition showError {A} (e : exn) : M (ClientResult A) :=
  Notice (errorMessage e);;
  mret (ResError (OtherErrorCode "Error") (errorMessage e)).

(** [processFile] of utils.
    Modelled from the spec: reads the body and the metadata block of the
    document. *)
Definition processFile : M (string * FrontMatter) :=
  st ← getState; mret (fileBody st, fileFrontMatter st).

(** ** URL and path helpers *)

(** [s.split(sep)] for a one-character separator *)
Fixpoint splitOn (sep : ascii) (s : string) : list string :=
  match s with
  | EmptyString => [EmptyString]
  | String c rest =>
      if Ascii.eqb c sep then EmptyString :: splitOn sep rest
      else match splitOn sep rest with
           | x :: xs => String c x :: xs
           | [] => [String c EmptyString]
           end
  end.

Definition nonEmpty (s : string) : bool := negb (String.eqb s "").

Definition endsWith (suffix s : string) : bool :=
  let n := String.length s in
  let k := String.length suffix in
  (k <=? n)%nat && String.eqb (String.substring (n - k) k s) suffix.

Definition dropLast (k : nat) (s : string) : string :=
  String.substring 0 (String.length s - k) s.

(** [slug.replace(/\.(html|php|htm)$/i, '')] *)
Definition stripPageExtension (slug : string) : string :=
  let l := toLowerCase slug in
  if endsWith ".html" l then dropLast 5 slug
  else if endsWith ".php" l then dropLast 4 slug
  else if endsWith ".htm" l then dropLast 4 slug
  else slug.

(** The arrays of category names or ids that the client reads are tested
    with [x && Array.isArray(x) && x.length > 0]. *)
Definition nonEmptyArray (v : value) : option (list value) :=
  match v with
  | VArr (x :: rest) => Some (x :: rest)
  | _ => None
  end.

(** [typeof xs[0] === 'string'] *)
Definition firstIsString (xs : list value) : bool :=
  match xs with
  | x :: _ => isString x
  | [] => false
  end.

Section Client.

Context (env : Env).

(** ** Authentication *)

Definition getAuth : M Auth :=
  tryCatch
    (if needLogin env then
       if nonEmpty (profile_username env) && nonEmpty (profile_password env) then
         authResult ← await (validateUser env);
         match authResult with
         | ResOK _ =>
             mret (mkAuth (Some (profile_username env)) (Some (profile_password env)))
         | ResError _ _ => throw (JsError (i18n_t "error_invalidUser"))
         end
       else mret (mkAuth None None)
     else mret (mkAuth None None))
    (fun error =>
       @showError unit error;;
       await (openLoginModal env)).

(** ** Term resolver, as called *)

Fixpoint showNotices (msgs : list string) : M unit :=
  match msgs with
  | [] => mret tt
  | m :: rest => Notice m;; showNotices rest
  end.

Definition convertCategoryNamesToIds (categoryNames : list value) : M (list number) :=
  allCategories ← ask (getCategories env);
  let r := categoryIdsOfNames (engine env) allCategories categoryNames in
  showNotices (snd r);;
  mret (fst r).

Definition convertCategoryIdsToNames (categoryIds : option (list value))
  : M (list string) :=
  allCategories ← ask (getCategories env);
  mret (categoryNamesOfIds (engine env) allCategories categoryIds).

(** ** From a stored URL to a post id *)

Definition getPostIdBySlug (slug : string) : M (option number) :=
  response ← ask (fun t => getPostsBySlug env t slug);
  match response with
  | inr (id :: _) => mret (Some (parseInt (engine env) (toStr id)))
  | _ => mret None
  end.

Definition extractPostIdFromUrl (url : value) : M (option number) :=
  match newURL env (toStr url) with
  | None => mret None
  | Some urlObj =>
      match searchParam_p urlObj with
      | Some (String c rest) => mret (Some (parseInt (engine env) (String c rest)))
      | _ =>
          let segments := List.filter nonEmpty (splitOn "/" (pathname urlObj)) in
          match last segments with
          | None => mret None
          | Some slug =>
              let slug := stripPageExtension slug in
              if nonEmpty slug then getPostIdBySlug slug else mret None
          end
      end
  end.

(** [if (postId)] on a [number | null] *)
Definition truthyId (postId : option number) : option number :=
  match postId with
  | Some (Num z) => if (z =? 0)%Z then None else Some (Num z)
  | Some (Infinity negative) => Some (Infinity negative)
  | _ => None
  end.

(** ** Profile check *)

Definition profileCategories (st : State) : value :=
  match lastSelectedCategories st with
  | Some (x :: rest) => VArr (x :: rest)
  | _ => VArr [VNum (Num 1)]
  end.

Definition isProfileNameMismatch (matterData : FrontMatter) : bool :=
  truthy (prop matterData "wp_profile") &&
  negb (strictEqStr (prop matterData "wp_profile") (profile_name env)).

Definition checkExistingProfile (matterData : FrontMatter) : M FrontMatter :=
  if isProfileNameMismatch matterData then
    confirm ← ask (openConfirmModal env);
    match confirm with
    | Cancel => mret matterData
    | Confirm =>
        st ← getState;
        mret (<["wp_categories" := profileCategories st]> (delete "wp_url" matterData))
    end
  else mret matterData.

(** ** Representation detection *)

(** The block that [publishPost] runs twice (for the request of an update
    and for the selection shown in the modal): names are converted, ids are
    taken as they are, and without a stored selection the profile's last
    selection or [[1]] is used. *)
Definition selectedCategoryIds (matterData : FrontMatter) : M (list value) :=
  match nonEmptyArray (prop matterData "wp_categories") with
  | Some wpCategories =>
      if firstIsString wpCategories then
        ids ← convertCategoryNamesToIds wpCategories; mret (VNum <$> ids)
      else mret wpCategories
  | None =>
      st ← getState;
      match lastSelectedCategories st with
      | Some (x :: rest) =>
          if firstIsString (x :: rest) then
            ids ← convertCategoryNamesToIds (x :: rest); mret (VNum <$> ids)
          else mret (x :: rest)
      | _ => mret [VNum (Num 1)]
      end
  end.

(** ** Building the request from the front matter *)

(** The categories block of [readFromFrontMatter], entered when
    [matterData.wp_categories !== undefined]. *)
Definition categoriesFromFrontMatter (wpCategories : value) (postParams : PostParams)
  : M PostParams :=
  match nonEmptyArray wpCategories with
  | Some items =>
      if firstIsString items then
        getAuth;;
        ids ← convertCategoryNamesToIds items;
        mret (setCategories (VNum <$> ids) postParams)
      else mret (setCategories items postParams)
  | None =>
      st ← getState;
      match lastSelectedCategories st with
      | Some (x :: rest) =>
          if firstIsString (x :: rest) then
            getAuth;;
            ids ← convertCategoryNamesToIds (x :: rest);
            mret (setCategories (VNum <$> ids) postParams)
          else mret (setCategories (x :: rest) postParams)
      | _ => mret (setCategories [VNum (Num 1)] postParams)
      end
  end.

(** The part of [readFromFrontMatter] before the categories and tags: title,
    post id, profile name and post type. *)
Definition readHeaderFromFrontMatter (noteTitle : string) (matterData : FrontMatter)
    (params : PostParams) : M PostParams :=
  let postParams := setTitle (VStr noteTitle) params in
  let postParams :=
    if truthy (prop matterData "wp_title")
    then setTitle (prop matterData "wp_title") postParams else postParams in
  postParams ←
    (if truthy (prop matterData "wp_url") then
       postId ← extractPostIdFromUrl (prop matterData "wp_url");
       match truthyId postId with
       | Some n => mret (setPostId (numberToString n) postParams)
       | None => mret postParams
       end
     else mret postParams);
  let postParams :=
    setProfileName
      (nullish (prop matterData "wp_profile") (VStr (WP_DEFAULT_PROFILE_NAME env)))
      postParams in
  match prop matterData "wp_ptype" with
  | VUndef => mret (setPostType (VStr PostTypeConst_Post) postParams)
  | wp_ptype => mret (setPostType wp_ptype postParams)
  end.

Definition readFromFrontMatter (noteTitle : string) (matterData : FrontMatter)
    (params : PostParams) : M PostParams :=
  postParams ← readHeaderFromFrontMatter noteTitle matterData params;
  if strictEqStr (postType postParams) PostTypeConst_Post then
    postParams ←
      (match prop matterData "wp_categories" with
       | VUndef => mret postParams
       | wpCategories => categoriesFromFrontMatter wpCategories postParams
       end);
    match prop matterData "wp_tags" with
    | VUndef => mret postParams
    | wp_tags => mret (setTags wp_tags postParams)
    end
  else mret postParams.

End Client.

(** ** Regular expressions of the media relay *)

(** The constructs that the two image patterns use. *)
Inductive regex : Type :=
| RChar (c : ascii)
| RDot
| RDigit
| RSeq (r1 r2 : regex)
| ROpt (r : regex)
| RLazyStar (r : regex)
| RPlus (r : regex)
| RGroup (n : nat) (r : regex).

(** The captures made so far, latest first. *)
Abbreviation captures := (list (nat * string)).

Definition capture (n : nat) (c : captures) : option string :=
  snd <$> List.find (fun p => (fst p =? n)%nat) c.

(** [.] matches any code unit but a line feed or a carriage return. *)
Definition isLineTerminator (c : ascii) : bool :=
  let n := nat_of_ascii c in (n =? 10)%nat || (n =? 13)%nat.

Definition isDigit (c : ascii) : bool :=
  let n := nat_of_ascii c in (48 <=? n)%nat && (n <=? 57)%nat.

(** What [from] has in front of its suffix [to]. *)
Definition consumed (from to : string) : string :=
  String.substring 0 (String.length from - String.length to) from.

(** The loop of a lazy star: the continuation first, another iteration of
    [m] only when it fails.  An iteration that consumes nothing is not
    repeated, so the length of the input bounds the number of rounds [n]. *)
Fixpoint lazyStar {A}
    (m : string -> captures -> (string -> captures -> option A) -> option A)
    (k : string -> captures -> option A) (n : nat) (s : string) (c : captures)
  : option A :=
  match k s c with
  | Some x => Some x
  | None =>
      match n with
      | O => None
      | S n' =>
          m s c (fun s' c' =>
            if (String.length s' <? String.length s)%nat
            then lazyStar m k n' s' c' else None)
      end
  end.

(** The loop of a greedy star: another iteration of [m] first, the
    continuation when that fails. *)
Fixpoint greedyStar {A}
    (m : string -> captures -> (string -> captures -> option A) -> option A)
    (k : string -> captures -> option A) (n : nat) (s : string) (c : captures)
  : option A :=
  match n with
  | O => k s c
  | S n' =>
      match m s c (fun s' c' =>
              if (String.length s' <? String.length s)%nat
              then greedyStar m k n' s' c' else None) with
      | Some x => Some x
      | None => k s c
      end
  end.

(** A backtracking matcher in continuation style, as in the ECMAScript
    semantics: [rmatch r s c k] matches [r] at the start of [s] and hands the
    rest of the input and the captures to [k]; when [k] fails the next
    alternative of [r] is tried.  A lazy star tries [k] before another
    iteration, [?] and [+] try the longer match first. *)
Fixpoint rmatch {A} (r : regex) (s : string) (c : captures)
    (k : string -> captures -> option A) : option A :=
  match r with
  | RChar a =>
      match s with
      | String b rest => if Ascii.eqb a b then k rest c else None
      | EmptyString => None
      end
  | RDot =>
      match s with
      | String b rest => if isLineTerminator b then None else k rest c
      | EmptyString => None
      end
  | RDigit =>
      match s with
      | String b rest => if isDigit b then k rest c else None
      | EmptyString => None
      end
  | RSeq r1 r2 => rmatch r1 s c (fun s' c' => rmatch r2 s' c' k)
  | ROpt r1 =>
      match rmatch r1 s c k with
      | Some x => Some x
      | None => k s c
      end
  | RLazyStar r1 => lazyStar (rmatch r1) k (String.length s) s c
  | RPlus r1 => rmatch r1 s c (greedyStar (rmatch r1) k (String.length s))
  | RGroup n r1 =>
      rmatch r1 s c (fun s' c' => k s' ((n, consumed s s') :: c'))
  end.

(** A match of [regex.exec]: where it starts, what is left of the input
    after it, and the captures. *)
Record Match : Type := mkMatch {
  match_index : nat;
  match_rest : string;
  match_captures : captures
}.

(** [regex.exec(content)] from [lastIndex = pos], [s] being the input from
    there: the first position at which the pattern matches. *)
Fixpoint execFrom (r : regex) (s : string) (pos : nat) : option Match :=
  match rmatch r s [] (fun s' c => Some (mkMatch pos s' c)) with
  | Some m => Some m
  | None =>
      match s with
      | String _ rest => execFrom r rest (S pos)
      | EmptyString => None
      end
  end.

(** The [while ((match = regex.exec(content)) !== null)] loop of a global
    pattern; every match of the two patterns is at least four characters
    long, so the length of the input bounds the number of rounds. *)
Fixpoint execAll (fuel : nat) (r : regex) (s : string) (pos : nat) : list Match :=
  match fuel with
  | O => []
  | S fuel' =>
      match execFrom r s pos with
      | None => []
      | Some m =>
          m :: execAll fuel' r (match_rest m)
                 (pos + (String.length s - String.length (match_rest m)))
      end
  end.

Definition RStr (s : string) : regex -> regex :=
  fun r => fold_right (fun c acc => RSeq (RChar c) acc) r (list_ascii_of_string s).

(** [(?:\|(\d+)(?:x(\d+))?)?] *)
Definition sizeAnnotation : regex :=
  ROpt (RSeq (RChar "|")
         (RSeq (RGroup 3 (RPlus RDigit))
               (ROpt (RSeq (RChar "x") (RGroup 4 (RPlus RDigit)))))).

(** [/(!\[(.*?)(?:\|(\d+)(?:x(\d+))?)?]\((.*?)\))/g] *)
Definition inlineImagePattern : regex :=
  RGroup 1
    (RSeq (RChar "!") (RSeq (RChar "[")
    (RSeq (RGroup 2 (RLazyStar RDot))
    (RSeq sizeAnnotation
    (RSeq (RChar "]") (RSeq (RChar "(")
    (RSeq (RGroup 5 (RLazyStar RDot)) (RChar ")")))))))).

(** [/(!\[\[(.*?)(?:\|(\d+)(?:x(\d+))?)?]])/g] *)
Definition embedImagePattern : regex :=
  RGroup 1
    (RSeq (RChar "!") (RSeq (RChar "[") (RSeq (RChar "[")
    (RSeq (RGroup 2 (RLazyStar RDot))
    (RSeq sizeAnnotation
    (RSeq (RChar "]") (RChar "]"))))))).

(** ** Image references *)

Record Image : Type := mkImage {
  original : string;
  src : string;
  altText : option string;
  width : option string;
  height : option string;
  srcIsUrl : bool;
  startIndex : nat;
  endIndex : nat
}.

Definition group (n : nat) (m : Match) : string :=
  default "" (capture n (match_captures m)).

Section Images.

Context (isValidUrl : string -> bool).

(** [endIndex] adds [match.length], the number of entries of the match
    array (the whole match and its groups), to the index. *)
Definition inlineImage (m : Match) : Image :=
  mkImage (group 1 m) (group 5 m) (Some (group 2 m))
    (capture 3 (match_captures m)) (capture 4 (match_captures m))
    (isValidUrl (group 5 m)) (match_index m) (match_index m + 6).

Definition embedImage (m : Match) : Image :=
  mkImage (group 1 m) (group 2 m) None
    (capture 3 (match_captures m)) (capture 4 (match_captures m))
    (isValidUrl (group 2 m)) (match_index m) (match_index m + 5).

Definition getImages (content : string) : list Image :=
  (inlineImage <$> execAll (String.length content) inlineImagePattern content 0) ++
  (embedImage <$> execAll (String.length content) embedImagePattern content 0).

End Images.

(** ** [String.prototype.replace] with a string pattern *)

(** The text before and after the first occurrence of [pattern]. *)
Fixpoint splitAtFirst (pattern s : string) : option (string * string) :=
  if String.prefix pattern s
  then Some (EmptyString, String.substring (String.length pattern)
                            (String.length s - String.length pattern) s)
  else match s with
       | EmptyString => None
       | String c rest =>
           match splitAtFirst pattern rest with
           | Some (before, after) => Some (String c before, after)
           | None => None
           end
       end.

(** The replacement text is a template: [$$], [$&], [$`] and [$'] stand for
    a dollar, the matched text, the text before it and the text after it.
    A string pattern has no groups, so [$1] and the like stay as written. *)
Fixpoint getSubstitution (matched before after replacement : string) : string :=
  match replacement with
  | EmptyString => EmptyString
  | String c rest =>
      if Ascii.eqb c "$" then
        match rest with
        | EmptyString => String c EmptyString
        | String d rest' =>
            if Ascii.eqb d "$"
            then String "$" (getSubstitution matched before after rest')
            else if Ascii.eqb d "&"
            then matched +:+ getSubstitution matched before after rest'
            else if Ascii.eqb d "`"
            then before +:+ getSubstitution matched before after rest'
            else if Ascii.eqb d "'"
            then after +:+ getSubstitution matched before after rest'
            else String c (getSubstitution matched before after rest)
        end
      else String c (getSubstitution matched before after rest)
  end.

(** [s.replace(pattern, replacement)]: the first occurrence only. *)
Definition replace (s pattern replacement : string) : string :=
  match splitAtFirst pattern s with
  | None => s
  | Some (before, after) =>
      before +:+ getSubstitution pattern before after replacement +:+ after
  end.

(** The remote embed written for an uploaded image, by shape of the size
    annotation. *)
Definition remoteEmbed (url : string) (img : Image) : string :=
  match width img, height img with
  | Some w, Some h => "![[" +:+ url +:+ "|" +:+ w +:+ "x" +:+ h +:+ "]]"
  | Some w, None => "![[" +:+ url +:+ "|" +:+ w +:+ "]]"
  | None, _ => "![[" +:+ url +:+ "]]"
  end.

(** ** The front matter merge of [tryToPublish] *)

(** [x !== undefined && x.length >= 0] *)
Definition definedWithLength (x : value) : exn + bool :=
  match x with
  | VUndef => inr false
  | VNull => inl (JsError "Cannot read properties of null (reading 'length')")
  | VStr _ | VArr _ => inr true
  | VBool _ | VNum _ => inr false
  end.

(** [typeof x === 'number'] *)
Definition isNumber (v : value) : bool :=
  match v with VNum _ => true | _ => false end.

(** What the callback given to [processFrontMatter] closes over. *)
Record MergeInputs : Type := mkMergeInputs {
  mi_profile_name : string;
  mi_profile_endpoint : string;
  mi_basename : string;
  mi_postId : value;
  mi_postUrl : value;
  mi_postParams : PostParams;
  categoryNamesForNewPost : option (list string);
  categoryNamesForExisting : option (list string);
  categoryNamesForUpdate : option (list string);
  originalTagNames : value;
  updateMatterData : option (FrontMatter -> exn + FrontMatter)
}.

Definition names (l : list string) : value := VArr (VStr <$> l).

Definition mergeProfile (i : MergeInputs) (fm : FrontMatter) : FrontMatter :=
  <["wp_profile" := VStr (mi_profile_name i)]> fm.

Definition mergeUrl (i : MergeInputs) (preserved fm : FrontMatter) : FrontMatter :=
  if truthy (prop preserved "wp_url") then
    <["wp_url" := prop preserved "wp_url"]> fm
  else if truthy (mi_postUrl i) then
    <["wp_url" := mi_postUrl i]> fm
  else if truthy (mi_postId i) then
    <["wp_url" := VStr (mi_profile_endpoint i +:+ "/?p=" +:+ toStr (mi_postId i))]> fm
  else fm.

Definition mergePostType (i : MergeInputs) (preserved fm : FrontMatter) : FrontMatter :=
  match prop preserved "wp_ptype" with
  | VUndef =>
      if truthy (postType (mi_postParams i))
      then <["wp_ptype" := postType (mi_postParams i)]> fm else fm
  | wp_ptype => <["wp_ptype" := wp_ptype]> fm
  end.

Definition mergeCategories (i : MergeInputs) (preserved fm : FrontMatter) : FrontMatter :=
  match categoryNamesForNewPost i with
  | Some l => <["wp_categories" := names l]> fm
  | None =>
      match categoryNamesForExisting i with
      | Some l => <["wp_categories" := names l]> fm
      | None =>
          match categoryNamesForUpdate i with
          | Some l => <["wp_categories" := names l]> fm
          | None =>
              match categories (mi_postParams i) with
              | x :: rest => <["wp_categories" := VArr (x :: rest)]> fm
              | [] =>
                  match prop preserved "wp_categories" with
                  | VUndef => fm
                  | wp_categories => <["wp_categories" := wp_categories]> fm
                  end
              end
          end
      end
  end.

Definition mergeTags (i : MergeInputs) (preserved fm : FrontMatter)
  : exn + FrontMatter :=
  match definedWithLength (originalTagNames i) with
  | inl e => inl e
  | inr true => inr (<["wp_tags" := originalTagNames i]> fm)
  | inr false =>
      match definedWithLength (tags (mi_postParams i)) with
      | inl e => inl e
      | inr true => inr (<["wp_tags" := tags (mi_postParams i)]> fm)
      | inr false =>
          match prop preserved "wp_tags" with
          | VUndef => inr fm
          | wp_tags => inr (<["wp_tags" := wp_tags]> fm)
          end
      end
  end.

Definition mergeTitle (i : MergeInputs) (preserved fm : FrontMatter) : FrontMatter :=
  match prop preserved "wp_title" with
  | VUndef =>
      if truthy (title (mi_postParams i)) &&
         negb (strictEqStr (title (mi_postParams i)) (mi_basename i))
      then <["wp_title" := title (mi_postParams i)]> fm else fm
  | wp_title => <["wp_title" := wp_title]> fm
  end.

(** The built-in policy: the callback up to, and without, the call of
    [updateMatterData].  [preserved] is the block as it was read. *)
Definition mergePolicy (i : MergeInputs) (fm : FrontMatter) : exn + FrontMatter :=
  let preserved := fm in
  let fm := mergeProfile i fm in
  let fm := mergeUrl i preserved fm in
  let fm := mergePostType i preserved fm in
  let fm := mergeCategories i preserved fm in
  match mergeTags i preserved fm with
  | inl e => inl e
  | inr fm => inr (mergeTitle i preserved fm)
  end.

(** The whole callback: the policy, then the caller's own update. *)
Definition mergeFrontMatter (i : MergeInputs) (fm : FrontMatter) : exn + FrontMatter :=
  match mergePolicy i fm with
  | inl e => inl e
  | inr fm =>
      match updateMatterData i with
      | Some update => update fm
      | None => inr fm
      end
  end.

(** [fileManager.processFrontMatter(file, fn)]: one read-modify-write of the
    persisted block; nothing is written when [fn] throws. *)
Definition processFrontMatter (fn : FrontMatter -> exn + FrontMatter) : M unit :=
  st ← getState;
  match fn (fileFrontMatter st) with
  | inl e => throw e
  | inr fm => modify (setFrontMatter fm)
  end.

(** The first revision of the callback, kept for comparison. *)
Module Legacy.

Definition mergeUrl (i : MergeInputs) (preserved fm : FrontMatter) : FrontMatter :=
  if truthy (mi_postId i) && truthy (mi_postUrl i) then
    <["wp_url" := mi_postUrl i]> fm
  else if truthy (mi_postId i) && negb (truthy (prop preserved "wp_url")) then
    <["wp_url" := VStr (mi_profile_endpoint i +:+ "/?p=" +:+ toStr (mi_postId i))]> fm
  else if truthy (prop preserved "wp_url") then
    <["wp_url" := prop preserved "wp_url"]> fm
  else fm.

End Legacy.

Section Publish.

Context (env : Env).

(** ** Tags *)

(** [Promise.allSettled] over one [getTag] per name: the rejected ones are
    left out.  A value without [map] cannot be mapped. *)
Definition getTags (tags : value) : M (list Term) :=
  match tags with
  | VArr items =>
      answer ← ask (getTag env);
      mret (omap (fun name => match answer name with
                              | inr term => Some term
                              | inl _ => None
                              end) items)
  | _ => throw (JsError "tags.map is not a function")
  end.

(** ** Media relay *)

Fixpoint relayImages (images : list Image) (postParams : PostParams) : M PostParams :=
  match images with
  | [] => mret postParams
  | img :: rest =>
      if srcIsUrl img then relayImages rest postParams
      else
        match decodeURI env (src img) with
        | inl e => throw e
        | inr decoded =>
            match last (splitOn "/" decoded) with
            | None => relayImages rest postParams
            | Some fileName =>
                match getFirstLinkpathDest env decoded fileName with
                | None => relayImages rest postParams
                | Some imgFile =>
                    result ← await (fun t => uploadMedia env t imgFile);
                    match result with
                    | ResOK url =>
                        relayImages rest
                          (setContent (replace (content postParams) (original img)
                                         (remoteEmbed url img)) postParams)
                    | ResError ServerInternalError message =>
                        Notice message;; relayImages rest postParams
                    | ResError (OtherErrorCode _) _ =>
                        Notice (i18n_t "error_mediaUploadFailed");;
                        relayImages rest postParams
                    end
                end
            end
        end
  end.

Definition updatePostImages (postParams : PostParams) : M PostParams :=
  match activeFile env with
  | None => throw (JsError (i18n_t "error_noActiveFile"))
  | Some _ =>
      if hasActiveEditor env then
        postParams ← relayImages (getImages (isValidUrl env) (content postParams))
                       postParams;
        (if replaceMediaLinks env
         then modify (setEditorValue (content postParams)) else mret tt);;
        mret postParams
      else mret postParams
  end.

(** ** One remote call and the write back *)

(** [try { getAuth(); convertCategoryIdsToNames(ids) } catch { }]: the names,
    or nothing when the conversion could not run. *)
Definition tryConvertIdsToNames (ids : list value) : M (option (list string)) :=
  tryCatch
    (getAuth env;; l ← convertCategoryIdsToNames env (Some ids); mret (Some l))
    (fun _ => mret None).

Definition rememberCategories (data : PublishData) : M unit :=
  tryCatch
    (getAuth env;;
     l ← convertCategoryIdsToNames env (res_categories data);
     modify (setLastSelected (Some (VStr <$> l))))
    (fun _ => modify (setLastSelected (res_categories data))).

Definition tryToPublish (postParams : PostParams)
    (updateMatterData : option (FrontMatter -> exn + FrontMatter))
    (originalTagNames : value) : M (ClientResult PublishData) :=
  tagTerms ← getTags (tags postParams);
  let postParams := setTags (VArr ((fun term => VStr (term_id term)) <$> tagTerms))
                      postParams in
  postParams ← updatePostImages postParams;
  let html := markdownRender env (content postParams) in
  modify (addPublished postParams);;
  result ← await (fun t => publish env t
                     (nullish (title postParams) (VStr "A post from Obsidian!"))
                     html postParams);
  match result with
  | ResError _ _ => throw (JsError (i18n_t "error_publishFailed"))
  | ResOK data =>
      Notice (i18n_t "message_publishSuccessfully");;
      let postId := res_postId data in
      match activeFile env with
      | Some basename =>
          categoryNamesForNewPost ←
            match categories postParams with
            | x :: rest => tryConvertIdsToNames (x :: rest)
            | [] => mret None
            end;
          currentFileData ← processFile;
          categoryNamesForExisting ←
            match nonEmptyArray (prop (snd currentFileData) "wp_categories") with
            | Some (x :: rest) =>
                if isNumber x then tryConvertIdsToNames (x :: rest) else mret None
            | _ => mret None
            end;
          processFrontMatter
            (mergeFrontMatter
               (mkMergeInputs (profile_name env) (profile_endpoint env) basename
                  postId (res_postUrl data) postParams
                  categoryNamesForNewPost categoryNamesForExisting
                  categoryNamesForNewPost originalTagNames updateMatterData))
      | None => mret tt
      end;;
      (if truthy postId && rememberLastSelectedCategories env
       then rememberCategories data else mret tt);;
      mret result
  end.

(** ** The orchestrator *)

(** [matterData.wp_url && matterData.wp_url.length > 0] *)
Definition hasExistingPost (matterData : FrontMatter) : bool :=
  truthy (prop matterData "wp_url") &&
  match prop matterData "wp_url" with
  | VStr s => (0 <? String.length s)%nat
  | VArr items => (0 <? length items)%nat
  | _ => false
  end.

(** [Object.keys(matterData).some(key => key.startsWith('wp_'))] *)
Definition hasWpKey (matterData : FrontMatter) : bool :=
  existsb (fun kv => String.prefix "wp_" (fst kv)) (map_to_list matterData).

(** The publish modal: each submission runs [tryToPublish]; the promise that
    [publishPost] awaits is resolved by a submission that succeeds, and by
    nothing else. *)
Fixpoint publishModal (noteTitle : string) (fileContent : string)
    (matterData : FrontMatter)
    (submissions : list (PostParams * option (FrontMatter -> exn + FrontMatter)))
  : M (ClientResult PublishData) :=
  match submissions with
  | [] => fun st => (Pending, st)
  | (postParams, updateMatterData) :: rest =>
      r ← tryCatch
            (postParams ← readFromFrontMatter env noteTitle matterData postParams;
             let postParams := setContent fileContent postParams in
             let originalTagsForModal :=
               nullish (prop matterData "wp_tags") (VArr []) in
             tryCatch
               (r ← tryToPublish postParams updateMatterData originalTagsForModal;
                mret (Some r))
               (fun error =>
                  match error with
                  | JsError _ => @showError unit error;; mret None
                  | NonError _ => throw error
                  end))
            (fun _ => mret None);
      match r with
      | Some (ResOK data) => mret (ResOK data)
      | _ => publishModal noteTitle fileContent matterData rest
      end
  end.

Definition publishInProgressMessage : string :=
  "A publish operation is already in progress. Please wait for it to complete.".

Definition frontMatterParsingFailedMessage : string :=
  "WordPress frontmatter parsing failed. Please check the YAML syntax in your frontmatter and try again.".

(** The [try] block of [publishPost]. *)
Definition publishPostBody (defaultPostParams : option PostParams)
  : M (ClientResult PublishData) :=
  st ← getState;
  if publishInProgress st then throw (JsError publishInProgressMessage)
  else
    modify (setInProgress true);;
    if negb (nonEmpty (profile_endpoint env))
    then throw (JsError (i18n_t "error_noEndpoint"))
    else
      match activeFile env with
      | None => throw (JsError (i18n_t "error_noActiveFile"))
      | Some noteTitle =>
          getAuth env;;
          file ← processFile;
          let fileContent := fst file in
          let matterData := snd file in
          st ← getState;
          if fileTextHasWpKey st && negb (hasWpKey matterData)
          then throw (JsError frontMatterParsingFailedMessage)
          else
            matterData ←
              (if negb (hasWpKey matterData) && (0 <? fileSize env)%nat then
                 retry ← processFile;
                 if hasWpKey (snd retry)
                 then mret (snd retry ∪ matterData) else mret matterData
               else mret matterData);
            matterData ← checkExistingProfile env matterData;
            if bool_decide (is_Some defaultPostParams) || hasExistingPost matterData
            then
              categoriesForAPI ← selectedCategoryIds env matterData;
              let baseParams :=
                match defaultPostParams with
                | Some p => p
                | None =>
                    mkPostParams (defaultPostStatus env) (defaultCommentStatus env)
                      (nullish (prop matterData "wp_ptype") (VStr PostTypeConst_Post))
                      categoriesForAPI
                      (nullish (prop matterData "wp_tags") (VArr []))
                      (VStr "") "" None VUndef
                end in
              postParams ← readFromFrontMatter env noteTitle matterData baseParams;
              let postParams := setContent fileContent postParams in
              tryToPublish postParams None
                (nullish (prop matterData "wp_tags") (VArr []))
            else
              await (getCategories env);;
              selectedCategoryIds env matterData;;
              await (getPostTypes env);;
              publishModal noteTitle fileContent matterData
                (publishModalSubmissions env)
      end.

(** [publishPost]: the body, the [catch] that turns an [Error] into an error
    result, and the [finally] that lowers the flag. *)
Definition publishPost (defaultPostParams : option PostParams)
  : M (ClientResult PublishData) :=
  tryFinally
    (tryCatch (publishPostBody defaultPostParams)
       (fun error =>
          match error with
          | JsError _ => showError error
          | NonError _ => throw error
          end))
    (setInProgress false).

End Publish.

(** ** The resolver as the specification words it *)

(** The id a name resolves to: that of the first remote category with the
    same name up to case, or the default [1]. *)
Definition resolveName (engine : Engine) (allCategories : list Term) (name : string)
  : number :=
  match List.find (nameMatches engine name) allCategories with
  | Some category => parseInt engine (term_id category)
  | None => Num 1
  end.

Definition isUnmatched (engine : Engine) (allCategories : list Term) (name : string)
  : bool :=
  match List.find (nameMatches engine name) allCategories with
  | Some _ => false
  | None => true
  end.

(** De-duplicated ids, [[1]] when there is none, and one warning for all
    the unmatched names. *)
Definition resolveCategoryIdsFromNames (engine : Engine) (allCategories : list Term)
    (names : list string) : list number * list string :=
  (match uniqueInOrder (resolveName engine allCategories <$> names) with
   | [] => [Num 1]
   | ids => ids
   end,
   match List.filter (isUnmatched engine allCategories) names with
   | [] => []
   | missing => [categoriesNotFoundNotice (VStr <$> missing)]
   end).

(** [wp_categories] in name form: an array of strings. *)
Definition isNameForm (v : value) : bool :=
  match v with
  | VArr items => forallb isString items
  | _ => false
  end.

(** ** Texts with one embed *)

(** Every character of [s] satisfies [P]. *)
Fixpoint allChars (P : ascii -> bool) (s : string) : bool :=
  match s with
  | EmptyString => true
  | String c rest => P c && allChars P rest
  end.

Definition isNot (a c : ascii) : bool := negb (Ascii.eqb a c).

(** [s'] is what is left of [s] after some prefix. *)
Definition isSuffix (s' s : string) : Prop := exists p, s = p +:+ s'.

(** Both patterns begin with an exclamation mark. *)
Definition startsWithBang (r : regex) : Prop :=
  forall A b rest c (k : string -> captures -> option A),
    Ascii.eqb "!" b = false -> rmatch r (String b rest) c k = None.

(** The size annotation of an embed, by shape. *)
Inductive SizeAnnotation : Type :=
| NoSize
| WidthOnly (w : string)
| WidthHeight (w h : string).

Definition annotationText (a : SizeAnnotation) : string :=
  match a with
  | NoSize => ""
  | WidthOnly w => "|" +:+ w
  | WidthHeight w h => "|" +:+ w +:+ "x" +:+ h
  end.

Definition embedText (target : string) (a : SizeAnnotation) : string :=
  "![[" +:+ target +:+ annotationText a +:+ "]]".

Definition isDigits (w : string) : bool := nonEmpty w && allChars isDigit w.

Definition wellFormedSize (a : SizeAnnotation) : bool :=
  match a with
  | NoSize => true
  | WidthOnly w => isDigits w
  | WidthHeight w h => isDigits w && isDigits h
  end.

Definition annotationCaptures (a : SizeAnnotation) : captures :=
  match a with
  | NoSize => []
  | WidthOnly w => [(3, w)]
  | WidthHeight w h => [(4, h); (3, w)]
  end.

(** A character of an image path that the embed pattern reads through. *)
Definition isPathChar (b : ascii) : bool :=
  negb (isLineTerminator b) && isNot "|" b && isNot "]" b.

Definition headIsDigit (s : string) : bool :=
  match s with
  | String b _ => isDigit b
  | EmptyString => false
  end.

(** ** What an attempt leaves as it was *)

(** Every run of [m] takes a state to one related to it by [R]. *)
Definition steps {A} (R : State -> State -> Prop) (m : M A) : Prop :=
  forall st, R st (snd (m st)).

(** The stored URL, once present, stays. *)
Definition urlKept (st st' : State) : Prop :=
  truthy (prop (fileFrontMatter st) "wp_url") = true ->
  fileFrontMatter st' !! "wp_url" = fileFrontMatter st !! "wp_url".

(** The front matter is not touched. *)
Definition frontMatterKept (st st' : State) : Prop :=
  fileFrontMatter st' = fileFrontMatter st.

(** An update of the caller that leaves the URL alone. *)
Definition keepsUrl (update : FrontMatter -> exn + FrontMatter) : Prop :=
  forall fm fm', update fm = inr fm' -> fm' !! "wp_url" = fm !! "wp_url".

(** ** Sample worlds *)

(** Worlds on which the properties below are exercised: a profile [blog] at
    [https://example.com], a note [note] open in the editor, three remote
    categories, a server that accepts every request.  The server answers an
    update with the id it was given and a create with the id 55. *)

(** The engine of the sample worlds: the lower case of the code units up to
    255, and the nearest double, ties to even, for an integer beyond [2^53]. *)
Definition lowerLatin1 (c : ascii) : ascii :=
  let n := nat_of_ascii c in
  if (192 <=? n)%nat && (n <=? 222)%nat && negb (n =? 215)%nat
  then ascii_of_nat (n + 32) else lowerAscii c.

Fixpoint lowerCaseLatin1 (s : string) : string :=
  match s with
  | EmptyString => EmptyString
  | String c rest => String (lowerLatin1 c) (lowerCaseLatin1 rest)
  end.

Definition nearestDouble (z : Z) : number :=
  let a := Z.abs z in
  let e := (Z.log2 a - 52)%Z in
  let q := (a / 2 ^ e)%Z in
  let r := (a mod 2 ^ e)%Z in
  let half := (2 ^ (e - 1))%Z in
  let q' := if (half <? r)%Z || ((r =? half)%Z && Z.odd q) then (q + 1)%Z else q in
  let m := (q' * 2 ^ e)%Z in
  if (2 ^ 1024 <=? m)%Z then Infinity (z <? 0)%Z else Num (Z.sgn z * m).

Definition sampleEngine : Engine := mkEngine lowerCaseLatin1 nearestDouble.

Definition sampleCategories : list Term :=
  [mkTerm "1" "Uncategorized"; mkTerm "3" "News"; mkTerm "7" "Tech"].

(** [new URL] on the two URLs used below; other texts are taken as invalid. *)
Definition sampleURL (s : string) : option URLObj :=
  if String.eqb s "https://example.com/?p=42"
  then Some (mkURL (Some "42") "/")
  else if String.eqb s "https://example.com/hello-world/"
  then Some (mkURL None "/hello-world/")
  else None.

Definition samplePublish (t : nat) (postTitle : value) (html : string)
    (p : PostParams) : exn + ClientResult PublishData :=
  inr (ResOK (mkPublishData (VStr (default "55" (postId p))) VUndef
                (Some (categories p)))).

(** [getPostsBySlug] as the class defines it: no post is ever found. *)
Definition baseGetPostsBySlug (t : nat) (slug : string) : exn + list value :=
  inr [].

Definition sampleEnv : Env :=
  mkEnv "blog" "https://example.com" "" "" true "Default" "draft" "open" true false
    (Some "note") 10 true
    (fun _ => inr (ResOK true))
    (fun _ => inr (mkAuth None None))
    (fun _ => inr sampleCategories)
    (fun _ => inr ["post"; "page"])
    (fun _ name => inr (mkTerm "9" (toStr name)))
    samplePublish
    (fun _ fileName => inr (ResOK ("https://cdn.example.com/" +:+ fileName)))
    (fun _ fileName =>
       if String.eqb fileName "cat.png" || String.eqb fileName "dog.png"
       then Some fileName else None)
    (fun _ => Confirm)
    []
    (fun s => s)
    sampleURL
    baseGetPostsBySlug
    (String.prefix "http")
    (fun s => inr s)
    sampleEngine.

(** The same world with stored credentials that the server accepts once:
    a later validation fails and the login prompt is dismissed. *)
Definition expiringEnv : Env :=
  mkEnv "blog" "https://example.com" "user" "secret" true "Default" "draft" "open"
    true false (Some "note") 10 true
    (fun t => if (t =? 0)%nat then inr (ResOK true)
              else inr (ResError (OtherErrorCode "401") "expired"))
    (fun _ => inl (JsError "login dismissed"))
    (fun _ => inr sampleCategories)
    (fun _ => inr ["post"; "page"])
    (fun _ name => inr (mkTerm "9" (toStr name)))
    samplePublish
    (fun _ fileName => inr (ResOK ("https://cdn.example.com/" +:+ fileName)))
    (fun _ _ => None)
    (fun _ => Confirm)
    []
    (fun s => s)
    sampleURL
    baseGetPostsBySlug
    (String.prefix "http")
    (fun s => inr s)
    sampleEngine.

(** A world in which the user submits the publish modal once. *)
Definition withSubmissions
    (submissions : list (PostParams * option (FrontMatter -> exn + FrontMatter)))
    (env : Env) : Env :=
  mkEnv (profile_name env) (profile_endpoint env) (profile_username env)
    (profile_password env) (needLogin env) (WP_DEFAULT_PROFILE_NAME env)
    (defaultPostStatus env) (defaultCommentStatus env)
    (rememberLastSelectedCategories env) (replaceMediaLinks env) (activeFile env)
    (fileSize env) (hasActiveEditor env) (validateUser env) (openLoginModal env)
    (getCategories env) (getPostTypes env) (getTag env) (publish env)
    (uploadMedia env) (getFirstLinkpathDest env) (openConfirmModal env)
    submissions (markdownRender env) (newURL env) (getPostsBySlug env)
    (isValidUrl env) (decodeURI env) (engine env).

Definition sampleState (lock : bool) (fm : FrontMatter) (body : string) : State :=
  mkState lock fm (hasWpKey fm) body None None [] 0 [].

Definition sampleParams : PostParams :=
  mkPostParams "draft" "open" (VStr "post") [VNum (Num 5)] (VArr [VStr "old"])
    (VStr "") "" None VUndef.

Definition sampleMergeInputs : MergeInputs :=
  mkMergeInputs "blog" "https://example.com" "note" (VStr "55")
    (VStr "https://example.com/fresh/") sampleParams
    (Some ["News"]) None (Some ["News"]) (VArr []) None.

(** ** Names and keys *)

(** The name under which the remote list holds the category that a name
    resolves to. *)
Definition canonicalName (engine : Engine) (allCategories : list Term) (name : string)
  : option string :=
  term_name <$> List.find (nameMatches engine name) allCategories.

(** The keys that the merge reads into [preserved] and may write. *)
Definition preservedKeys : list string :=
  ["wp_url"; "wp_profile"; "wp_ptype"; "wp_categories"; "wp_tags"; "wp_title"].

(** A part of the state that is as it was. *)
Definition kept {B} (f : State -> B) (st st' : State) : Prop := f st' = f st.

(** ** Further sample worlds *)

(** A world whose server answers every post with the given result. *)
Definition withPublish
    (answer : nat -> value -> string -> PostParams -> exn + ClientResult PublishData)
    (env : Env) : Env :=
  mkEnv (profile_name env) (profile_endpoint env) (profile_username env)
    (profile_password env) (needLogin env) (WP_DEFAULT_PROFILE_NAME env)
    (defaultPostStatus env) (defaultCommentStatus env)
    (rememberLastSelectedCategories env) (replaceMediaLinks env) (activeFile env)
    (fileSize env) (hasActiveEditor env) (validateUser env) (openLoginModal env)
    (getCategories env) (getPostTypes env) (getTag env) answer
    (uploadMedia env) (getFirstLinkpathDest env) (openConfirmModal env)
    (publishModalSubmissions env) (markdownRender env) (newURL env)
    (getPostsBySlug env) (isValidUrl env) (decodeURI env) (engine env).

(** A world with the two settings that let an attempt write outside the
    front matter. *)
Definition withSettings (remember replaceLinks : bool) (env : Env) : Env :=
  mkEnv (profile_name env) (profile_endpoint env) (profile_username env)
    (profile_password env) (needLogin env) (WP_DEFAULT_PROFILE_NAME env)
    (defaultPostStatus env) (defaultCommentStatus env)
    remember replaceLinks (activeFile env)
    (fileSize env) (hasActiveEditor env) (validateUser env) (openLoginModal env)
    (getCategories env) (getPostTypes env) (getTag env) (publish env)
    (uploadMedia env) (getFirstLinkpathDest env) (openConfirmModal env)
    (publishModalSubmissions env) (markdownRender env) (newURL env)
    (getPostsBySlug env) (isValidUrl env) (decodeURI env) (engine env).

(** The sample world with a server that refuses every post. *)
Definition refusingEnv : Env :=
  withPublish (fun _ _ _ _ => inr (ResError (OtherErrorCode "500") "refused")) sampleEnv.

(** A note that was published before, as post 42. *)
Definition publishedNote : State :=
  sampleState false
    {["wp_url" := VStr "https://example.com/?p=42"; "wp_profile" := VStr "blog"]}
    "body".

(** A world with another endpoint and active file. *)
Definition withWorkspace (endpoint : string) (file : option string) (env : Env) : Env :=
  mkEnv (profile_name env) endpoint (profile_username env)
    (profile_password env) (needLogin env) (WP_DEFAULT_PROFILE_NAME env)
    (defaultPostStatus env) (defaultCommentStatus env)
    (rememberLastSelectedCategories env) (replaceMediaLinks env) file
    (fileSize env) (hasActiveEditor env) (validateUser env) (openLoginModal env)
    (getCategories env) (getPostTypes env) (getTag env) (publish env)
    (uploadMedia env) (getFirstLinkpathDest env) (openConfirmModal env)
    (publishModalSubmissions env) (markdownRender env) (newURL env)
    (getPostsBySlug env) (isValidUrl env) (decodeURI env) (engine env).

(** ** The write back of a successful publish *)

(** [fm'] is the merge of [fm] for the answer [data] of the server, under the
    active profile and file, followed by one of the [updates] of the
    callers. *)
Definition mergedFor (env : Env)
    (updates : list (option (FrontMatter -> exn + FrontMatter)))
    (data : PublishData) (fm fm' : FrontMatter) : Prop :=
  exists i,
    mergeFrontMatter i fm = inr fm' /\
    mi_profile_name i = profile_name env /\
    mi_profile_endpoint i = profile_endpoint env /\
    Some (mi_basename i) = activeFile env /\
    mi_postId i = res_postId data /\
    mi_postUrl i = res_postUrl data /\
    updateMatterData i ∈ updates.

(** The answer of the server in a result that is a success. *)
Definition okData (r : ClientResult PublishData) : option PublishData :=
  match r with
  | ResOK data => Some data
  | ResError _ _ => None
  end.

(** A computation that writes the front matter when it returns a success,
    and then by one merge, and at no other time. *)
Definition writesOnSuccess {A} (env : Env)
    (updates : list (option (FrontMatter -> exn + FrontMatter)))
    (success : A -> option PublishData) (m : M A) : Prop :=
  forall st,
    match m st with
    | (Ok a, st') =>
        match success a with
        | Some data => mergedFor env updates data (fileFrontMatter st) (fileFrontMatter st')
        | None => fileFrontMatter st' = fileFrontMatter st
        end
    | (_, st') => fileFrontMatter st' = fileFrontMatter st
    end.

(** The part of a request that the categories and tags do not reach. *)
Definition headerOf (p : PostParams)
  : string * string * value * value * string * option string * value :=
  (status p, commentStatus p, postType p, title p, content p, postId p, profileName p).

(** ** Texts with one inline image *)

Definition inlineText (alt : string) (a : SizeAnnotation) (target : string) : string :=
  "![" +:+ alt +:+ annotationText a +:+ "](" +:+ target +:+ ")".

(** A character of an alternative text that the inline pattern reads
    through and that opens no other image. *)
Definition isAltChar (b : ascii) : bool :=
  isPathChar b && isNot "!" b && isNot "[" b.

(** A character of the target of an inline image. *)
Definition isTargetChar (b : ascii) : bool :=
  negb (isLineTerminator b) && isNot ")" b && isNot "!" b.

(** The value of [categoryNamesForNewPost] when the write back starts, and
    that of [categoryNamesForExisting], which is computed from the block as
    it is read after the request. *)
Definition namesForNewPost (env : Env) (categories : list value)
  : M (option (list string)) :=
  match categories with
  | x :: rest => tryConvertIdsToNames env (x :: rest)
  | [] => mret None
  end.

Definition namesForExisting (env : Env) (matter : FrontMatter)
  : M (option (list string)) :=
  match nonEmptyArray (prop matter "wp_categories") with
  | Some (x :: rest) =>
      if isNumber x then tryConvertIdsToNames env (x :: rest) else mret None
  | _ => mret None
  end.

(** The callback of the caller, run on what the built-in merge has made. *)
Definition thenUpdate (updateMatterData : option (FrontMatter -> exn + FrontMatter))
    (fm : FrontMatter) : exn + FrontMatter :=
  match updateMatterData with
  | Some update => update fm
  | None => inr fm
  end.

(** The parameters that come from outside the document: those given to
    [publishPost], or else those that the submissions of the modal carry. *)
Definition callerParams (env : Env) (defaultPostParams : option PostParams)
  : list PostParams :=
  match defaultPostParams with
  | Some postParams => [postParams]
  | None => fst <$> publishModalSubmissions env
  end.

(** From [st] to [st'] requests were sent, each of them with [P], and none
    was taken back. *)
Definition sendsOnly (P : PostParams -> Prop) (st st' : State) : Prop :=
  exists new, published st' = published st ++ new /\ Forall P new.

(** The metadata in memory after the switch to the new profile. *)
Definition switchedMatter (st : State) : FrontMatter :=
  <["wp_categories" := profileCategories st]> (delete "wp_url" (fileFrontMatter st)).

(** What a selection of categories gives to a request: the ids that its names
    resolve to when it starts with a name, and else the selection itself. *)
Definition fromSelection (env : Env) (selection : list value) (sent : PostParams)
  : Prop :=
  if firstIsString selection
  then exists t, categories sent =
                 VNum <$> fst (categoryIdsOfNames (engine env) (getCategories env t)
                                 selection)
  else categories sent = selection.

(** Two requests that differ in body and tags at most. *)
Definition sameTarget (sent p : PostParams) : Prop :=
  postId sent = postId p /\ postType sent = postType p /\
  categories sent = categories p.

(* ================================================================== *)
(** * Properties *)

(** ** Monad steps *)

Lemma showNotices_run msgs st :
  showNotices msgs st = (Ok tt, fold_left (fun s m => addNotice m s) msgs st).
Proof.
  revert st. induction msgs as [|m rest IH]; intros st; [reflexivity|].
  simpl. unfold mbind, M_bind, Notice, modify. simpl. apply IH.
Qed.

(** ** Term resolver *)

Lemma uniqueInOrder_acc_NoDup (xs seen : list number) :
  NoDup seen ->
  NoDup (foldl (fun seen x => if decide (x ∈ seen) then seen else seen ++ [x]) seen xs).
Proof.
  revert seen. induction xs as [|x xs IH]; intros seen Hs; simpl; [done|].
  apply IH. destruct (decide (x ∈ seen)) as [Hin|Hnin]; [done|].
  apply NoDup_app. split_and!; [done| |apply NoDup_singleton].
  intros y Hy Hy'. apply list_elem_of_singleton in Hy'. by subst.
Qed.

Lemma uniqueInOrder_NoDup xs : NoDup (uniqueInOrder xs).
Proof. apply uniqueInOrder_acc_NoDup, NoDup_nil_2. Qed.

Lemma uniqueInOrder_acc_elem (xs seen : list number) y :
  y ∈ foldl (fun seen x => if decide (x ∈ seen) then seen else seen ++ [x]) seen xs <->
  y ∈ seen \/ y ∈ xs.
Proof.
  revert seen. induction xs as [|x xs IH]; intros seen; simpl.
  - split; [auto|]. intros [H|H]; [done|]. by apply elem_of_nil in H.
  - rewrite IH. destruct (decide (x ∈ seen)) as [Hin|Hnin].
    + rewrite elem_of_cons. split; [tauto|]. intros [H|[->|H]]; auto.
    + rewrite elem_of_app, list_elem_of_singleton, elem_of_cons. tauto.
Qed.

Lemma uniqueInOrder_elem xs y : y ∈ uniqueInOrder xs <-> y ∈ xs.
Proof.
  unfold uniqueInOrder. rewrite uniqueInOrder_acc_elem.
  split; [|auto]. intros [H|H]; [|done]. by apply elem_of_nil in H.
Qed.

Lemma findCategoryByName_string engine allCategories s :
  findCategoryByName engine allCategories (VStr s) =
  inr (List.find (nameMatches engine s) allCategories).
Proof. by destruct allCategories. Qed.

Lemma namesToIdsLoop_strings engine allCategories ns ids missing :
  namesToIdsLoop engine allCategories (VStr <$> ns) ids missing =
  inr (ids ++ (resolveName engine allCategories <$> ns),
       missing ++ (VStr <$> List.filter (isUnmatched engine allCategories) ns)).
Proof.
  revert ids missing. induction ns as [|n ns IH]; intros ids missing.
  - simpl. by rewrite !app_nil_r.
  - rewrite !fmap_cons. cbn [namesToIdsLoop List.filter].
    rewrite findCategoryByName_string.
    destruct (List.find (nameMatches engine n) allCategories) as [cat|] eqn:Hf.
    + assert (resolveName engine allCategories n = parseInt engine (term_id cat)) as ->
        by (unfold resolveName; by rewrite Hf).
      assert (isUnmatched engine allCategories n = false) as ->
        by (unfold isUnmatched; by rewrite Hf).
      rewrite IH. by rewrite <- app_assoc.
    + assert (resolveName engine allCategories n = Num 1) as ->
        by (unfold resolveName; by rewrite Hf).
      assert (isUnmatched engine allCategories n = true) as ->
        by (unfold isUnmatched; by rewrite Hf).
      rewrite IH, fmap_cons. by rewrite <- !app_assoc.
Qed.

Lemma namesToIdsLoop_not_string engine cat allCategories names ids missing :
  Exists (fun v => isString v = false) names ->
  exists e, namesToIdsLoop engine (cat :: allCategories) names ids missing = inl e.
Proof.
  intros Hex. revert ids missing.
  induction Hex as [v names Hv|v names Hex IH]; intros ids missing.
  - destruct v; try discriminate Hv; simpl; eauto.
  - cbn [namesToIdsLoop].
    destruct (findCategoryByName engine (cat :: allCategories) v) as [e|[c|]]; eauto.
Qed.


Lemma categoryIdsOfNames_nonempty engine r names : fst (categoryIdsOfNames engine r names) <> [].
Proof.
  unfold categoryIdsOfNames. destruct r as [e|all]; [done|].
  destruct (namesToIdsLoop engine all names [] []) as [e|[ids missing]]; [done|].
  simpl. by destruct (uniqueInOrder ids).
Qed.

Lemma categoryIdsOfNames_NoDup engine r names : NoDup (fst (categoryIdsOfNames engine r names)).
Proof.
  unfold categoryIdsOfNames. destruct r as [e|all]; [apply NoDup_singleton|].
  destruct (namesToIdsLoop engine all names [] []) as [e|[ids missing]];
    [apply NoDup_singleton|].
  simpl. pose proof (uniqueInOrder_NoDup ids) as H.
  destruct (uniqueInOrder ids); [apply NoDup_singleton|done].
Qed.

Lemma categoryIdsOfNames_at_most_one_notice engine r names :
  length (snd (categoryIdsOfNames engine r names)) <= 1.
Proof.
  unfold categoryIdsOfNames. destruct r as [e|all]; [simpl; lia|].
  destruct (namesToIdsLoop engine all names [] []) as [e|[ids missing]]; [simpl; lia|].
  simpl. destruct missing; simpl; lia.
Qed.

Lemma categoryIdsOfNames_refines engine allCategories ns :
  categoryIdsOfNames engine (inr allCategories) (VStr <$> ns) =
  resolveCategoryIdsFromNames engine allCategories ns.
Proof.
  unfold categoryIdsOfNames, resolveCategoryIdsFromNames.
  rewrite namesToIdsLoop_strings. simpl.
  destruct (List.filter (isUnmatched engine allCategories) ns);
    destruct (uniqueInOrder (resolveName engine allCategories <$> ns)); reflexivity.
Qed.


Lemma nameMatches_iff engine name cat :
  nameMatches engine name cat = true <->
  String_toLowerCase engine (term_name cat) = String_toLowerCase engine name.
Proof. unfold nameMatches. apply String.eqb_eq. Qed.

Lemma convertCategoryNamesToIds_run env names st :
  convertCategoryNamesToIds env names st =
  (Ok (fst (categoryIdsOfNames (engine env) (getCategories env (clock st)) names)),
   fold_left (fun s m => addNotice m s)
     (snd (categoryIdsOfNames (engine env) (getCategories env (clock st)) names)) (tickClock st)).
Proof.
  unfold convertCategoryNamesToIds, mbind, M_bind, ask. simpl.
  rewrite showNotices_run. reflexivity.
Qed.

Lemma String_toLowerCase_ascii engine s :
  isAscii s = true -> String_toLowerCase engine s = toLowerCase s.
Proof. unfold String_toLowerCase. by intros ->. Qed.

(** C7.  [convertCategoryNamesToIds] always returns, with a non-empty list
    of ids without duplicates and at most one notice; when the remote
    listing fails, or a name is not a string while categories exist, the
    result is [[1]] without a notice; on names that are strings it is the
    resolution of the specification: each name matched up to case against
    the whole remote list, [1] for an unmatched name, all unmatched names in
    one warning, first occurrences kept, [[1]] for no name at all.  A name
    matches a category when [String.prototype.toLowerCase] gives the same
    text for both, whatever the engine's lower case of a text beyond ASCII;
    for two texts of ASCII code units this is equality once [A] to [Z] are
    folded. *)
Theorem convertCategoryNamesToIds_resolves :
  (forall env names st,
     exists ids st',
       convertCategoryNamesToIds env names st = (Ok ids, st') /\
       ids = fst (categoryIdsOfNames (engine env) (getCategories env (clock st)) names) /\
       notices st' = notices st ++
                     snd (categoryIdsOfNames (engine env) (getCategories env (clock st)) names) /\
       ids <> [] /\ NoDup ids /\
       length (snd (categoryIdsOfNames (engine env) (getCategories env (clock st)) names)) <= 1) /\
  (forall engine e names, categoryIdsOfNames engine (inl e) names = ([Num 1], [])) /\
  (forall engine cat allCategories names,
     Exists (fun v => isString v = false) names ->
     categoryIdsOfNames engine (inr (cat :: allCategories)) names = ([Num 1], [])) /\
  (forall engine allCategories ns,
     categoryIdsOfNames engine (inr allCategories) (VStr <$> ns) =
     resolveCategoryIdsFromNames engine allCategories ns) /\
  (forall engine allCategories,
     categoryIdsOfNames engine (inr allCategories) [] = ([Num 1], [])) /\
  (forall engine name cat,
     nameMatches engine name cat = true <->
     String_toLowerCase engine (term_name cat) = String_toLowerCase engine name) /\
  (forall engine name cat,
     isAscii name = true -> isAscii (term_name cat) = true ->
     (nameMatches engine name cat = true <->
      toLowerCase (term_name cat) = toLowerCase name)).
Proof.
  split_and!.
  - intros env names st. eexists _, _. split; [apply convertCategoryNamesToIds_run|].
    split_and!.
    + reflexivity.
    + generalize (snd (categoryIdsOfNames (engine env) (getCategories env (clock st)) names)).
      intros msgs. change (notices st) with (notices (tickClock st)).
      generalize (tickClock st). induction msgs as [|m msgs IH]; intros s; simpl.
      * by rewrite app_nil_r.
      * rewrite IH. simpl. by rewrite <- app_assoc.
    + apply categoryIdsOfNames_nonempty.
    + apply categoryIdsOfNames_NoDup.
    + apply categoryIdsOfNames_at_most_one_notice.
  - reflexivity.
  - intros engine cat all names Hex. unfold categoryIdsOfNames.
    destruct (namesToIdsLoop_not_string engine cat all names [] [] Hex) as [e ->]. done.
  - apply categoryIdsOfNames_refines.
  - reflexivity.
  - apply nameMatches_iff.
  - intros engine name cat Hname Hcat. rewrite nameMatches_iff.
    by rewrite !String_toLowerCase_ascii.
Qed.

Lemma convertCategoryNamesToIds_resolves_witness :
  Exists (fun v => isString v = false) [VStr "News"; VNum (Num 4)] /\
  categoryIdsOfNames sampleEngine (inr sampleCategories) [VStr "News"; VNum (Num 4)]
  = ([Num 1], []) /\
  categoryIdsOfNames sampleEngine (inr sampleCategories)
    (VStr <$> ["news"; "Ghost"; "TECH"; "News"])
  = ([Num 3; Num 1; Num 7],
     ["Categories not found: Ghost. Using " +:+ dquote +:+ "Uncategorized" +:+
      dquote +:+ " instead."]) /\
  categoryIdsOfNames sampleEngine
    (inr (sampleCategories ++ [mkTerm "5" (String (ascii_of_nat 201) "cole")]))
    (VStr <$> [String (ascii_of_nat 233) "cole"])
  = ([Num 5], []) /\
  (isAscii "TECH" = true /\ isAscii "Tech" = true /\
   nameMatches sampleEngine "TECH" (mkTerm "7" "Tech") = true).
Proof.
  split; [right; left; reflexivity|]. split_and!.
  - apply (proj1 (proj2 (proj2 convertCategoryNamesToIds_resolves)) sampleEngine
             (mkTerm "1" "Uncategorized") [mkTerm "3" "News"; mkTerm "7" "Tech"]).
    right; left; reflexivity.
  - rewrite (proj1 (proj2 (proj2 (proj2 convertCategoryNamesToIds_resolves)))).
    reflexivity.
  - rewrite (proj1 (proj2 (proj2 (proj2 convertCategoryNamesToIds_resolves)))).
    reflexivity.
  - reflexivity.
  - reflexivity.
  - apply (proj2 (proj2 (proj2 (proj2 (proj2 (proj2
             convertCategoryNamesToIds_resolves))))) sampleEngine "TECH"
             (mkTerm "7" "Tech")); reflexivity.
Defined.

(** ** Front matter merge *)

Lemma prop_lookup (fm : FrontMatter) key v :
  prop fm key = v -> v <> VUndef -> fm !! key = Some v.
Proof.
  unfold prop. destruct (fm !! key) as [w|]; simpl; intros <- H; [done|congruence].
Qed.

Lemma truthy_defined v : truthy v = true -> v <> VUndef.
Proof. by destruct v. Qed.

Lemma mergePostType_other i preserved (fm : FrontMatter) key :
  key <> "wp_ptype" -> mergePostType i preserved fm !! key = fm !! key.
Proof.
  intros Hk. unfold mergePostType.
  destruct (prop preserved "wp_ptype"); try destruct (truthy _);
    by rewrite ?lookup_insert_ne.
Qed.

Lemma mergeCategories_other i preserved (fm : FrontMatter) key :
  key <> "wp_categories" -> mergeCategories i preserved fm !! key = fm !! key.
Proof.
  intros Hk. unfold mergeCategories.
  destruct (categoryNamesForNewPost i), (categoryNamesForExisting i),
    (categoryNamesForUpdate i), (categories (mi_postParams i)),
    (prop preserved "wp_categories"); by rewrite ?lookup_insert_ne.
Qed.

Lemma mergeTags_other i preserved (fm fm' : FrontMatter) key :
  key <> "wp_tags" -> mergeTags i preserved fm = inr fm' -> fm' !! key = fm !! key.
Proof.
  intros Hk. unfold mergeTags.
  destruct (definedWithLength (originalTagNames i)) as [?|[]]; [done| |].
  { intros [= <-]. by rewrite lookup_insert_ne. }
  destruct (definedWithLength (tags (mi_postParams i))) as [?|[]]; [done| |].
  { intros [= <-]. by rewrite lookup_insert_ne. }
  destruct (prop preserved "wp_tags"); intros [= <-]; by rewrite ?lookup_insert_ne.
Qed.

Lemma mergeTitle_other i preserved (fm : FrontMatter) key :
  key <> "wp_title" -> mergeTitle i preserved fm !! key = fm !! key.
Proof.
  intros Hk. unfold mergeTitle.
  destruct (prop preserved "wp_title"); try destruct (_ && _);
    by rewrite ?lookup_insert_ne.
Qed.

Lemma mergeUrl_other i preserved (fm : FrontMatter) key :
  key <> "wp_url" -> mergeUrl i preserved fm !! key = fm !! key.
Proof.
  intros Hk. unfold mergeUrl.
  repeat (destruct (truthy _)); by rewrite ?lookup_insert_ne.
Qed.

Lemma mergeTags_returns i preserved (fm : FrontMatter) :
  originalTagNames i <> VNull -> tags (mi_postParams i) <> VNull ->
  exists fm', mergeTags i preserved fm = inr fm'.
Proof.
  intros Ho Ht. unfold mergeTags.
  destruct (originalTagNames i); try done; simpl; eauto;
    destruct (tags (mi_postParams i)); try done; simpl; eauto;
    destruct (prop preserved "wp_tags"); eauto.
Qed.

(** The policy returns unless a tag list is [null]; both callers pass
    [wp_tags ?? []] and the tags of the request come out of [getTags]. *)
Lemma mergePolicy_returns i fm :
  originalTagNames i <> VNull -> tags (mi_postParams i) <> VNull ->
  exists fm', mergePolicy i fm = inr fm'.
Proof.
  intros Ho Ht. unfold mergePolicy.
  destruct (mergeTags_returns i fm
              (mergeCategories i fm (mergePostType i fm (mergeUrl i fm (mergeProfile i fm))))
              Ho Ht) as [fm' ->]. eauto.
Qed.

Lemma mergePolicy_url i fm fm' :
  mergePolicy i fm = inr fm' ->
  fm' !! "wp_url" = mergeUrl i fm (mergeProfile i fm) !! "wp_url".
Proof.
  unfold mergePolicy.
  destruct (mergeTags i fm _) as [e|fm1] eqn:Ht; [done|]. intros [= <-].
  rewrite mergeTitle_other by done.
  rewrite (mergeTags_other i fm _ fm1 "wp_url" ltac:(done) Ht).
  rewrite mergeCategories_other by done. by rewrite mergePostType_other.
Qed.

Lemma mergePolicy_categories i fm fm' :
  mergePolicy i fm = inr fm' ->
  fm' !! "wp_categories" =
  mergeCategories i fm (mergePostType i fm (mergeUrl i fm (mergeProfile i fm)))
    !! "wp_categories".
Proof.
  unfold mergePolicy.
  destruct (mergeTags i fm _) as [e|fm1] eqn:Ht; [done|]. intros [= <-].
  rewrite mergeTitle_other by done.
  by rewrite (mergeTags_other i fm _ fm1 "wp_categories" ltac:(done) Ht).
Qed.

Lemma mergeFrontMatter_no_callback i fm :
  updateMatterData i = None -> mergeFrontMatter i fm = mergePolicy i fm.
Proof.
  intros H. unfold mergeFrontMatter. rewrite H. by destruct (mergePolicy i fm).
Qed.

(** C1.  The merge keeps a present [wp_url]: whatever the remote result, the
    merged block has the URL it had.  Without one, the URL the server
    returned is taken; without that, the URL is the endpoint followed by
    [/?p=] and the new post id; and with neither the field is as it was.
    The caller's own update runs after this policy and is absent on the
    update path. *)
Theorem merge_keeps_remote_url i fm :
  originalTagNames i <> VNull -> tags (mi_postParams i) <> VNull ->
  exists fm',
    mergePolicy i fm = inr fm' /\
    (updateMatterData i = None -> mergeFrontMatter i fm = inr fm') /\
    (truthy (prop fm "wp_url") = true -> fm' !! "wp_url" = fm !! "wp_url") /\
    (truthy (prop fm "wp_url") = false -> truthy (mi_postUrl i) = true ->
     fm' !! "wp_url" = Some (mi_postUrl i)) /\
    (truthy (prop fm "wp_url") = false -> truthy (mi_postUrl i) = false ->
     truthy (mi_postId i) = true ->
     fm' !! "wp_url" =
     Some (VStr (mi_profile_endpoint i +:+ "/?p=" +:+ toStr (mi_postId i)))) /\
    (truthy (prop fm "wp_url") = false -> truthy (mi_postUrl i) = false ->
     truthy (mi_postId i) = false -> fm' !! "wp_url" = fm !! "wp_url").
Proof.
  intros Ho Ht. destruct (mergePolicy_returns i fm Ho Ht) as [fm' Hm].
  exists fm'. split; [done|]. split.
  { intros Hn. by rewrite mergeFrontMatter_no_callback. }
  rewrite (mergePolicy_url _ _ _ Hm). unfold mergeUrl, mergeProfile.
  split_and!.
  - intros Hu. rewrite Hu. cbv iota. rewrite lookup_insert_eq.
    symmetry. apply prop_lookup; [done|]. by apply truthy_defined.
  - intros Hu Hp. rewrite Hu, Hp. cbv iota. by rewrite lookup_insert_eq.
  - intros Hu Hp Hi. rewrite Hu, Hp, Hi. cbv iota. by rewrite lookup_insert_eq.
  - intros Hu Hp Hi. rewrite Hu, Hp, Hi. cbv iota. by rewrite lookup_insert_ne.
Qed.

(** The first revision of the merge took the URL of the remote result
    whenever the result had a post id and a URL, also over a stored one. *)
Lemma Legacy_mergeUrl_takes_result_url i (fm : FrontMatter) :
  truthy (mi_postId i) = true -> truthy (mi_postUrl i) = true ->
  Legacy.mergeUrl i fm fm !! "wp_url" = Some (mi_postUrl i).
Proof.
  intros Hi Hp. unfold Legacy.mergeUrl. rewrite Hi, Hp. cbn [andb]. cbv iota.
  by rewrite lookup_insert_eq.
Qed.

(** C5.  With [[]] as the original tag names the merged block has
    [wp_tags = []], whatever tags the block and the request held. *)
Theorem merge_empty_original_tags_clear i fm :
  originalTagNames i = VArr [] ->
  exists fm',
    mergePolicy i fm = inr fm' /\
    fm' !! "wp_tags" = Some (VArr []) /\
    (updateMatterData i = None -> mergeFrontMatter i fm = inr fm').
Proof.
  intros Ho. unfold mergePolicy, mergeTags. rewrite Ho. simpl.
  eexists. split; [reflexivity|]. split.
  - rewrite mergeTitle_other by done. apply lookup_insert_eq.
  - intros Hn. rewrite mergeFrontMatter_no_callback by done.
    unfold mergePolicy, mergeTags. by rewrite Ho.
Qed.

Lemma names_isNameForm l : isNameForm (names l) = true.
Proof. unfold names. simpl. induction l; simpl; auto. Qed.

Lemma merge_keeps_remote_url_witness :
  originalTagNames sampleMergeInputs <> VNull /\
  tags (mi_postParams sampleMergeInputs) <> VNull /\
  exists fm',
    mergePolicy sampleMergeInputs
      {["wp_url" := VStr "https://example.com/?p=42"]} = inr fm' /\
    fm' !! "wp_url" = Some (VStr "https://example.com/?p=42").
Proof.
  split; [discriminate|]. split; [discriminate|].
  destruct (merge_keeps_remote_url sampleMergeInputs
              {["wp_url" := VStr "https://example.com/?p=42"]})
    as (fm' & Hm & _ & Hkeep & _); [discriminate|discriminate|].
  exists fm'. split; [exact Hm|]. rewrite Hkeep; reflexivity.
Defined.

Lemma merge_empty_original_tags_clear_witness :
  originalTagNames sampleMergeInputs = VArr [] /\
  exists fm',
    mergePolicy sampleMergeInputs {["wp_tags" := VArr [VStr "kept"]]} = inr fm' /\
    fm' !! "wp_tags" = Some (VArr []).
Proof.
  split; [reflexivity|].
  destruct (merge_empty_original_tags_clear sampleMergeInputs
              {["wp_tags" := VArr [VStr "kept"]]} eq_refl) as (fm' & Hm & Ht & _).
  exists fm'. split; [exact Hm|exact Ht].
Defined.

Lemma tryConvertIdsToNames_runs env ids st a st1 :
  getAuth env st = (Ok a, st1) ->
  tryConvertIdsToNames env ids st =
  (Ok (Some (categoryNamesOfIds (engine env) (getCategories env (clock st1)) (Some ids))),
   tickClock st1).
Proof.
  intros H. unfold tryConvertIdsToNames, tryCatch, mbind, M_bind.
  rewrite H. reflexivity.
Qed.

Lemma tryConvertIdsToNames_fails env ids st e st1 :
  getAuth env st = (Throw e, st1) ->
  tryConvertIdsToNames env ids st = (Ok None, st1).
Proof.
  intros H. unfold tryConvertIdsToNames, tryCatch, mbind, M_bind.
  rewrite H. reflexivity.
Qed.

(** ** The stored URL across an attempt *)

Section Steps.

Context (R : State -> State -> Prop) `{!PreOrder R}.

Lemma steps_ret {A} (a : A) : steps R (mret a).
Proof. intros st. simpl. reflexivity. Qed.

Lemma steps_bind {A B} (m : M A) (k : A -> M B) :
  steps R m -> (forall a, steps R (k a)) -> steps R (m ≫= k).
Proof.
  intros Hm Hk st. unfold mbind, M_bind. specialize (Hm st).
  destruct (m st) as [[a|e|] st1]; simpl in *; [|done|done].
  etrans; [exact Hm|apply Hk].
Qed.

Lemma steps_throw {A} e : steps R (@throw A e).
Proof. intros st. simpl. reflexivity. Qed.

Lemma steps_tryCatch {A} (m : M A) h :
  steps R m -> (forall e, steps R (h e)) -> steps R (tryCatch m h).
Proof.
  intros Hm Hh st. unfold tryCatch. specialize (Hm st).
  destruct (m st) as [[a|e|] st1]; simpl in *; [done| |done].
  etrans; [exact Hm|apply Hh].
Qed.

Lemma steps_tryFinally {A} (m : M A) fin :
  steps R m -> (forall st, R st (fin st)) -> steps R (tryFinally m fin).
Proof.
  intros Hm Hf st. unfold tryFinally. specialize (Hm st).
  destruct (m st) as [[a|e|] st1]; simpl in *; [| |done];
    (etrans; [exact Hm|apply Hf]).
Qed.

Lemma steps_getState : steps R getState.
Proof. intros st. simpl. reflexivity. Qed.

Lemma steps_modify f : (forall st, R st (f st)) -> steps R (modify f).
Proof. intros H st. apply H. Qed.

Lemma steps_pending {A} : steps R (fun st => (@Pending A, st)).
Proof. intros st. simpl. reflexivity. Qed.

End Steps.

Global Instance frontMatterKept_preorder : PreOrder frontMatterKept.
Proof.
  split; [by intros st|]. intros a b c Hab Hbc. unfold frontMatterKept in *. congruence.
Qed.

Global Instance urlKept_preorder : PreOrder urlKept.
Proof.
  split; [by intros st _|]. intros a b c Hab Hbc Ha. unfold urlKept in *.
  rewrite <- (Hab Ha). apply Hbc. unfold prop in *. by rewrite (Hab Ha).
Qed.

Lemma steps_weaken {A} (R R' : State -> State -> Prop) (m : M A) :
  (forall st st', R st st' -> R' st st') -> steps R m -> steps R' m.
Proof. intros H Hm st. apply H, Hm. Qed.

Lemma frontMatterKept_urlKept st st' : frontMatterKept st st' -> urlKept st st'.
Proof. intros H _. by rewrite H. Qed.

Lemma steps_Notice msg : steps frontMatterKept (Notice msg).
Proof. by intros st. Qed.

Lemma steps_ask {A} (answer : nat -> A) : steps frontMatterKept (ask answer).
Proof. by intros st. Qed.

Create HintDb steps.

#[export] Hint Resolve steps_Notice steps_ask : steps.

Ltac steps_tac :=
  repeat first
    [ solve [auto 1 with steps nocore]
    | apply steps_ret; apply _ | apply steps_throw; apply _
    | apply steps_getState; apply _
    | apply steps_pending; apply _
    | apply steps_bind; [apply _| |intros ?]
    | apply steps_tryCatch; [apply _| |intros ?]
    | apply steps_modify; by intros ?
    | match goal with
      | |- steps _ (match ?x with _ => _ end) => destruct x
      | |- steps _ (let _ := _ in _) => cbv zeta
      end ].

Section Frames.

Context (env : Env).

Lemma steps_await {A} (answer : nat -> exn + A) : steps frontMatterKept (await answer).
Proof. unfold await. steps_tac. Qed.

Lemma steps_showError {A} e : steps frontMatterKept (@showError A e).
Proof. unfold showError. steps_tac. Qed.

Lemma steps_processFile : steps frontMatterKept processFile.
Proof. unfold processFile. steps_tac. Qed.

Hint Resolve steps_await steps_showError steps_processFile : steps.

Lemma steps_getAuth : steps frontMatterKept (getAuth env).
Proof. unfold getAuth. steps_tac. Qed.

Lemma steps_showNotices msgs : steps frontMatterKept (showNotices msgs).
Proof. induction msgs; simpl; steps_tac. Qed.

Hint Resolve steps_getAuth steps_showNotices : steps.

Lemma steps_convertCategoryNamesToIds names :
  steps frontMatterKept (convertCategoryNamesToIds env names).
Proof. unfold convertCategoryNamesToIds. steps_tac. Qed.

Lemma steps_convertCategoryIdsToNames ids :
  steps frontMatterKept (convertCategoryIdsToNames env ids).
Proof. unfold convertCategoryIdsToNames. steps_tac. Qed.

Lemma steps_extractPostIdFromUrl url :
  steps frontMatterKept (extractPostIdFromUrl env url).
Proof. unfold extractPostIdFromUrl, getPostIdBySlug. steps_tac. Qed.

Lemma steps_checkExistingProfile m :
  steps frontMatterKept (checkExistingProfile env m).
Proof. unfold checkExistingProfile. steps_tac. Qed.

Hint Resolve steps_convertCategoryNamesToIds steps_convertCategoryIdsToNames
  steps_extractPostIdFromUrl steps_checkExistingProfile : steps.

Lemma steps_selectedCategoryIds m :
  steps frontMatterKept (selectedCategoryIds env m).
Proof. unfold selectedCategoryIds. steps_tac. Qed.

Lemma steps_readFromFrontMatter t m p :
  steps frontMatterKept (readFromFrontMatter env t m p).
Proof.
  unfold readFromFrontMatter, readHeaderFromFrontMatter, categoriesFromFrontMatter.
  steps_tac.
Qed.

Lemma steps_getTags tags : steps frontMatterKept (getTags env tags).
Proof. unfold getTags. steps_tac. Qed.

Lemma steps_relayImages images p : steps frontMatterKept (relayImages env images p).
Proof.
  revert p. induction images as [|img rest IH]; intros p; simpl; steps_tac.
Qed.

Hint Resolve steps_selectedCategoryIds steps_readFromFrontMatter steps_getTags
  steps_relayImages : steps.

Lemma steps_updatePostImages p : steps frontMatterKept (updatePostImages env p).
Proof. unfold updatePostImages. steps_tac. Qed.

Lemma steps_tryConvertIdsToNames ids :
  steps frontMatterKept (tryConvertIdsToNames env ids).
Proof. unfold tryConvertIdsToNames. steps_tac. Qed.

Lemma steps_rememberCategories data :
  steps frontMatterKept (rememberCategories env data).
Proof. unfold rememberCategories. steps_tac. Qed.

End Frames.

#[export] Hint Resolve steps_await steps_showError steps_processFile steps_getAuth
  steps_showNotices steps_convertCategoryNamesToIds steps_convertCategoryIdsToNames
  steps_extractPostIdFromUrl steps_checkExistingProfile steps_selectedCategoryIds
  steps_readFromFrontMatter steps_getTags steps_relayImages steps_updatePostImages
  steps_tryConvertIdsToNames steps_rememberCategories : steps.

Lemma steps_urlKept_of_kept {A} (m : M A) : steps frontMatterKept m -> steps urlKept m.
Proof. apply steps_weaken, frontMatterKept_urlKept. Qed.

Lemma mergePolicy_url_kept i fm fm' :
  mergePolicy i fm = inr fm' -> truthy (prop fm "wp_url") = true ->
  fm' !! "wp_url" = fm !! "wp_url".
Proof.
  intros Hm Hu. rewrite (mergePolicy_url _ _ _ Hm). unfold mergeUrl, mergeProfile.
  rewrite Hu. cbv iota. rewrite lookup_insert_eq.
  symmetry. apply prop_lookup; [done|]. by apply truthy_defined.
Qed.

Lemma mergeFrontMatter_url_kept i fm fm' :
  (forall u, updateMatterData i = Some u -> keepsUrl u) ->
  mergeFrontMatter i fm = inr fm' -> truthy (prop fm "wp_url") = true ->
  fm' !! "wp_url" = fm !! "wp_url".
Proof.
  intros Hcb. unfold mergeFrontMatter.
  destruct (mergePolicy i fm) as [e|fm1] eqn:Hm; [done|].
  destruct (updateMatterData i) as [u|] eqn:Hu.
  - intros Hup Ht. rewrite (Hcb u eq_refl _ _ Hup). by apply (mergePolicy_url_kept i).
  - intros [= <-] Ht. by apply (mergePolicy_url_kept i).
Qed.

Lemma steps_processFrontMatter_merge i :
  (forall u, updateMatterData i = Some u -> keepsUrl u) ->
  steps urlKept (processFrontMatter (mergeFrontMatter i)).
Proof.
  intros Hcb st Ht. unfold processFrontMatter, mbind, M_bind, getState.
  destruct (mergeFrontMatter i (fileFrontMatter st)) as [e|fm'] eqn:Hm; [done|].
  simpl. by apply (mergeFrontMatter_url_kept i).
Qed.

Ltac steps_url_tac known :=
  repeat first
    [ solve [known]
    | solve [apply steps_urlKept_of_kept; auto 1 with steps nocore]
    | solve [auto 1 with steps nocore]
    | apply steps_ret; apply _ | apply steps_throw; apply _
    | apply steps_getState; apply _
    | apply steps_pending; apply _
    | apply steps_bind; [apply _| |intros ?]
    | apply steps_tryCatch; [apply _| |intros ?]
    | apply steps_modify; by intros ? ?
    | match goal with
      | |- steps _ (match ?x with _ => _ end) => destruct x
      | |- steps _ (let _ := _ in _) => cbv zeta
      end ].

Section UrlInvariant.

Context (env : Env).

Lemma steps_tryToPublish p cb o :
  (forall u, cb = Some u -> keepsUrl u) ->
  steps urlKept (tryToPublish env p cb o).
Proof.
  intros Hcb. unfold tryToPublish.
  steps_url_tac ltac:(by apply steps_processFrontMatter_merge).
Qed.

Lemma steps_publishModal noteTitle fileContent matterData submissions :
  Forall (fun sub => forall u, snd sub = Some u -> keepsUrl u) submissions ->
  steps urlKept (publishModal env noteTitle fileContent matterData submissions).
Proof.
  induction 1 as [|[p cb] rest Hcb Hrest IH]; simpl;
    steps_url_tac ltac:(by apply steps_tryToPublish).
Qed.

Lemma steps_publishPost defaultPostParams :
  Forall (fun sub => forall u, snd sub = Some u -> keepsUrl u)
    (publishModalSubmissions env) ->
  steps urlKept (publishPost env defaultPostParams).
Proof.
  intros Hsubs. unfold publishPost.
  apply steps_tryFinally; [apply _| |by intros st ?].
  apply steps_tryCatch; [apply _| |intros e; steps_url_tac fail].
  unfold publishPostBody.
  steps_url_tac ltac:(first [by apply steps_tryToPublish | by apply steps_publishModal]).
Qed.

End UrlInvariant.

(** X23.  Whatever an attempt does, and however it ends, the URL stored in the
    note is the one that was there, provided the updates that the publish modal
    hands over leave the URL alone. *)
Lemma publishPost_keeps_stored_url env defaultPostParams st :
  Forall (fun sub => forall u, snd sub = Some u -> keepsUrl u)
    (publishModalSubmissions env) ->
  truthy (prop (fileFrontMatter st) "wp_url") = true ->
  fileFrontMatter (snd (publishPost env defaultPostParams st)) !! "wp_url"
  = fileFrontMatter st !! "wp_url".
Proof. intros Hsubs. apply (steps_publishPost env defaultPostParams Hsubs st). Qed.

(** ** The publish lock *)

(** C2.  An attempt that finds the flag raised returns at once with the
    "already in progress" error and leaves the front matter alone; its
    [finally] clause nevertheless lowers the flag that the attempt in flight
    had raised. *)
Theorem publishPost_while_in_progress env defaultPostParams st :
  publishInProgress st = true ->
  publishPost env defaultPostParams st =
    (Ok (ResError (OtherErrorCode "Error") publishInProgressMessage),
     setInProgress false (addNotice publishInProgressMessage st)) /\
  fileFrontMatter (snd (publishPost env defaultPostParams st)) = fileFrontMatter st /\
  published (snd (publishPost env defaultPostParams st)) = published st /\
  publishInProgress (snd (publishPost env defaultPostParams st)) = false.
Proof.
  intros H.
  assert (publishPost env defaultPostParams st =
          (Ok (ResError (OtherErrorCode "Error") publishInProgressMessage),
           setInProgress false (addNotice publishInProgressMessage st))) as ->.
  { unfold publishPost, tryFinally, tryCatch, publishPostBody, mbind, M_bind,
      getState. rewrite H. reflexivity. }
  done.
Qed.

Lemma publishPost_while_in_progress_witness :
  publishInProgress
    (sampleState true {["wp_url" := VStr "https://example.com/?p=42"]} "body") = true /\
  publishInProgress
    (snd (publishPost sampleEnv None
            (sampleState true {["wp_url" := VStr "https://example.com/?p=42"]} "body")))
  = false.
Proof.
  split; [reflexivity|].
  exact (proj2 (proj2 (proj2
    (publishPost_while_in_progress sampleEnv None
       (sampleState true {["wp_url" := VStr "https://example.com/?p=42"]} "body")
       eq_refl)))).
Defined.

(** X19.  Whenever [publishPost] returns or throws, the flag is down. *)
Lemma publishPost_releases_lock env defaultPostParams st r st' :
  publishPost env defaultPostParams st = (r, st') ->
  r <> Pending -> publishInProgress st' = false.
Proof.
  unfold publishPost, tryFinally.
  destruct (tryCatch _ _ st) as [[a|e|] st1]; intros [= <- <-]; done.
Qed.

(** After the refused attempt a further one is let in although the first
    is still in flight: it goes all the way to the remote call. *)
Lemma publishPost_after_refusal_enters :
  published
    (snd (publishPost sampleEnv None
            (snd (publishPost sampleEnv None
                    (sampleState true
                       {["wp_url" := VStr "https://example.com/?p=42"]} "body")))))
  <> [].
Proof. vm_compute. discriminate. Qed.

(** ** Create or update *)

Lemma extractPostIdFromUrl_returns env url st :
  exists r st', extractPostIdFromUrl env url st = (Ok r, st').
Proof.
  unfold extractPostIdFromUrl.
  destruct (newURL env (toStr url)) as [u|]; [|by eexists _, _].
  assert (exists r st',
            match last (List.filter nonEmpty (splitOn "/" (pathname u))) with
            | Some slug =>
                if nonEmpty (stripPageExtension slug)
                then getPostIdBySlug env (stripPageExtension slug)
                else mret None
            | None => mret None
            end st = (Ok r, st')) as Hslug.
  { destruct (last _) as [slug|]; [|by eexists _, _].
    destruct (nonEmpty _); [|by eexists _, _].
    unfold getPostIdBySlug, mbind, M_bind, ask.
    destruct (getPostsBySlug env (clock st) _) as [e|[|id l]]; by eexists _, _. }
  destruct (searchParam_p u) as [[|c rest]|]; try exact Hslug. by eexists _, _.
Qed.

(** The header of the request always comes back; categories and tags are
    those of the parameters given, and the post id is given by the stored
    URL only when an id can be drawn from it. *)
Lemma readHeaderFromFrontMatter_returns env noteTitle matterData params st :
  exists header st',
    readHeaderFromFrontMatter env noteTitle matterData params st = (Ok header, st') /\
    categories header = categories params /\
    tags header = tags params /\
    postType header = match prop matterData "wp_ptype" with
                      | VUndef => VStr PostTypeConst_Post
                      | wp_ptype => wp_ptype
                      end /\
    (truthy (prop matterData "wp_url") = false ->
     postId header = postId params /\ st' = st) /\
    (truthy (prop matterData "wp_url") = true ->
     exists r, extractPostIdFromUrl env (prop matterData "wp_url") st = (Ok r, st') /\
               postId header = match truthyId r with
                               | Some z => Some (numberToString z)
                               | None => postId params
                               end).
Proof.
  unfold readHeaderFromFrontMatter, mbind, M_bind.
  destruct (truthy (prop matterData "wp_title")) eqn:Htitle;
  (destruct (truthy (prop matterData "wp_url")) eqn:Hu;
   [ destruct (extractPostIdFromUrl_returns env (prop matterData "wp_url") st)
       as (r & st' & Hr);
     rewrite Hr;
     destruct (truthyId r) as [z|] eqn:Hz;
     destruct (prop matterData "wp_ptype") eqn:Hp;
     (eexists _, _; split; [reflexivity|]; split_and!; try done;
      intros _; exists r; by rewrite Hz)
   | destruct (prop matterData "wp_ptype") eqn:Hp;
     (eexists _, _; split; [reflexivity|]; by split_and!) ]).
Qed.

(** C3.  A note whose stored URL is a permalink is taken as an update (no
    modal is opened), yet no post is found for the slug, the request is
    sent without a post id, and the server answers with a new post. *)
Theorem update_with_permalink_targets_no_post :
  hasExistingPost {["wp_url" := VStr "https://example.com/hello-world/"]} = true /\
  postId <$> published
    (snd (publishPost sampleEnv None
            (sampleState false
               {["wp_url" := VStr "https://example.com/hello-world/"]} "body")))
  = [None] /\
  fst (publishPost sampleEnv None
         (sampleState false
            {["wp_url" := VStr "https://example.com/hello-world/"]} "body"))
  = Ok (ResOK (mkPublishData (VStr "55") VUndef (Some [VNum (Num 1)]))).
Proof. split_and!; vm_compute; reflexivity. Qed.

(** With a [?p=] URL the same attempt does carry the id. *)
Lemma update_with_id_url_targets_post :
  postId <$> published
    (snd (publishPost sampleEnv None
            (sampleState false
               {["wp_url" := VStr "https://example.com/?p=42"]} "body")))
  = [Some "42"].
Proof. vm_compute. reflexivity. Qed.

(** ** Profile switch *)

(** The whole attempt after such a switch: the modal is opened, the request
    carries no post id, and the server makes post 55. *)
Lemma profile_switch_publishes_new_post :
  postId <$> published
    (snd (publishPost (withSubmissions [(sampleParams, None)] sampleEnv) None
            (sampleState false
               {["wp_profile" := VStr "old";
                 "wp_url" := VStr "https://example.com/?p=42"]} "body")))
  = [None] /\
  exists categories,
    fst (publishPost (withSubmissions [(sampleParams, None)] sampleEnv) None
           (sampleState false
              {["wp_profile" := VStr "old";
                "wp_url" := VStr "https://example.com/?p=42"]} "body"))
    = Ok (ResOK (mkPublishData (VStr "55") VUndef categories)).
Proof. split; [|eexists]; vm_compute; reflexivity. Qed.

(** ** Categories and tags of the request *)

(** C10.  [readFromFrontMatter] on a post type other than ['post'] returns
    the categories and tags of the parameters it was given; on ['post'] it
    takes the tags of the front matter and, for categories stored as ids,
    those ids. *)
Theorem readFromFrontMatter_applies_terms_to_posts_only :
  (forall env noteTitle matterData params st,
     prop matterData "wp_ptype" <> VUndef ->
     strictEqStr (prop matterData "wp_ptype") PostTypeConst_Post = false ->
     exists postParams st',
       readFromFrontMatter env noteTitle matterData params st = (Ok postParams, st') /\
       postType postParams = prop matterData "wp_ptype" /\
       categories postParams = categories params /\
       tags postParams = tags params) /\
  (forall env noteTitle matterData params st x rest,
     prop matterData "wp_ptype" = VUndef \/
     prop matterData "wp_ptype" = VStr PostTypeConst_Post ->
     prop matterData "wp_categories" = VArr (x :: rest) -> isString x = false ->
     prop matterData "wp_tags" <> VUndef ->
     exists postParams st',
       readFromFrontMatter env noteTitle matterData params st = (Ok postParams, st') /\
       postType postParams = VStr PostTypeConst_Post /\
       categories postParams = x :: rest /\
       tags postParams = prop matterData "wp_tags").
Proof.
  split.
  - intros env noteTitle matterData params st Hdef Hother.
    destruct (readHeaderFromFrontMatter_returns env noteTitle matterData params st)
      as (header & st' & Hr & Hc & Ht & Hp & _).
    exists header, st'. unfold readFromFrontMatter, mbind, M_bind. rewrite Hr.
    assert (postType header = prop matterData "wp_ptype") as Hp'.
    { rewrite Hp. by destruct (prop matterData "wp_ptype"). }
    by rewrite Hp', Hother.
  - intros env noteTitle matterData params st x rest Hpost Hcat Hx Htags.
    destruct (readHeaderFromFrontMatter_returns env noteTitle matterData params st)
      as (header & st' & Hr & Hc & Ht & Hp & _).
    assert (postType header = VStr PostTypeConst_Post) as Hp'.
    { rewrite Hp. by destruct Hpost as [-> | ->]. }
    unfold readFromFrontMatter, mbind, M_bind. rewrite Hr, Hp', Hcat.
    unfold categoriesFromFrontMatter. cbn [strictEqStr String.eqb PostTypeConst_Post].
    simpl. destruct x; try discriminate Hx; simpl.
    all: destruct (prop matterData "wp_tags") eqn:Hw; try done.
    all: eexists _, _; (split; [reflexivity|]); simpl; by rewrite ?Hp'.
Qed.

Lemma readFromFrontMatter_applies_terms_to_posts_only_witness :
  prop ({["wp_ptype" := VStr "page"; "wp_categories" := VArr [VNum (Num 7)];
          "wp_tags" := VArr [VStr "new"]]} : FrontMatter) "wp_ptype" <> VUndef /\
  strictEqStr
    (prop ({["wp_ptype" := VStr "page"; "wp_categories" := VArr [VNum (Num 7)];
             "wp_tags" := VArr [VStr "new"]]} : FrontMatter) "wp_ptype")
    PostTypeConst_Post = false /\
  exists postParams st',
    readFromFrontMatter sampleEnv "note"
      {["wp_ptype" := VStr "page"; "wp_categories" := VArr [VNum (Num 7)];
        "wp_tags" := VArr [VStr "new"]]} sampleParams (sampleState false ∅ "body")
    = (Ok postParams, st') /\
    categories postParams = [VNum (Num 5)] /\
    tags postParams = VArr [VStr "old"].
Proof.
  split; [discriminate|]. split; [reflexivity|].
  destruct (proj1 readFromFrontMatter_applies_terms_to_posts_only sampleEnv "note"
              {["wp_ptype" := VStr "page"; "wp_categories" := VArr [VNum (Num 7)];
                "wp_tags" := VArr [VStr "new"]]} sampleParams
              (sampleState false ∅ "body"))
    as (pp & st' & Hr & _ & Hc & Ht); [discriminate|reflexivity|].
  exists pp, st'. split; [exact Hr|]. split; [exact Hc|exact Ht].
Defined.

(** On the update path [publishPost] itself seeds the parameters from the
    front matter, whatever the post type: the request for a page carries
    the stored categories and the ids of the stored tags. *)
Lemma publishPost_seeds_terms_for_any_type :
  (fun p => (postType p, categories p, tags p)) <$> published
    (snd (publishPost sampleEnv None
            (sampleState false
               {["wp_url" := VStr "https://example.com/?p=42";
                 "wp_ptype" := VStr "page";
                 "wp_categories" := VArr [VNum (Num 7)];
                 "wp_tags" := VArr [VStr "new"]]} "body")))
  = [(VStr "page", [VNum (Num 7)], VArr [VStr "9"])].
Proof. vm_compute. reflexivity. Qed.

(** ** Representation detection *)

Lemma convertCategoryNamesToIds_fmap_run env names st :
  (ids ← convertCategoryNamesToIds env names; mret (VNum <$> ids)) st =
  (Ok (VNum <$> fst (categoryIdsOfNames (engine env) (getCategories env (clock st)) names)),
   fold_left (fun s m => addNotice m s)
     (snd (categoryIdsOfNames (engine env) (getCategories env (clock st)) names)) (tickClock st)).
Proof.
  unfold mbind at 1. unfold M_bind. by rewrite convertCategoryNamesToIds_run.
Qed.



(** ** Media relay *)

Lemma append_cons x (a b : string) : String x a +:+ b = String x (a +:+ b).
Proof. reflexivity. Qed.

Lemma append_nil_l (b : string) : "" +:+ b = b.
Proof. reflexivity. Qed.

Lemma append_assoc (a b c : string) : (a +:+ b) +:+ c = a +:+ (b +:+ c).
Proof.
  induction a as [|x a IH]; [done|]. rewrite !append_cons. by f_equal.
Qed.

Lemma append_nil_r (a : string) : a +:+ "" = a.
Proof. induction a as [|x a IH]; [done|]. rewrite append_cons. by f_equal. Qed.

Lemma length_append (a b : string) :
  String.length (a +:+ b) = String.length a + String.length b.
Proof.
  induction a as [|x a IH]; [done|]. rewrite append_cons. simpl. by f_equal.
Qed.

Lemma substring_all (a : string) : String.substring 0 (String.length a) a = a.
Proof. induction a as [|x a IH]; simpl; [done|by f_equal]. Qed.

Lemma substring_prefix (a b : string) :
  String.substring 0 (String.length a) (a +:+ b) = a.
Proof.
  induction a as [|x a IH]; [by destruct b|].
  rewrite append_cons. simpl. by f_equal.
Qed.

Lemma substring_suffix (a b : string) :
  String.substring (String.length a) (String.length b) (a +:+ b) = b.
Proof.
  induction a as [|x a IH]; [apply substring_all|]. by rewrite append_cons.
Qed.

Lemma consumed_app (a b : string) : consumed (a +:+ b) b = a.
Proof.
  unfold consumed. rewrite length_append.
  replace (String.length a + String.length b - String.length b)
    with (String.length a) by lia.
  apply substring_prefix.
Qed.

Lemma allChars_app P a b : allChars P (a +:+ b) = allChars P a && allChars P b.
Proof.
  induction a as [|x a IH]; [done|]. rewrite append_cons. simpl.
  by rewrite IH, andb_assoc.
Qed.

Lemma isSuffix_refl s : isSuffix s s.
Proof. by exists "". Qed.

Lemma isSuffix_trans a b c : isSuffix a b -> isSuffix b c -> isSuffix a c.
Proof. intros [p ->] [q ->]. exists (q +:+ p). by rewrite append_assoc. Qed.

Lemma isSuffix_tail c s : isSuffix s (String c s).
Proof. by exists (String c ""). Qed.

Lemma isSuffix_length s' s : isSuffix s' s -> String.length s' <= String.length s.
Proof. intros [p ->]. rewrite length_append. lia. Qed.

Lemma lazyStar_none {A} (m : string -> captures -> (string -> captures -> option A) -> option A)
    (k : string -> captures -> option A) s0 :
  (forall s c k', isSuffix s s0 ->
     (forall s' c', isSuffix s' s -> k' s' c' = None) -> m s c k' = None) ->
  (forall s' c', isSuffix s' s0 -> k s' c' = None) ->
  forall n s c, isSuffix s s0 -> lazyStar m k n s c = None.
Proof.
  intros Hm Hk. induction n as [|n IH]; intros s c Hs; simpl; rewrite (Hk s c Hs); [done|].
  apply Hm; [done|]. intros s' c' Hs'.
  destruct (_ <? _)%nat; [|done]. apply IH. by eapply isSuffix_trans.
Qed.

Lemma greedyStar_none {A} (m : string -> captures -> (string -> captures -> option A) -> option A)
    (k : string -> captures -> option A) s0 :
  (forall s c k', isSuffix s s0 ->
     (forall s' c', isSuffix s' s -> k' s' c' = None) -> m s c k' = None) ->
  (forall s' c', isSuffix s' s0 -> k s' c' = None) ->
  forall n s c, isSuffix s s0 -> greedyStar m k n s c = None.
Proof.
  intros Hm Hk. induction n as [|n IH]; intros s c Hs; simpl; [by apply Hk|].
  rewrite Hm; [by apply Hk|done|]. intros s' c' Hs'.
  destruct (_ <? _)%nat; [|done]. apply IH. by eapply isSuffix_trans.
Qed.

(** The continuation of a match is only ever given a suffix of the input:
    when it fails on every suffix, the match fails. *)
Lemma rmatch_none {A} (r : regex) :
  forall s c (k : string -> captures -> option A),
    (forall s' c', isSuffix s' s -> k s' c' = None) -> rmatch r s c k = None.
Proof.
  induction r as [a| | |r1 IH1 r2 IH2|r1 IH1|r1 IH1|r1 IH1|n r1 IH1];
    intros s c k Hk; simpl.
  - destruct s as [|b rest]; [done|]. destruct (Ascii.eqb a b); [|done].
    apply Hk, isSuffix_tail.
  - destruct s as [|b rest]; [done|]. destruct (isLineTerminator b); [done|].
    apply Hk, isSuffix_tail.
  - destruct s as [|b rest]; [done|]. destruct (isDigit b); [|done].
    apply Hk, isSuffix_tail.
  - apply IH1. intros s' c' Hs'. apply IH2. intros s'' c'' Hs''.
    apply Hk. by eapply isSuffix_trans.
  - rewrite IH1 by done. apply Hk, isSuffix_refl.
  - apply (lazyStar_none (rmatch r1) k s); [|done|apply isSuffix_refl].
    intros s1 c1 k' _ Hk'. by apply IH1.
  - apply IH1. intros s' c' Hs'.
    apply (greedyStar_none (rmatch r1) k s); [|done|done].
    intros s1 c1 k' _ Hk'. by apply IH1.
  - apply IH1. intros s' c' Hs'. by apply Hk.
Qed.

Lemma allChars_suffix P s' s : isSuffix s' s -> allChars P s = true -> allChars P s' = true.
Proof. intros [p ->]. rewrite allChars_app. by intros [_ ?]%andb_prop. Qed.

Lemma rmatch_seq_none {A} r1 r2 s c (k : string -> captures -> option A) :
  (forall s' c', isSuffix s' s -> rmatch r2 s' c' k = None) ->
  rmatch (RSeq r1 r2) s c k = None.
Proof. intros H. simpl. by apply rmatch_none. Qed.

Lemma rmatch_char_none {A} a s c (k : string -> captures -> option A) :
  allChars (isNot a) s = true -> rmatch (RChar a) s c k = None.
Proof.
  destruct s as [|b rest]; [done|]. simpl. unfold isNot.
  by destruct (Ascii.eqb a b).
Qed.

Lemma rmatch_seq_char_none {A} a r s c (k : string -> captures -> option A) :
  allChars (isNot a) s = true -> rmatch (RSeq (RChar a) r) s c k = None.
Proof.
  destruct s as [|b rest]; [done|]. simpl. unfold isNot.
  by destruct (Ascii.eqb a b).
Qed.

Lemma rmatch_group {A} n r s c (k : string -> captures -> option A) :
  rmatch (RGroup n r) s c k =
  rmatch r s c (fun s' c' => k s' ((n, consumed s s') :: c')).
Proof. reflexivity. Qed.

Lemma rmatch_seq {A} r1 r2 s c (k : string -> captures -> option A) :
  rmatch (RSeq r1 r2) s c k = rmatch r1 s c (fun s' c' => rmatch r2 s' c' k).
Proof. reflexivity. Qed.

(** Without an opening parenthesis in the text there is no inline image. *)
Lemma inlineImagePattern_none {A} s c (k : string -> captures -> option A) :
  allChars (isNot "(") s = true -> rmatch inlineImagePattern s c k = None.
Proof.
  intros Hs. unfold inlineImagePattern. rewrite rmatch_group.
  do 5 (apply rmatch_seq_none; intros ? ? ?).
  apply rmatch_seq_char_none. eapply allChars_suffix; [|exact Hs].
  repeat (eapply isSuffix_trans; [eassumption|]). apply isSuffix_refl.
Qed.

Lemma execFrom_none r s pos :
  (forall s' p, isSuffix s' s ->
     rmatch r s' [] (fun s'' c => Some (mkMatch p s'' c)) = None) ->
  execFrom r s pos = None.
Proof.
  revert pos. induction s as [|b rest IH]; intros pos H; simpl.
  - by rewrite (H "" pos (isSuffix_refl _)).
  - rewrite (H (String b rest) pos (isSuffix_refl _)). apply IH.
    intros s' p Hs'. apply H. eapply isSuffix_trans; [exact Hs'|apply isSuffix_tail].
Qed.

Lemma execAll_none r s pos fuel :
  (forall s' p, isSuffix s' s ->
     rmatch r s' [] (fun s'' c => Some (mkMatch p s'' c)) = None) ->
  execAll fuel r s pos = [].
Proof. intros H. destruct fuel; [done|]. simpl. by rewrite execFrom_none. Qed.

Lemma embedImagePattern_startsWithBang : startsWithBang embedImagePattern.
Proof.
  intros A b rest c k Hb. unfold embedImagePattern.
  rewrite rmatch_group, rmatch_seq. cbn [rmatch]. by rewrite Hb.
Qed.

Lemma execFrom_skip r pre t pos :
  startsWithBang r -> allChars (isNot "!") pre = true ->
  execFrom r (pre +:+ t) pos = execFrom r t (pos + String.length pre).
Proof.
  intros Hr. revert pos. induction pre as [|b pre IH]; intros pos Hpre.
  - rewrite append_nil_l. f_equal. simpl. lia.
  - rewrite append_cons. simpl in Hpre. apply andb_prop in Hpre as [Hb Hpre].
    cbn [execFrom]. rewrite Hr; [|unfold isNot in Hb; by destruct (Ascii.eqb "!" b)].
    rewrite IH by done. f_equal. simpl. lia.
Qed.

Lemma execFrom_no_bang r s pos :
  startsWithBang r ->
  (forall p, rmatch r "" [] (fun s'' c => Some (mkMatch p s'' c)) = None) ->
  allChars (isNot "!") s = true -> execFrom r s pos = None.
Proof.
  intros Hr He. revert pos. induction s as [|b rest IH]; intros pos Hs.
  - simpl. by rewrite He.
  - simpl in Hs. apply andb_prop in Hs as [Hb Hs].
    cbn [execFrom]. rewrite Hr; [|unfold isNot in Hb; by destruct (Ascii.eqb "!" b)].
    by apply IH.
Qed.

Lemma rmatch_char_here {A} a rest c (k : string -> captures -> option A) :
  rmatch (RChar a) (String a rest) c k = k rest c.
Proof. simpl. by rewrite Ascii.eqb_refl. Qed.

Lemma rmatch_char_other {A} a b rest c (k : string -> captures -> option A) :
  Ascii.eqb a b = false -> rmatch (RChar a) (String b rest) c k = None.
Proof. intros H. simpl. by rewrite H. Qed.

Lemma rmatch_opt {A} r s c (k : string -> captures -> option A) :
  rmatch (ROpt r) s c k =
  match rmatch r s c k with Some x => Some x | None => k s c end.
Proof. reflexivity. Qed.

Lemma ltb_tail b s : (String.length s <? String.length (String b s))%nat = true.
Proof. apply Nat.ltb_lt. simpl. lia. Qed.

Lemma rmatch_digit_here {A} b rest c (k : string -> captures -> option A) :
  isDigit b = true -> rmatch RDigit (String b rest) c k = k rest c.
Proof. intros H. simpl. by rewrite H. Qed.

Lemma rmatch_digit_none {A} s c (k : string -> captures -> option A) :
  headIsDigit s = false -> rmatch RDigit s c k = None.
Proof. destruct s as [|b rest]; [done|]. simpl. by intros ->. Qed.

Lemma rmatch_dot_here {A} b rest c (k : string -> captures -> option A) :
  isLineTerminator b = false -> rmatch RDot (String b rest) c k = k rest c.
Proof. intros H. simpl. by rewrite H. Qed.

Lemma greedyStar_S {A} m (k : string -> captures -> option A) n s c :
  greedyStar m k (S n) s c =
  match m s c (fun s' c' =>
          if (String.length s' <? String.length s)%nat
          then greedyStar m k n s' c' else None) with
  | Some x => Some x
  | None => k s c
  end.
Proof. reflexivity. Qed.

Lemma lazyStar_S {A} m (k : string -> captures -> option A) n s c :
  lazyStar m k (S n) s c =
  match k s c with
  | Some x => Some x
  | None =>
      m s c (fun s' c' =>
        if (String.length s' <? String.length s)%nat
        then lazyStar m k n s' c' else None)
  end.
Proof. reflexivity. Qed.

Lemma rmatch_plus {A} r s c (k : string -> captures -> option A) :
  rmatch (RPlus r) s c k = rmatch r s c (greedyStar (rmatch r) k (String.length s)).
Proof. reflexivity. Qed.

Lemma rmatch_lazy {A} r s c (k : string -> captures -> option A) :
  rmatch (RLazyStar r) s c k = lazyStar (rmatch r) k (String.length s) s c.
Proof. reflexivity. Qed.

Lemma greedyStar_digits {A} w : forall r c (k : string -> captures -> option A) x n,
  allChars isDigit w = true -> headIsDigit r = false ->
  k r c = Some x -> String.length w <= n ->
  greedyStar (rmatch RDigit) k n (w +:+ r) c = Some x.
Proof.
  induction w as [|d w IH]; intros r c k x n Hw Hr Hk Hn.
  - rewrite append_nil_l. destruct n; [done|].
    by rewrite greedyStar_S, rmatch_digit_none.
  - rewrite append_cons. simpl in Hw. apply andb_prop in Hw as [Hd Hw].
    destruct n as [|n]; [simpl in Hn; lia|].
    rewrite greedyStar_S, rmatch_digit_here, ltb_tail by done.
    rewrite (IH r c k x n); [done|done|done|done|].
    simpl in Hn. lia.
Qed.

Lemma rmatch_group_digits {A} n w r c (k : string -> captures -> option A) x :
  isDigits w = true -> headIsDigit r = false ->
  k r ((n, w) :: c) = Some x ->
  rmatch (RGroup n (RPlus RDigit)) (w +:+ r) c k = Some x.
Proof.
  intros [Hne Hw]%andb_prop Hr Hk. rewrite rmatch_group, rmatch_plus.
  destruct w as [|d w]; [done|]. simpl in Hw. apply andb_prop in Hw as [Hd Hw].
  rewrite append_cons, rmatch_digit_here by done.
  apply greedyStar_digits; [done|done| |].
  - rewrite <- append_cons. by rewrite consumed_app.
  - simpl. rewrite length_append. lia.
Qed.

Lemma sizeAnnotation_match {A} a tail c (k : string -> captures -> option A) x :
  wellFormedSize a = true ->
  k (String "]" tail) (annotationCaptures a ++ c) = Some x ->
  rmatch sizeAnnotation (annotationText a +:+ String "]" tail) c k = Some x.
Proof.
  intros Ha Hk. unfold sizeAnnotation. rewrite rmatch_opt.
  destruct a as [|w|w h]; cbn [annotationText annotationCaptures app] in *.
  - rewrite append_nil_l, rmatch_seq, rmatch_char_other by done. exact Hk.
  - rewrite !append_cons, append_nil_l.
    rewrite rmatch_seq, rmatch_char_here, rmatch_seq.
    rewrite (rmatch_group_digits 3 w (String "]" tail) c _ x); [done|done|done|].
    rewrite rmatch_opt, rmatch_seq, rmatch_char_other by done. exact Hk.
  - apply andb_prop in Ha as [Hw Hh].
    rewrite !append_cons, append_nil_l, !append_assoc, !append_cons, append_nil_l.
    rewrite rmatch_seq, rmatch_char_here, rmatch_seq.
    rewrite (rmatch_group_digits 3 w (String "x" (h +:+ String "]" tail)) c _ x);
      [done|done|done|].
    rewrite rmatch_opt, rmatch_seq, rmatch_char_here.
    by rewrite (rmatch_group_digits 4 h (String "]" tail) _ _ x).
Qed.

Lemma lazyStar_dot {A} src : forall tail c (k : string -> captures -> option A) x n,
  allChars (fun b => negb (isLineTerminator b)) src = true ->
  (forall b, b <> "" -> isSuffix b src -> k (b +:+ tail) c = None) ->
  k tail c = Some x ->
  String.length src <= n ->
  lazyStar (rmatch RDot) k n (src +:+ tail) c = Some x.
Proof.
  induction src as [|a src IH]; intros tail c k x n Hsrc Hfail Hk Hn.
  - rewrite append_nil_l. destruct n; simpl; by rewrite Hk.
  - destruct n as [|n]; [simpl in Hn; lia|].
    simpl in Hsrc. apply andb_prop in Hsrc as [Ha Hsrc].
    rewrite lazyStar_S. rewrite (Hfail (String a src)); [|done|apply isSuffix_refl].
    apply negb_true_iff in Ha.
    rewrite append_cons, rmatch_dot_here, ltb_tail by done.
    apply IH; [done| |done|simpl in Hn; lia].
    intros b Hb Hs. apply Hfail; [done|].
    eapply isSuffix_trans; [exact Hs|apply isSuffix_tail].
Qed.

Lemma isPathChar_suffix_fails {A} b tail c (k : string -> captures -> option A) src :
  allChars isPathChar src = true -> b <> "" -> isSuffix b src ->
  rmatch (RSeq sizeAnnotation (RSeq (RChar "]") (RChar "]"))) (b +:+ tail) c k = None.
Proof.
  intros Hsrc Hb Hs. pose proof (allChars_suffix _ _ _ Hs Hsrc) as Hbs.
  destruct b as [|ch b]; [done|]. simpl in Hbs.
  apply andb_prop in Hbs as [Hch _]. unfold isPathChar, isNot in Hch.
  apply andb_prop in Hch as [[_ Hbar]%andb_prop Hbr].
  apply negb_true_iff in Hbar, Hbr.
  rewrite append_cons, rmatch_seq. unfold sizeAnnotation.
  rewrite rmatch_opt, rmatch_seq, rmatch_char_other by done.
  by rewrite rmatch_seq, rmatch_char_other.
Qed.

Lemma isPathChar_not_terminator src :
  allChars isPathChar src = true ->
  allChars (fun b => negb (isLineTerminator b)) src = true.
Proof.
  induction src as [|b src IH]; [done|]. simpl.
  intros [Hb Hs]%andb_prop. rewrite IH by done.
  unfold isPathChar in Hb. apply andb_prop in Hb as [[-> _]%andb_prop _]. done.
Qed.

(** The embed pattern on an embed: the path, the annotation and the whole
    text are captured, and the rest of the input is what follows it. *)
Lemma embedImagePattern_match {A} src a post c (k : string -> captures -> option A) x :
  allChars isPathChar src = true -> wellFormedSize a = true ->
  k post ((1, embedText src a) :: annotationCaptures a ++ (2, src) :: c) = Some x ->
  rmatch embedImagePattern (embedText src a +:+ post) c k = Some x.
Proof.
  intros Hsrc Ha Hk. unfold embedImagePattern, embedText.
  rewrite rmatch_group.
  rewrite !append_assoc, !append_cons, !append_nil_l.
  rewrite rmatch_seq, rmatch_char_here, rmatch_seq, rmatch_char_here,
    rmatch_seq, rmatch_char_here.
  rewrite rmatch_seq, rmatch_group, rmatch_lazy.
  apply lazyStar_dot.
  - by apply isPathChar_not_terminator.
  - intros b Hb Hs. by apply (isPathChar_suffix_fails b _ _ _ src).
  - cbv beta. rewrite consumed_app, rmatch_seq.
    apply sizeAnnotation_match; [done|].
    rewrite rmatch_seq, !rmatch_char_here.
    replace (String "!" (String "[" (String "["
               (src +:+ annotationText a +:+ String "]" (String "]" post)))))
      with (("![[" +:+ src +:+ annotationText a +:+ "]]") +:+ post).
    + by rewrite consumed_app.
    + by rewrite !append_assoc.
  - rewrite length_append. lia.
Qed.

Lemma embedText_nonempty target a post :
  exists n, String.length (embedText target a +:+ post) = S n.
Proof. unfold embedText. rewrite !append_cons. simpl. eauto. Qed.

Lemma capture_2 a src :
  capture 2 (annotationCaptures a ++ [(2, src)]) = Some src.
Proof. by destruct a. Qed.

Section EmbedAlone.

Context (isValidUrl : string -> bool).

(** The images of a text that holds one embed, no other exclamation mark
    and no opening parenthesis. *)
Lemma getImages_embed_alone pre src a post :
  allChars (isNot "!") pre = true -> allChars (isNot "!") post = true ->
  allChars (isNot "(") (pre +:+ embedText src a +:+ post) = true ->
  allChars isPathChar src = true -> wellFormedSize a = true ->
  getImages isValidUrl (pre +:+ embedText src a +:+ post) =
  [mkImage (embedText src a) src None
     (match a with NoSize => None | WidthOnly w | WidthHeight w _ => Some w end)
     (match a with WidthHeight _ h => Some h | _ => None end)
     (isValidUrl src) (String.length pre) (String.length pre + 5)].
Proof.
  intros Hpre Hpost Hparen Hsrc Ha. unfold getImages.
  rewrite execAll_none.
  2:{ intros s' p Hs'. apply inlineImagePattern_none. by eapply allChars_suffix. }
  rewrite length_append.
  destruct (embedText_nonempty src a post) as [n Hn]. rewrite Hn.
  rewrite Nat.add_succ_r. cbn [execAll].
  rewrite execFrom_skip by (done || apply embedImagePattern_startsWithBang).
  assert (execFrom embedImagePattern (embedText src a +:+ post) (0 + String.length pre)
          = Some (mkMatch (0 + String.length pre) post
                    ((1, embedText src a) :: annotationCaptures a ++ [(2, src)]))) as ->.
  { destruct (embedText_nonempty src a post) as [m Hm].
    destruct (embedText src a +:+ post) as [|b rest] eqn:He; [done|].
    cbn [execFrom]. rewrite <- He.
    by rewrite (embedImagePattern_match src a post [] _
                  (mkMatch (0 + String.length pre) post
                     ((1, embedText src a) :: annotationCaptures a ++ [(2, src)]))). }
  cbn [match_rest fmap list_fmap app].
  assert (forall fuel pos, execAll fuel embedImagePattern post pos = []) as ->.
  { intros fuel pos. destruct fuel; [done|]. cbn [execAll].
    by rewrite execFrom_no_bang by (done || apply embedImagePattern_startsWithBang). }
  unfold embedImage, group. cbn [match_captures match_index].
  replace (capture 2 ((1, embedText src a) :: annotationCaptures a ++ [(2, src)]))
    with (Some src) by (by destruct a).
  replace (capture 3 ((1, embedText src a) :: annotationCaptures a ++ [(2, src)]))
    with (match a with NoSize => None | WidthOnly w | WidthHeight w _ => Some w end)
    by (by destruct a).
  replace (capture 4 ((1, embedText src a) :: annotationCaptures a ++ [(2, src)]))
    with (match a with WidthHeight _ h => Some h | _ => None end)
    by (by destruct a).
  reflexivity.
Qed.

End EmbedAlone.

Lemma prefix_cons a s1 b s2 :
  String.prefix (String a s1) (String b s2) =
  if ascii_dec a b then String.prefix s1 s2 else false.
Proof. reflexivity. Qed.

Lemma prefix_app p s : String.prefix p (p +:+ s) = true.
Proof.
  induction p as [|a p IH]; [by destruct s|].
  rewrite append_cons, prefix_cons. by destruct (ascii_dec a a).
Qed.

Lemma splitAtFirst_unfold pattern s :
  splitAtFirst pattern s =
  if String.prefix pattern s
  then Some (EmptyString, String.substring (String.length pattern)
                            (String.length s - String.length pattern) s)
  else match s with
       | EmptyString => None
       | String c rest =>
           match splitAtFirst pattern rest with
           | Some (before, after) => Some (String c before, after)
           | None => None
           end
       end.
Proof. by destruct s. Qed.

(** The first occurrence of a text that begins with an exclamation mark,
    after a text that has none. *)
Lemma splitAtFirst_after_plain pattern pre post :
  allChars (isNot "!") pre = true ->
  splitAtFirst (String "!" pattern) (pre +:+ String "!" pattern +:+ post)
  = Some (pre, post).
Proof.
  induction pre as [|b pre IH]; intros Hpre.
  - rewrite append_nil_l, splitAtFirst_unfold, prefix_app, length_append.
    replace (String.length (String "!" pattern) + String.length post
             - String.length (String "!" pattern)) with (String.length post) by lia.
    by rewrite substring_suffix.
  - simpl in Hpre. apply andb_prop in Hpre as [Hb Hpre].
    rewrite append_cons, splitAtFirst_unfold.
    assert (String.prefix (String "!" pattern)
              (String b (pre +:+ String "!" pattern +:+ post)) = false) as ->.
    { rewrite prefix_cons. destruct (ascii_dec "!" b) as [<-|]; [|done].
      vm_compute in Hb. discriminate Hb. }
    by rewrite IH.
Qed.

Lemma getSubstitution_plain matched before after replacement :
  allChars (isNot "$") replacement = true ->
  getSubstitution matched before after replacement = replacement.
Proof.
  induction replacement as [|c rest IH]; [done|]. simpl allChars.
  intros [Hc Hrest]%andb_prop. unfold isNot in Hc. apply negb_true_iff in Hc.
  cbn [getSubstitution]. rewrite Ascii.eqb_sym, Hc. by rewrite IH.
Qed.

Lemma replace_after_plain pattern pre post replacement :
  allChars (isNot "!") pre = true ->
  allChars (isNot "$") replacement = true ->
  replace (pre +:+ String "!" pattern +:+ post) (String "!" pattern) replacement
  = pre +:+ replacement +:+ post.
Proof.
  intros Hpre Hrep. unfold replace.
  by rewrite splitAtFirst_after_plain, getSubstitution_plain.
Qed.

Lemma isDigit_not_dollar c : isDigit c = true -> isNot "$" c = true.
Proof.
  intros Hc. unfold isNot. destruct (Ascii.eqb "$" c) eqn:He; [|done].
  apply Ascii.eqb_eq in He as <-. discriminate Hc.
Qed.

Lemma isDigits_no_dollar w : isDigits w = true -> allChars (isNot "$") w = true.
Proof.
  intros [_ Hw]%andb_prop. induction w as [|c w IH]; [done|].
  simpl in *. apply andb_prop in Hw as [Hc Hw].
  by rewrite isDigit_not_dollar, IH.
Qed.

Lemma embedText_no_dollar url a :
  allChars (isNot "$") url = true -> wellFormedSize a = true ->
  allChars (isNot "$") (embedText url a) = true.
Proof.
  intros Hu Ha. unfold embedText. rewrite !allChars_app, Hu.
  destruct a as [|w|w h]; cbn [annotationText].
  - done.
  - simpl in Ha. rewrite allChars_app, (isDigits_no_dollar w) by done. done.
  - simpl in Ha. apply andb_prop in Ha as [Hw Hh].
    rewrite !allChars_app, (isDigits_no_dollar w), (isDigits_no_dollar h) by done.
    done.
Qed.

Lemma remoteEmbed_embedText url a original src alt isUrl i j :
  remoteEmbed url
    (mkImage original src alt
       (match a with NoSize => None | WidthOnly w | WidthHeight w _ => Some w end)
       (match a with WidthHeight _ h => Some h | _ => None end) isUrl i j)
  = embedText url a.
Proof.
  unfold remoteEmbed, embedText. destruct a as [|w|w h]; cbn [width height annotationText].
  - by rewrite append_nil_l.
  - by rewrite !append_assoc.
  - by rewrite !append_assoc.
Qed.

(** X15.  An embed that stands alone is relayed as the specification says: when
    the text around it has no exclamation mark and the body no opening
    parenthesis, the path is one the embed pattern reads through, the file
    exists and the upload returns a URL without a dollar sign, the body handed
    to the remote call has the embed of that URL in place of the embed of the
    file, with the size annotation as it was, in each of the three shapes. *)
Theorem updatePostImages_embed_alone env noteTitle pre path a post url decoded
    fileName imgFile postParams st :
  activeFile env = Some noteTitle -> hasActiveEditor env = true ->
  content postParams = pre +:+ embedText path a +:+ post ->
  allChars (isNot "!") pre = true -> allChars (isNot "!") post = true ->
  allChars (isNot "(") (content postParams) = true ->
  allChars isPathChar path = true -> wellFormedSize a = true ->
  isValidUrl env path = false ->
  decodeURI env path = inr decoded ->
  last (splitOn "/" decoded) = Some fileName ->
  getFirstLinkpathDest env decoded fileName = Some imgFile ->
  uploadMedia env (clock st) imgFile = inr (ResOK url) ->
  allChars (isNot "$") url = true ->
  fst (updatePostImages env postParams st)
  = Ok (setContent (pre +:+ embedText url a +:+ post) postParams).
Proof.
  intros Hfile Hed Hc Hpre Hpost Hparen Hsrc Ha Hurl Hdec Hlast Hdest Hup Hdollar.
  unfold updatePostImages. rewrite Hfile, Hed. rewrite Hc in Hparen |- *.
  rewrite getImages_embed_alone by done.
  unfold mbind, M_bind. cbn [relayImages srcIsUrl src original].
  rewrite Hurl, Hdec, Hlast, Hdest.
  unfold await, ask, mbind, M_bind. rewrite Hup. cbn [mret M_ret].
  rewrite remoteEmbed_embedText.
  assert (replace (content postParams) (embedText path a) (embedText url a)
          = pre +:+ embedText url a +:+ post) as ->.
  { rewrite Hc.
    change (embedText path a)
      with (String "!" ("[[" +:+ path +:+ annotationText a +:+ "]]")).
    apply replace_after_plain; [done|]. by apply embedText_no_dollar. }
  by destruct (replaceMediaLinks env).
Qed.

(** C8.  An embed with a size annotation followed on its line by an inline
    image: both files exist and both uploads succeed, yet the relayed body
    holds no embed of the first upload.  The inline pattern matches from the
    [![] of the embed up to the end of the inline image, the replacement of
    that match removes the embed, and the replacement for the embed finds
    nothing to replace. *)
Theorem relay_drops_embed_before_inline_image :
  original <$> getImages (isValidUrl sampleEnv) "![[cat.png|300x200]] ![pic](dog.png)"
  = ["![[cat.png|300x200]] ![pic](dog.png)"; "![[cat.png|300x200]]"] /\
  (forall t, uploadMedia sampleEnv t "cat.png"
             = inr (ResOK "https://cdn.example.com/cat.png")) /\
  fst (updatePostImages sampleEnv
         (setContent "![[cat.png|300x200]] ![pic](dog.png)" sampleParams)
         (sampleState false ∅ "![[cat.png|300x200]] ![pic](dog.png)"))
  = Ok (setContent "![[https://cdn.example.com/dog.png]]" sampleParams).
Proof. split_and!; [vm_compute; reflexivity|reflexivity|vm_compute; reflexivity]. Qed.

(** On its own the embed is relayed as the specification says, in each of
    the three shapes of the annotation. *)
Lemma relay_keeps_size_annotation :
  fst (updatePostImages sampleEnv (setContent "a ![[cat.png|300x200]] b" sampleParams)
         (sampleState false ∅ ""))
  = Ok (setContent "a ![[https://cdn.example.com/cat.png|300x200]] b" sampleParams) /\
  fst (updatePostImages sampleEnv (setContent "a ![[cat.png|300]] b" sampleParams)
         (sampleState false ∅ ""))
  = Ok (setContent "a ![[https://cdn.example.com/cat.png|300]] b" sampleParams) /\
  fst (updatePostImages sampleEnv (setContent "a ![[cat.png]] b" sampleParams)
         (sampleState false ∅ ""))
  = Ok (setContent "a ![[https://cdn.example.com/cat.png]] b" sampleParams).
Proof. split_and!; vm_compute; reflexivity. Qed.

(** The text given to [replace] is a template: a dollar pattern in the URL
    is expanded instead of copied. *)
Lemma replace_expands_dollar_patterns :
  replace "see ![[cat.png]]" "![[cat.png]]" "![[https://cdn.example.com/a$&b.png]]"
  = "see ![[https://cdn.example.com/a![[cat.png]]b.png]]".
Proof. vm_compute. reflexivity. Qed.

(** ** From ids back to names *)

Lemma idsToNamesLoop_omap engine allCategories ids :
  idsToNamesLoop engine allCategories ids =
  omap (fun id => term_name <$> findCategoryById engine allCategories id) ids.
Proof.
  induction ids as [|id ids IH]; [done|]. simpl.
  destruct (findCategoryById engine allCategories id); simpl; by rewrite IH.
Qed.

Lemma findCategoryById_Some engine allCategories id cat :
  findCategoryById engine allCategories id = Some cat ->
  cat ∈ allCategories /\ strictEqNum (parseInt engine (term_id cat)) id = true.
Proof.
  unfold findCategoryById. intros [Hin Heq]%find_some.
  split; [by apply list_elem_of_In|done].
Qed.

Lemma strictEqNum_true n v : strictEqNum n v = true -> n <> NaN /\ v = VNum n.
Proof.
  destruct n as [a|a|]; [| |done]; destruct v as [| | |[b|b|]| |]; try done; simpl.
  - by intros ->%Z.eqb_eq.
  - by intros ->%Bool.eqb_prop.
Qed.

Lemma strictEqNum_refl n : n <> NaN -> strictEqNum n (VNum n) = true.
Proof.
  destruct n as [a|a|]; [| |done]; intros _; simpl.
  - apply Z.eqb_refl.
  - by destruct a.
Qed.

(** Up to [2^53] the number is the integer that the digits spell, whatever
    the engine. *)
Lemma parseInt_safe engine s z :
  parsedInteger s = Some z -> (Z.abs z <= 2 ^ 53)%Z -> parseInt engine s = Num z.
Proof.
  intros Hs Hz. unfold parseInt, numberOfInteger. rewrite Hs.
  by rewrite (proj2 (Z.leb_le _ _) Hz).
Qed.

(** Beyond it two texts can give one number, as [2^53 + 1] and [2^53] do in
    the sample engine; the category found for such an id is then the first
    of the two. *)
Lemma parseInt_beyond_safe_collides :
  parseInt sampleEngine "9007199254740993" = Num (2 ^ 53) /\
  parseInt sampleEngine "9007199254740992" = Num (2 ^ 53) /\
  findCategoryById sampleEngine
    [mkTerm "9007199254740992" "First"; mkTerm "9007199254740993" "Second"]
    (VNum (parseInt sampleEngine "9007199254740993"))
  = Some (mkTerm "9007199254740992" "First").
Proof. split_and!; vm_compute; reflexivity. Qed.

Lemma categoryNamesOfIds_nonempty engine r ids : categoryNamesOfIds engine r ids <> [].
Proof.
  unfold categoryNamesOfIds. destruct r as [e|all]; [done|].
  destruct ids as [items|]; [|done]. by destruct (idsToNamesLoop engine all items).
Qed.

(** X1.  [convertCategoryIdsToNames] always returns a list that is not empty.
    With the remote list at hand the names are those of the categories whose id,
    read as a number, is strictly equal to a given id, in the order of the ids;
    an id without such a category is left out, and so is every id that is not a
    number.  When the listing fails, the ids cannot be iterated, or nothing is
    found, the result is [["Uncategorized"]]. *)
Theorem convertCategoryIdsToNames_resolves :
  (forall env ids st,
     convertCategoryIdsToNames env ids st =
       (Ok (categoryNamesOfIds (engine env) (getCategories env (clock st)) ids), tickClock st) /\
     categoryNamesOfIds (engine env) (getCategories env (clock st)) ids <> []) /\
  (forall engine e ids, categoryNamesOfIds engine (inl e) ids = ["Uncategorized"]) /\
  (forall engine allCategories,
     categoryNamesOfIds engine (inr allCategories) None = ["Uncategorized"]) /\
  (forall engine allCategories ids,
     categoryNamesOfIds engine (inr allCategories) (Some ids) =
     match omap (fun id => term_name <$> findCategoryById engine allCategories id) ids with
     | [] => ["Uncategorized"]
     | found => found
     end) /\
  (forall engine allCategories id cat,
     findCategoryById engine allCategories id = Some cat ->
     cat ∈ allCategories /\
     parseInt engine (term_id cat) <> NaN /\ id = VNum (parseInt engine (term_id cat))) /\
  (forall engine allCategories id,
     isNumber id = false -> findCategoryById engine allCategories id = None).
Proof.
  split_and!.
  - intros env ids st. split; [reflexivity|apply categoryNamesOfIds_nonempty].
  - done.
  - done.
  - intros engine all ids. unfold categoryNamesOfIds. rewrite idsToNamesLoop_omap.
    by destruct (omap _ ids).
  - intros engine all id cat [Hin Heq]%findCategoryById_Some. split; [done|].
    by apply strictEqNum_true.
  - intros engine all id Hid. unfold findCategoryById.
    destruct (List.find _ all) as [cat|] eqn:Hf; [|done].
    apply find_some in Hf as [_ Heq]. apply strictEqNum_true in Heq as [_ ->].
    done.
Qed.

Lemma findCategoryById_found engine allCategories cat :
  NoDup ((fun c => parseInt engine (term_id c)) <$> allCategories) ->
  cat ∈ allCategories -> parseInt engine (term_id cat) <> NaN ->
  findCategoryById engine allCategories (VNum (parseInt engine (term_id cat))) = Some cat.
Proof.
  unfold findCategoryById.
  induction allCategories as [|c all IH]; intros Hnd Hin Hz.
  - by apply elem_of_nil in Hin.
  - rewrite fmap_cons in Hnd. apply NoDup_cons in Hnd as [Hc Hnd]. simpl.
    destruct (strictEqNum (parseInt engine (term_id c))
                (VNum (parseInt engine (term_id cat)))) eqn:Heq.
    + apply strictEqNum_true in Heq as [_ [= Heq]].
      apply elem_of_cons in Hin as [->|Hin]; [done|].
      exfalso. apply Hc. rewrite <- Heq.
      by apply (list_elem_of_fmap_2 (fun c => parseInt engine (term_id c))).
    + apply elem_of_cons in Hin as [->|Hin]; [|by apply IH].
      by rewrite strictEqNum_refl in Heq.
Qed.

(** X2.  Names to ids and back.  When the ids of the remote categories are
    numbers, no two the same, and every stored name matches a category, the
    names that [convertCategoryIdsToNames] gives for the ids that
    [convertCategoryNamesToIds] gave are the remote spellings of the stored
    names, and nothing else. *)
Theorem category_names_survive_ids engine allCategories ns :
  NoDup ((fun c => parseInt engine (term_id c)) <$> allCategories) ->
  Forall (fun c => parseInt engine (term_id c) <> NaN) allCategories ->
  ns <> [] ->
  Forall (fun n => isUnmatched engine allCategories n = false) ns ->
  forall name,
    name ∈ categoryNamesOfIds engine (inr allCategories)
             (Some (VNum <$> fst (categoryIdsOfNames engine (inr allCategories) (VStr <$> ns))))
    <-> exists n, n ∈ ns /\ canonicalName engine allCategories n = Some name.
Proof.
  intros Hnd Hnum Hne Hmatched.
  assert (forall n, n ∈ ns ->
            exists cat z, List.find (nameMatches engine n) allCategories = Some cat /\
                          cat ∈ allCategories /\ parseInt engine (term_id cat) = z /\
                          resolveName engine allCategories n = z /\
                          findCategoryById engine allCategories (VNum z) = Some cat)
    as Hres.
  { intros n Hn. rewrite Forall_forall in Hmatched. specialize (Hmatched n Hn).
    unfold isUnmatched in Hmatched.
    destruct (List.find (nameMatches engine n) allCategories) as [cat|] eqn:Hf; [|done].
    pose proof (find_some _ _ Hf) as [Hin%list_elem_of_In _].
    rewrite Forall_forall in Hnum. specialize (Hnum cat Hin).
    exists cat, (parseInt engine (term_id cat)). split_and!; try done.
    - unfold resolveName. by rewrite Hf.
    - by apply findCategoryById_found. }
  rewrite categoryIdsOfNames_refines. unfold resolveCategoryIdsFromNames. simpl.
  set (ids := uniqueInOrder (resolveName engine allCategories <$> ns)).
  assert (forall id, id ∈ ids <-> exists n, n ∈ ns /\ id = resolveName engine allCategories n)
    as Hids.
  { intros id. unfold ids. rewrite uniqueInOrder_elem, list_elem_of_fmap.
    split; intros (n & H1 & H2); exists n; by split. }
  assert (forall name,
            name ∈ idsToNamesLoop engine allCategories (VNum <$> ids)
            <-> exists n, n ∈ ns /\ canonicalName engine allCategories n = Some name) as Hloop.
  { intros name. rewrite idsToNamesLoop_omap, list_elem_of_omap. split.
    - intros (v & Hv & Hname). apply list_elem_of_fmap in Hv as (id & -> & Hid).
      apply Hids in Hid as (n & Hn & ->).
      destruct (Hres n Hn) as (cat & z & Hf & _ & _ & Hr & Hback).
      exists n. split; [done|]. unfold canonicalName. rewrite Hf.
      rewrite Hr, Hback in Hname. done.
    - intros (n & Hn & Hc).
      destruct (Hres n Hn) as (cat & z & Hf & _ & _ & Hr & Hback).
      exists (VNum z). split.
      + apply list_elem_of_fmap. exists z. split; [done|].
        apply Hids. exists n. by rewrite Hr.
      + rewrite Hback. unfold canonicalName in Hc. by rewrite Hf in Hc. }
  assert (ids <> []) as Hidsne.
  { destruct ns as [|n ns']; [done|].
    intros Hnil. assert (resolveName engine allCategories n ∈ ids) as Hin.
    { apply Hids. exists n. split; [left|done]. }
    rewrite Hnil in Hin. by apply elem_of_nil in Hin. }
  intros name. clearbody ids. destruct ids as [|i0 il]; [done|].
  unfold categoryNamesOfIds.
  destruct (idsToNamesLoop engine allCategories (VNum <$> i0 :: il)) as [|x l] eqn:Hl.
  - exfalso. destruct ns as [|n ns']; [done|].
    destruct (Hres n ltac:(left)) as (cat & z & Hf & _).
    assert (term_name cat ∈ @nil string) as Hin.
    { apply Hloop. exists n. split; [left|]. unfold canonicalName. by rewrite Hf. }
    by apply elem_of_nil in Hin.
  - apply Hloop.
Qed.

Lemma category_names_survive_ids_witness :
  "News" ∈ categoryNamesOfIds sampleEngine (inr sampleCategories)
             (Some (VNum <$> fst (categoryIdsOfNames sampleEngine (inr sampleCategories)
                                    (VStr <$> ["news"; "TECH"])))) /\
  String (ascii_of_nat 201) "cole"
    ∈ categoryNamesOfIds sampleEngine
        (inr [mkTerm "3" "News"; mkTerm "5" (String (ascii_of_nat 201) "cole")])
        (Some (VNum <$> fst (categoryIdsOfNames sampleEngine
                               (inr [mkTerm "3" "News";
                                     mkTerm "5" (String (ascii_of_nat 201) "cole")])
                               (VStr <$> [String (ascii_of_nat 233) "cole"])))).
Proof.
  split.
  - apply (category_names_survive_ids sampleEngine sampleCategories ["news"; "TECH"]).
    + vm_compute.
      repeat constructor; rewrite ?elem_of_cons, ?elem_of_nil; intuition discriminate.
    + repeat constructor; vm_compute; discriminate.
    + discriminate.
    + repeat constructor.
    + exists "news". split; [by left|reflexivity].
  - apply (category_names_survive_ids sampleEngine
             [mkTerm "3" "News"; mkTerm "5" (String (ascii_of_nat 201) "cole")]
             [String (ascii_of_nat 233) "cole"]).
    + vm_compute.
      repeat constructor; rewrite ?elem_of_cons, ?elem_of_nil; intuition discriminate.
    + repeat constructor; vm_compute; discriminate.
    + discriminate.
    + repeat constructor.
    + exists (String (ascii_of_nat 233) "cole"). split; [by left|reflexivity].
Defined.

(** ** Tags, credentials and the post id of a URL *)

Lemma omap_length_all {A B} (f : A -> option B) (l : list A) :
  Forall (fun x => is_Some (f x)) l -> length (omap f l) = length l.
Proof.
  induction 1 as [|x l [y Hy] _ IH]; [done|].
  change (omap f (x :: l)) with (match f x with Some y => y :: omap f l | None => omap f l end).
  rewrite Hy. simpl. by rewrite IH.
Qed.

Lemma omap_length_le {A B} (f : A -> option B) (l : list A) :
  length (omap f l) <= length l.
Proof.
  induction l as [|x l IH]; [done|].
  change (omap f (x :: l)) with (match f x with Some y => y :: omap f l | None => omap f l end).
  destruct (f x); simpl; lia.
Qed.

(** X3.  [getTags] on an array never fails: a name whose [getTag] is rejected is
    left out and the others are kept, in order, so there are at most as many
    terms as names, each of them the answer for one of the names, and as many
    when no call is rejected.  A value that is not an array cannot be mapped and
    throws. *)
Theorem getTags_keeps_fulfilled :
  (forall env items st,
     exists terms,
       getTags env (VArr items) st = (Ok terms, tickClock st) /\
       length terms <= length items /\
       (forall term, term ∈ terms ->
          exists name, name ∈ items /\ getTag env (clock st) name = inr term) /\
       (forall name term, name ∈ items -> getTag env (clock st) name = inr term ->
          term ∈ terms) /\
       (Forall (fun name => exists term, getTag env (clock st) name = inr term) items ->
        length terms = length items)) /\
  (forall env tags st,
     (forall items, tags <> VArr items) ->
     exists message, getTags env tags st = (Throw (JsError message), st)).
Proof.
  split.
  - intros env items st. eexists. split; [reflexivity|]. split_and!.
    + apply omap_length_le.
    + intros term (name & Hname & Hin)%list_elem_of_omap. exists name. split; [done|].
      by destruct (getTag env (clock st) name) as [e|t]; simplify_eq.
    + intros name term Hin Hget. apply list_elem_of_omap. exists name.
      split; [done|]. by rewrite Hget.
    + intros Hall. apply omap_length_all.
      eapply Forall_impl; [exact Hall|]. intros name (term & ->). by eexists.
  - intros env tags st Hnot. destruct tags; try (by eexists).
    by destruct (Hnot items).
Qed.

Lemma getAuth_not_pending env st : fst (getAuth env st) <> Pending.
Proof.
  unfold getAuth, tryCatch, await, ask, showError, Notice, modify, throw, mbind, M_bind,
    mret, M_ret.
  destruct (needLogin env), (nonEmpty (profile_username env)),
    (nonEmpty (profile_password env)); simpl; try done.
  destruct (validateUser env (clock st)) as [e|[b|code msg]]; simpl; try done;
    by destruct (openLoginModal env _).
Qed.

(** X4.  [getAuth].  Without stored credentials, or when no login is needed,
    nothing is validated and no prompt is opened: the credentials are empty and
    the state is as it was.  Stored credentials that the server accepts are
    returned.  Otherwise one error notice is shown and the login prompt decides:
    [getAuth] throws only what the prompt throws, and it always settles. *)
Theorem getAuth_outcomes env st :
  (needLogin env && nonEmpty (profile_username env) && nonEmpty (profile_password env)
     = false ->
   getAuth env st = (Ok (mkAuth None None), st)) /\
  (needLogin env && nonEmpty (profile_username env) && nonEmpty (profile_password env)
     = true ->
   (forall b, validateUser env (clock st) = inr (ResOK b) ->
      getAuth env st =
      (Ok (mkAuth (Some (profile_username env)) (Some (profile_password env))),
       tickClock st)) /\
   ((forall b, validateUser env (clock st) <> inr (ResOK b)) ->
      exists message,
        notices (snd (getAuth env st)) = notices st ++ [message] /\
        fst (getAuth env st) =
        match openLoginModal env (S (clock st)) with
        | inr auth => Ok auth
        | inl e => Throw e
        end)) /\
  fst (getAuth env st) <> Pending.
Proof.
  unfold getAuth, tryCatch, await, ask, showError, Notice, modify, throw, mbind, M_bind,
    mret, M_ret.
  split_and!.
  - destruct (needLogin env), (nonEmpty (profile_username env)),
      (nonEmpty (profile_password env)); done.
  - intros Hc. apply andb_prop in Hc as [[-> ->]%andb_prop ->]. simpl. split.
    + intros b ->. reflexivity.
    + intros Hno.
      destruct (validateUser env (clock st)) as [e|[b|code msg]] eqn:Hv; simpl.
      * by destruct (openLoginModal env _); eexists.
      * by destruct (Hno b).
      * by destruct (openLoginModal env _); eexists.
  - apply getAuth_not_pending.
Qed.

(** X5.  [extractPostIdFromUrl] settles without throwing.  A text that is no URL
    gives no id; a [p] parameter that is not empty is read as a number and no
    post is looked up; a path without a segment gives no id; otherwise the last
    segment, without its page extension, is looked up and the id of the first
    post found is read as a number, a failed or empty lookup giving no id. *)
Theorem extractPostIdFromUrl_outcomes env url st :
  (newURL env (toStr url) = None ->
   extractPostIdFromUrl env url st = (Ok None, st)) /\
  (forall urlObj c rest,
     newURL env (toStr url) = Some urlObj ->
     searchParam_p urlObj = Some (String c rest) ->
     extractPostIdFromUrl env url st = (Ok (Some (parseInt (engine env) (String c rest))), st)) /\
  (forall urlObj,
     newURL env (toStr url) = Some urlObj ->
     searchParam_p urlObj = None \/ searchParam_p urlObj = Some "" ->
     (last (List.filter nonEmpty (splitOn "/" (pathname urlObj))) = None ->
      extractPostIdFromUrl env url st = (Ok None, st)) /\
     (forall slug,
        last (List.filter nonEmpty (splitOn "/" (pathname urlObj))) = Some slug ->
        nonEmpty (stripPageExtension slug) = true ->
        extractPostIdFromUrl env url st =
        (Ok match getPostsBySlug env (clock st) (stripPageExtension slug) with
            | inr (id :: _) => Some (parseInt (engine env) (toStr id))
            | _ => None
            end, tickClock st))) /\
  (exists postId st', extractPostIdFromUrl env url st = (Ok postId, st')).
Proof.
  unfold extractPostIdFromUrl. split_and!.
  - by intros ->.
  - by intros u c rest -> ->.
  - intros u -> Hp. split.
    + intros ->. by destruct Hp as [-> | ->].
    + intros slug -> ->. unfold getPostIdBySlug, ask, mbind, M_bind.
      by destruct Hp as [-> | ->];
        destruct (getPostsBySlug env (clock st) _) as [e|[|id l]].
  - destruct (newURL env (toStr url)) as [u|]; [|by eexists _, _].
    destruct (searchParam_p u) as [[|c rest]|]; try (by eexists _, _);
      (destruct (last _) as [slug|]; [|by eexists _, _];
       destruct (nonEmpty _); [|by eexists _, _];
       unfold getPostIdBySlug, ask, mbind, M_bind;
       by destruct (getPostsBySlug env (clock st) _) as [e|[|id l]]; eexists _, _).
Qed.

(** ** Page extensions *)

Lemma toLowerCase_app a b : toLowerCase (a +:+ b) = toLowerCase a +:+ toLowerCase b.
Proof.
  induction a as [|x a IH]; [done|]. rewrite append_cons. simpl.
  rewrite append_cons. by f_equal.
Qed.

Lemma length_toLowerCase a : String.length (toLowerCase a) = String.length a.
Proof. induction a as [|x a IH]; simpl; [done|by f_equal]. Qed.

Lemma substring_skip a b n k :
  String.substring (String.length a + n) k (a +:+ b) = String.substring n k b.
Proof. induction a as [|x a IH]; [done|]. by rewrite append_cons. Qed.

Lemma endsWith_app_same suffix a b :
  String.length b = String.length suffix ->
  endsWith suffix (a +:+ b) = String.eqb b suffix.
Proof.
  intros Hlen. unfold endsWith. rewrite length_append, Hlen.
  replace (String.length a + String.length suffix - String.length suffix)
    with (String.length a) by lia.
  rewrite <- Hlen, substring_suffix.
  by replace (String.length b <=? String.length a + String.length b)%nat
    with true by (symmetry; apply Nat.leb_le; lia).
Qed.

Lemma substring_split m (s : string) :
  m <= String.length s ->
  String.substring 0 m s +:+ String.substring m (String.length s - m) s = s.
Proof.
  revert m. induction s as [|x s IH]; intros [|m] Hm; simpl in *; try lia.
  - done.
  - rewrite append_nil_l. f_equal. apply substring_all.
  - rewrite append_cons. f_equal. apply IH. lia.
Qed.

Lemma endsWith_true suffix s :
  endsWith suffix s = true -> exists a, s = a +:+ suffix.
Proof.
  unfold endsWith. intros [Hle Heq]%andb_prop.
  apply Nat.leb_le in Hle. apply String.eqb_eq in Heq.
  exists (String.substring 0 (String.length s - String.length suffix) s).
  pose proof (substring_split (String.length s - String.length suffix) s
                ltac:(lia)) as Hs.
  replace (String.length s - (String.length s - String.length suffix))
    with (String.length suffix) in Hs by lia.
  rewrite Heq in Hs. by symmetry.
Qed.

Lemma endsWith_app_shorter suffix a b :
  String.length b < String.length suffix ->
  String.substring (String.length suffix - String.length b) (String.length b) suffix <> b ->
  endsWith suffix (a +:+ b) = false.
Proof.
  intros Hlen Hne. destruct (endsWith suffix (a +:+ b)) eqn:He; [|done].
  apply endsWith_true in He as [a' Heq]. destruct Hne.
  assert (String.length a = String.length a' + (String.length suffix - String.length b))
    as Ha.
  { apply (f_equal String.length) in Heq. rewrite !length_append in Heq. lia. }
  rewrite <- (substring_skip a' suffix), <- Ha, <- Heq. apply substring_suffix.
Qed.

Lemma dropLast_app a b : dropLast (String.length b) (a +:+ b) = a.
Proof.
  unfold dropLast. rewrite length_append.
  replace (String.length a + String.length b - String.length b)
    with (String.length a) by lia.
  apply substring_prefix.
Qed.

(** X6.  [stripPageExtension] removes one final [.html], [.php] or [.htm], in
    any mix of upper and lower case, and nothing more: what stands before the
    extension is the result, also when it ends in an extension itself. *)
Theorem stripPageExtension_strips base ext :
  toLowerCase ext ∈ [".html"; ".php"; ".htm"] ->
  stripPageExtension (base +:+ ext) = base.
Proof.
  intros Hext. unfold stripPageExtension. rewrite toLowerCase_app.
  assert (String.length ext = String.length (toLowerCase ext)) as Hlen
    by (by rewrite length_toLowerCase).
  apply elem_of_cons in Hext as [He|Hext]; [|apply elem_of_cons in Hext as [He|Hext]];
    [| |apply list_elem_of_singleton in Hext as He]; rewrite He in *.
  - rewrite endsWith_app_same by done. simpl.
    change 5 with (String.length ".html"). rewrite <- He, length_toLowerCase.
    apply dropLast_app.
  - rewrite endsWith_app_shorter by (simpl; first [lia|discriminate]).
    rewrite endsWith_app_same by done. simpl.
    change 4 with (String.length ".php"). rewrite <- He, length_toLowerCase.
    apply dropLast_app.
  - rewrite endsWith_app_shorter by (simpl; first [lia|discriminate]).
    rewrite (endsWith_app_same ".php") by done.
    rewrite endsWith_app_same by done. simpl.
    change 4 with (String.length ".htm"). rewrite <- He, length_toLowerCase.
    apply dropLast_app.
Qed.

Lemma stripPageExtension_strips_witness :
  stripPageExtension ("my-post.php" +:+ ".HtMl") = "my-post.php".
Proof. apply stripPageExtension_strips. vm_compute. set_solver. Defined.

(** ** What the merge writes *)

Lemma mergePolicy_inv i fm fm' :
  mergePolicy i fm = inr fm' ->
  exists fm1,
    mergeTags i fm
      (mergeCategories i fm (mergePostType i fm (mergeUrl i fm (mergeProfile i fm))))
    = inr fm1 /\
    fm' = mergeTitle i fm fm1.
Proof.
  unfold mergePolicy. destruct (mergeTags i fm _) as [e|fm1]; [done|].
  intros [= <-]. by exists fm1.
Qed.

Lemma mergeProfile_other i (fm : FrontMatter) key :
  key <> "wp_profile" -> mergeProfile i fm !! key = fm !! key.
Proof. intros Hk. unfold mergeProfile. by rewrite lookup_insert_ne. Qed.

Lemma mergePolicy_other i fm fm' key :
  mergePolicy i fm = inr fm' -> key ∉ preservedKeys -> fm' !! key = fm !! key.
Proof.
  intros (fm1 & Ht & ->)%mergePolicy_inv Hk.
  assert (key <> "wp_url" /\ key <> "wp_profile" /\ key <> "wp_ptype" /\
          key <> "wp_categories" /\ key <> "wp_tags" /\ key <> "wp_title")
    as (? & ? & ? & ? & ? & ?).
  { unfold preservedKeys in Hk. rewrite !not_elem_of_cons in Hk. tauto. }
  rewrite mergeTitle_other by done.
  rewrite (mergeTags_other i fm _ fm1 key) by done.
  rewrite mergeCategories_other, mergePostType_other, mergeUrl_other by done.
  by apply mergeProfile_other.
Qed.

Lemma insert_is_Some (fm : FrontMatter) key v k :
  is_Some (fm !! k) -> is_Some (<[key := v]> fm !! k).
Proof.
  intros H. destruct (decide (key = k)) as [->|Hne].
  - rewrite lookup_insert_eq. by eexists.
  - by rewrite lookup_insert_ne.
Qed.

Lemma mergePolicy_is_Some i fm fm' k :
  mergePolicy i fm = inr fm' -> is_Some (fm !! k) -> is_Some (fm' !! k).
Proof.
  intros (fm1 & Ht & ->)%mergePolicy_inv Hk.
  assert (is_Some (mergeProfile i fm !! k)) as H1 by by apply insert_is_Some.
  assert (is_Some (mergeUrl i fm (mergeProfile i fm) !! k)) as H2.
  { unfold mergeUrl. repeat destruct (truthy _); try done; by apply insert_is_Some. }
  assert (is_Some (mergePostType i fm (mergeUrl i fm (mergeProfile i fm)) !! k)) as H3.
  { unfold mergePostType. destruct (prop fm "wp_ptype"); try destruct (truthy _);
      try done; by apply insert_is_Some. }
  assert (is_Some (mergeCategories i fm
                     (mergePostType i fm (mergeUrl i fm (mergeProfile i fm))) !! k))
    as H4.
  { unfold mergeCategories.
    destruct (categoryNamesForNewPost i), (categoryNamesForExisting i),
      (categoryNamesForUpdate i), (categories (mi_postParams i)),
      (prop fm "wp_categories"); try done; by apply insert_is_Some. }
  assert (is_Some (fm1 !! k)) as H5.
  { revert Ht. unfold mergeTags.
    destruct (definedWithLength (originalTagNames i)) as [?|[]]; [done| |].
    { intros [= <-]. by apply insert_is_Some. }
    destruct (definedWithLength (tags (mi_postParams i))) as [?|[]]; [done| |].
    { intros [= <-]. by apply insert_is_Some. }
    destruct (prop fm "wp_tags"); intros [= <-]; try done; by apply insert_is_Some. }
  unfold mergeTitle. destruct (prop fm "wp_title"); try destruct (_ && _);
    try done; by apply insert_is_Some.
Qed.

Lemma mergePolicy_profile i fm fm' :
  mergePolicy i fm = inr fm' -> fm' !! "wp_profile" = Some (VStr (mi_profile_name i)).
Proof.
  intros (fm1 & Ht & ->)%mergePolicy_inv.
  rewrite mergeTitle_other by done.
  rewrite (mergeTags_other i fm _ fm1 "wp_profile") by done.
  rewrite mergeCategories_other, mergePostType_other, mergeUrl_other by done.
  apply lookup_insert_eq.
Qed.

(** X8.  The built-in merge stamps the note with the name of the active profile,
    leaves every key other than its six [wp_] keys with the value it had, and
    removes no key. *)
Theorem merge_touches_only_wp_keys i fm fm' :
  mergePolicy i fm = inr fm' ->
  fm' !! "wp_profile" = Some (VStr (mi_profile_name i)) /\
  (forall key, key ∉ preservedKeys -> fm' !! key = fm !! key) /\
  (forall key, is_Some (fm !! key) -> is_Some (fm' !! key)).
Proof.
  intros Hm. split_and!.
  - by apply (mergePolicy_profile i fm).
  - intros key. by apply (mergePolicy_other i).
  - intros key. by apply (mergePolicy_is_Some i).
Qed.

Lemma merge_touches_only_wp_keys_witness :
  exists fm',
    mergePolicy sampleMergeInputs {["author" := VStr "me"; "wp_profile" := VStr "old"]}
      = inr fm' /\
    fm' !! "wp_profile" = Some (VStr "blog") /\
    fm' !! "author" = Some (VStr "me").
Proof.
  eexists. split; [reflexivity|].
  eassert (mergePolicy sampleMergeInputs
             {["author" := VStr "me"; "wp_profile" := VStr "old"]} = inr _) as Hm
    by reflexivity.
  destruct (merge_touches_only_wp_keys _ _ _ Hm) as (Hp & Ho & _).
  split; [exact Hp|]. rewrite (Ho "author"); [reflexivity|].
  unfold preservedKeys. rewrite !not_elem_of_cons. split_and!; try discriminate.
  apply not_elem_of_nil.
Defined.

Lemma prop_Some (fm : FrontMatter) key v : fm !! key = Some v -> prop fm key = v.
Proof. unfold prop. by intros ->. Qed.

Lemma prop_None (fm : FrontMatter) key : fm !! key = None -> prop fm key = VUndef.
Proof. unfold prop. by intros ->. Qed.

Lemma mergePolicy_type i fm fm' :
  mergePolicy i fm = inr fm' ->
  fm' !! "wp_ptype" =
  mergePostType i fm (mergeUrl i fm (mergeProfile i fm)) !! "wp_ptype".
Proof.
  intros (fm1 & Ht & ->)%mergePolicy_inv.
  rewrite mergeTitle_other by done.
  rewrite (mergeTags_other i fm _ fm1 "wp_ptype") by done.
  by rewrite mergeCategories_other.
Qed.

(** X9.  A post type and a title that the note holds are never replaced.  A note
    without them takes the post type of the request, and takes the title of the
    request only when that differs from the name of the note. *)
Theorem merge_keeps_stored_type_and_title i fm fm' :
  mergePolicy i fm = inr fm' ->
  (forall v, fm !! "wp_ptype" = Some v -> v <> VUndef -> fm' !! "wp_ptype" = Some v) /\
  (fm !! "wp_ptype" = None ->
   fm' !! "wp_ptype" =
   if truthy (postType (mi_postParams i)) then Some (postType (mi_postParams i))
   else None) /\
  (forall v, fm !! "wp_title" = Some v -> v <> VUndef -> fm' !! "wp_title" = Some v) /\
  (fm !! "wp_title" = None ->
   fm' !! "wp_title" =
   if truthy (title (mi_postParams i)) &&
      negb (strictEqStr (title (mi_postParams i)) (mi_basename i))
   then Some (title (mi_postParams i)) else None).
Proof.
  intros Hm. split_and!.
  - intros v Hv Hd. rewrite (mergePolicy_type _ _ _ Hm). unfold mergePostType.
    rewrite (prop_Some _ _ _ Hv). destruct v; try done; apply lookup_insert_eq.
  - intros Hn. rewrite (mergePolicy_type _ _ _ Hm). unfold mergePostType.
    rewrite (prop_None _ _ Hn).
    destruct (truthy _); [apply lookup_insert_eq|].
    by rewrite mergeUrl_other, mergeProfile_other.
  - intros v Hv Hd. destruct (mergePolicy_inv _ _ _ Hm) as (fm1 & Ht & ->).
    unfold mergeTitle. rewrite (prop_Some _ _ _ Hv).
    destruct v; try done; apply lookup_insert_eq.
  - intros Hn. destruct (mergePolicy_inv _ _ _ Hm) as (fm1 & Ht & ->).
    unfold mergeTitle. rewrite (prop_None _ _ Hn).
    destruct (_ && _); [apply lookup_insert_eq|].
    rewrite (mergeTags_other i fm _ fm1 "wp_title") by done.
    rewrite mergeCategories_other, mergePostType_other, mergeUrl_other by done.
    by rewrite mergeProfile_other.
Qed.

Lemma merge_keeps_stored_type_and_title_witness :
  exists fm',
    mergePolicy sampleMergeInputs {["wp_ptype" := VStr "page"]} = inr fm' /\
    fm' !! "wp_ptype" = Some (VStr "page") /\
    fm' !! "wp_title" = None.
Proof.
  eexists. split; [reflexivity|].
  eassert (mergePolicy sampleMergeInputs {["wp_ptype" := VStr "page"]} = inr _) as Hm
    by reflexivity.
  destruct (merge_keeps_stored_type_and_title _ _ _ Hm) as (Hp & _ & _ & Ht).
  split; [apply Hp; [reflexivity|discriminate]|].
  rewrite Ht; reflexivity.
Defined.

(** X10.  Which tags the merge stores: the original tag names when they are a
    text or a list; or else the tags of the request when those are a text or a
    list; or else what the note held.  The merge throws, and nothing is written,
    exactly when the original tag names are [null], or are neither a text nor a
    list while the tags of the request are [null]. *)
Theorem merge_tags_priority i fm :
  ((exists e, mergePolicy i fm = inl e) <->
   originalTagNames i = VNull \/
   (definedWithLength (originalTagNames i) = inr false /\
    tags (mi_postParams i) = VNull)) /\
  (forall fm', mergePolicy i fm = inr fm' ->
     (definedWithLength (originalTagNames i) = inr true ->
      fm' !! "wp_tags" = Some (originalTagNames i)) /\
     (definedWithLength (originalTagNames i) = inr false ->
      definedWithLength (tags (mi_postParams i)) = inr true ->
      fm' !! "wp_tags" = Some (tags (mi_postParams i))) /\
     (definedWithLength (originalTagNames i) = inr false ->
      definedWithLength (tags (mi_postParams i)) = inr false ->
      fm' !! "wp_tags" = fm !! "wp_tags")).
Proof.
  split.
  - unfold mergePolicy, mergeTags. split.
    + intros [e He]. revert He.
      destruct (originalTagNames i); simpl; try done; auto;
        destruct (tags (mi_postParams i)); simpl; try done; auto;
        by destruct (prop fm "wp_tags").
    + intros [->|[Ho ->]]; [by eexists|].
      destruct (originalTagNames i); simpl in *; try done; by eexists.
  - intros fm' (fm1 & Ht & ->)%mergePolicy_inv.
    unfold mergeTags in Ht. split_and!.
    + intros Ho. rewrite Ho in Ht. injection Ht as <-.
      rewrite mergeTitle_other by done. apply lookup_insert_eq.
    + intros Ho Hp. rewrite Ho, Hp in Ht. injection Ht as <-.
      rewrite mergeTitle_other by done. apply lookup_insert_eq.
    + intros Ho Hp. rewrite Ho, Hp in Ht. rewrite mergeTitle_other by done.
      destruct (prop fm "wp_tags") eqn:Hw; injection Ht as <-;
        rewrite ?lookup_insert_eq; try (symmetry; by apply prop_lookup).
      rewrite mergeCategories_other, mergePostType_other, mergeUrl_other by done.
      by rewrite mergeProfile_other.
Qed.

(** ** Parts of the state that an attempt leaves alone *)

Global Instance kept_preorder {B} (f : State -> B) : PreOrder (kept f).
Proof.
  split; [by intros st|]. intros a b c Hab Hbc. unfold kept in *. congruence.
Qed.

Create HintDb kept.

Ltac kept_tac :=
  repeat first
    [ solve [auto 1 with kept nocore]
    | apply steps_ret; apply _ | apply steps_throw; apply _
    | apply steps_getState; apply _
    | apply steps_pending; apply _
    | apply steps_bind; [apply _| |intros ?]
    | apply steps_tryCatch; [apply _| |intros ?]
    | apply steps_modify; intros ?; unfold kept; solve [auto 1]
    | match goal with
      | |- steps _ (match ?x with _ => _ end) => destruct x
      | |- steps _ (let _ := _ in _) => cbv zeta
      end ].

Section Kept.

Context (env : Env) {B : Type} (f : State -> B).

(** [f] does not look at the notices or at the clock. *)
Hypothesis f_notice : forall msg st, f (addNotice msg st) = f st.
Hypothesis f_tick : forall st, f (tickClock st) = f st.

Lemma kept_Notice msg : steps (kept f) (Notice msg).
Proof. intros st. apply f_notice. Qed.

Lemma kept_ask {A} (answer : nat -> A) : steps (kept f) (ask answer).
Proof. intros st. apply f_tick. Qed.

Hint Resolve kept_Notice kept_ask : kept.

Lemma kept_await {A} (answer : nat -> exn + A) : steps (kept f) (await answer).
Proof. unfold await. kept_tac. Qed.

(** What follows an [await] runs on a fulfilled answer only. *)
Lemma kept_await_bind {A C} (answer : nat -> exn + A) (k : A -> M C) :
  (forall t a, answer t = inr a -> steps (kept f) (k a)) ->
  steps (kept f) (await answer ≫= k).
Proof.
  intros Hk st. unfold await, ask, mbind, M_bind, throw, mret, M_ret.
  destruct (answer (clock st)) as [e|a] eqn:Ha; simpl; [apply f_tick|].
  etrans; [|apply (Hk _ _ Ha)]. apply f_tick.
Qed.

Lemma kept_showError {A} e : steps (kept f) (@showError A e).
Proof. unfold showError. kept_tac. Qed.

Lemma kept_processFile : steps (kept f) processFile.
Proof. unfold processFile. kept_tac. Qed.

Hint Resolve kept_await kept_showError kept_processFile : kept.

Lemma kept_getAuth : steps (kept f) (getAuth env).
Proof. unfold getAuth. kept_tac. Qed.

Lemma kept_showNotices msgs : steps (kept f) (showNotices msgs).
Proof. induction msgs; simpl; kept_tac. Qed.

Hint Resolve kept_getAuth kept_showNotices : kept.

Lemma kept_convertCategoryNamesToIds names :
  steps (kept f) (convertCategoryNamesToIds env names).
Proof. unfold convertCategoryNamesToIds. kept_tac. Qed.

Lemma kept_convertCategoryIdsToNames ids :
  steps (kept f) (convertCategoryIdsToNames env ids).
Proof. unfold convertCategoryIdsToNames. kept_tac. Qed.

Lemma kept_extractPostIdFromUrl url : steps (kept f) (extractPostIdFromUrl env url).
Proof. unfold extractPostIdFromUrl, getPostIdBySlug. kept_tac. Qed.

Lemma kept_checkExistingProfile m : steps (kept f) (checkExistingProfile env m).
Proof. unfold checkExistingProfile. kept_tac. Qed.

Hint Resolve kept_convertCategoryNamesToIds kept_convertCategoryIdsToNames
  kept_extractPostIdFromUrl kept_checkExistingProfile : kept.

Lemma kept_selectedCategoryIds m : steps (kept f) (selectedCategoryIds env m).
Proof. unfold selectedCategoryIds. kept_tac. Qed.

Lemma kept_readFromFrontMatter t m p : steps (kept f) (readFromFrontMatter env t m p).
Proof.
  unfold readFromFrontMatter, readHeaderFromFrontMatter, categoriesFromFrontMatter.
  kept_tac.
Qed.

Lemma kept_getTags tags : steps (kept f) (getTags env tags).
Proof. unfold getTags. kept_tac. Qed.

Lemma kept_relayImages images p : steps (kept f) (relayImages env images p).
Proof.
  revert p. induction images as [|img rest IH]; intros p; simpl; kept_tac.
Qed.

Lemma kept_tryConvertIdsToNames ids : steps (kept f) (tryConvertIdsToNames env ids).
Proof. unfold tryConvertIdsToNames. kept_tac. Qed.

Hint Resolve kept_selectedCategoryIds kept_readFromFrontMatter kept_getTags
  kept_relayImages kept_tryConvertIdsToNames : kept.

(** The editor is written only when media links are to be replaced. *)
Hypothesis f_editor :
  replaceMediaLinks env = false \/ forall v st, f (setEditorValue v st) = f st.

Lemma kept_updatePostImages p : steps (kept f) (updatePostImages env p).
Proof.
  unfold updatePostImages. destruct f_editor as [->|He]; kept_tac.
Qed.

(** The last selection is written only when it is to be remembered. *)
Hypothesis f_selected :
  rememberLastSelectedCategories env = false \/
  forall v st, f (setLastSelected v st) = f st.

Lemma kept_remember (b : bool) data :
  steps (kept f)
    (if b && rememberLastSelectedCategories env
     then rememberCategories env data else mret tt).
Proof.
  destruct f_selected as [->|Hs].
  - rewrite andb_false_r. kept_tac.
  - unfold rememberCategories. kept_tac.
Qed.

Hint Resolve kept_updatePostImages kept_remember : kept.

(** The front matter is written only after the server has accepted the
    post. *)
Hypothesis f_frontMatter :
  (forall t postTitle html p data, publish env t postTitle html p <> inr (ResOK data)) \/
  forall fm st, f (setFrontMatter fm st) = f st.

Lemma kept_processFrontMatter fn :
  (forall fm st, f (setFrontMatter fm st) = f st) ->
  steps (kept f) (processFrontMatter fn).
Proof. intros Hw. unfold processFrontMatter. kept_tac. Qed.

(** [tryToPublish] after the request has been handed over. *)
Lemma kept_tryToPublish_sent p cb o st :
  match getTags env (tags p) st with
  | (Ok tagTerms, st1) =>
      match updatePostImages env
              (setTags (VArr ((fun term => VStr (term_id term)) <$> tagTerms)) p) st1
      with
      | (Ok sent, st2) =>
          kept f (addPublished sent st2) (snd (tryToPublish env p cb o st))
      | (_, st2) => snd (tryToPublish env p cb o st) = st2
      end
  | (_, st1) => snd (tryToPublish env p cb o st) = st1
  end.
Proof.
  destruct (getTags env (tags p) st) as [[tagTerms|e|] st1] eqn:Hg.
  2, 3: unfold tryToPublish; unfold mbind at 1, M_bind at 1; by rewrite Hg.
  destruct (updatePostImages env _ st1) as [[sent|e|] st2] eqn:Hu.
  2, 3: unfold tryToPublish; unfold mbind at 1, M_bind at 1; rewrite Hg; cbv zeta;
    unfold mbind at 1, M_bind at 1; by rewrite Hu.
  unfold tryToPublish. unfold mbind at 1, M_bind at 1. rewrite Hg. cbv zeta.
  unfold mbind at 1, M_bind at 1. rewrite Hu.
  match goal with
  | |- context [(modify ?g ≫= ?k) st2] =>
      change ((modify g ≫= k) st2) with (k tt (g st2))
  end.
  cbv beta.
  match goal with
  | |- kept f ?s (snd (?m ?s)) => cut (steps (kept f) m); [intros Hs; apply Hs|]
  end.
  apply kept_await_bind. intros t [data|code message] Hpub; [|kept_tac].
  destruct f_frontMatter as [Hno|Hw]; [by destruct (Hno _ _ _ _ _ Hpub)|].
  pose proof (kept_processFrontMatter) as Hp.
  kept_tac.
Qed.

Hypothesis f_published : forall p st, f (addPublished p st) = f st.

Lemma kept_tryToPublish p cb o : steps (kept f) (tryToPublish env p cb o).
Proof.
  intros st. pose proof (kept_tryToPublish_sent p cb o st) as Hsent.
  pose proof (kept_getTags (tags p) st) as Htags.
  destruct (getTags env (tags p) st) as [[tagTerms|e|] st1];
    try (rewrite Hsent; exact Htags).
  pose proof (kept_updatePostImages
                (setTags (VArr ((fun term => VStr (term_id term)) <$> tagTerms)) p) st1)
    as Himg.
  destruct (updatePostImages env _ st1) as [[sent|e|] st2];
    try (rewrite Hsent; etrans; [exact Htags|exact Himg]).
  etrans; [exact Htags|]. etrans; [exact Himg|]. etrans; [|exact Hsent].
  unfold kept. simpl. by rewrite f_published.
Qed.

Hint Resolve kept_tryToPublish : kept.

Lemma kept_publishModal noteTitle fileContent matterData submissions :
  steps (kept f) (publishModal env noteTitle fileContent matterData submissions).
Proof.
  induction submissions as [|[p cb] rest IH]; simpl; kept_tac.
Qed.

Hint Resolve kept_publishModal : kept.

(** Once the flag is up, the body of [publishPost] leaves [f] alone. *)
Lemma kept_publishPostBody defaultPostParams st :
  publishInProgress st = false ->
  kept f (setInProgress true st) (snd (publishPostBody env defaultPostParams st)).
Proof.
  intros Hfree. unfold publishPostBody.
  match goal with
  | |- context [(getState ≫= ?k) st] => change ((getState ≫= k) st) with (k st st)
  end.
  cbv beta. rewrite Hfree.
  match goal with
  | |- context [(modify ?g ≫= ?k) st] =>
      change ((modify g ≫= k) st) with (k tt (g st))
  end.
  cbv beta.
  match goal with
  | |- kept f ?s (snd (?m ?s)) => cut (steps (kept f) m); [intros Hs; apply Hs|]
  end.
  kept_tac.
Qed.

Hypothesis f_lock : forall b st, f (setInProgress b st) = f st.

Lemma kept_publishPost defaultPostParams :
  steps (kept f) (publishPost env defaultPostParams).
Proof.
  unfold publishPost.
  apply steps_tryFinally; [apply _| |intros st; apply f_lock].
  apply steps_tryCatch; [apply _| |intros e; kept_tac].
  intros st. destruct (publishInProgress st) eqn:Hlock.
  - unfold publishPostBody, mbind, M_bind, getState. by rewrite Hlock.
  - etrans; [|by apply kept_publishPostBody]. unfold kept. apply f_lock.
Qed.

End Kept.

(** ** What an attempt never does *)

(** X24.  An attempt that the server does not accept writes nothing into the
    front matter of the note, however it ends. *)
Theorem publishPost_refused_keeps_front_matter env defaultPostParams st :
  (forall t postTitle html p data,
     publish env t postTitle html p <> inr (ResOK data)) ->
  fileFrontMatter (snd (publishPost env defaultPostParams st)) = fileFrontMatter st.
Proof.
  intros Hno.
  apply (kept_publishPost env fileFrontMatter); try done; auto.
Qed.

Lemma publishPost_refused_keeps_front_matter_witness :
  fileFrontMatter (snd (publishPost refusingEnv None publishedNote))
  = fileFrontMatter publishedNote.
Proof. apply publishPost_refused_keeps_front_matter. intros; discriminate. Defined.

(** X28.  With [rememberLastSelectedCategories] off, an attempt leaves the last
    selection of the profile as it was; with [replaceMediaLinks] off, it does
    not write into the editor. *)
Theorem publishPost_honours_settings env defaultPostParams st :
  (rememberLastSelectedCategories env = false ->
   lastSelectedCategories (snd (publishPost env defaultPostParams st))
   = lastSelectedCategories st) /\
  (replaceMediaLinks env = false ->
   editorValue (snd (publishPost env defaultPostParams st)) = editorValue st).
Proof.
  split; intros Hoff.
  - apply (kept_publishPost env lastSelectedCategories); try done; auto.
  - apply (kept_publishPost env editorValue); try done; auto.
Qed.

(** X20.  When [publishPost] does not settle, because the publish modal was left
    without a successful publish, the flag stays raised. *)
Theorem publishPost_pending_holds_lock env defaultPostParams st :
  fst (publishPost env defaultPostParams st) = Pending ->
  publishInProgress (snd (publishPost env defaultPostParams st)) = true.
Proof.
  unfold publishPost, tryFinally, tryCatch.
  destruct (publishInProgress st) eqn:Hlock.
  - unfold publishPostBody, mbind, M_bind, getState. rewrite Hlock. done.
  - pose proof (kept_publishPostBody env publishInProgress ltac:(done) ltac:(done)
                  ltac:(auto) ltac:(auto) ltac:(auto) ltac:(done)
                  defaultPostParams st Hlock) as Hk.
    destruct (publishPostBody env defaultPostParams st) as [[r|[m|v]|] st1];
      simpl in *; done.
Qed.

Lemma publishPost_pending_holds_lock_witness :
  publishInProgress (snd (publishPost sampleEnv None (sampleState false ∅ "body")))
  = true.
Proof. apply publishPost_pending_holds_lock. vm_compute. reflexivity. Defined.

Lemma publishPost_releases_lock_witness :
  publishInProgress (snd (publishPost sampleEnv None publishedNote)) = false.
Proof.
  eapply publishPost_releases_lock; [apply surjective_pairing|].
  vm_compute. discriminate.
Defined.

Lemma publishPost_keeps_stored_url_witness :
  fileFrontMatter (snd (publishPost sampleEnv None publishedNote)) !! "wp_url"
  = Some (VStr "https://example.com/?p=42").
Proof.
  rewrite publishPost_keeps_stored_url; [reflexivity|constructor|reflexivity].
Defined.

(** X21.  Without an endpoint in the profile, or without an active file, an
    attempt that is let in ends at once with the matching error: one notice is
    shown, no collaborator is asked, nothing is published or written, and the
    flag is down again. *)
Theorem publishPost_without_endpoint_or_file env defaultPostParams st :
  publishInProgress st = false ->
  (nonEmpty (profile_endpoint env) = false ->
   publishPost env defaultPostParams st =
   (Ok (ResError (OtherErrorCode "Error") (i18n_t "error_noEndpoint")),
    addNotice (i18n_t "error_noEndpoint") st)) /\
  (nonEmpty (profile_endpoint env) = true -> activeFile env = None ->
   publishPost env defaultPostParams st =
   (Ok (ResError (OtherErrorCode "Error") (i18n_t "error_noActiveFile")),
    addNotice (i18n_t "error_noActiveFile") st)).
Proof.
  intros Hlock.
  unfold publishPost, tryFinally, tryCatch, publishPostBody, mbind, M_bind, getState.
  rewrite Hlock. split.
  - intros ->. destruct st; simpl in *. by rewrite Hlock.
  - intros -> ->. destruct st; simpl in *. by rewrite Hlock.
Qed.

Lemma publishPost_without_endpoint_or_file_witness :
  published (snd (publishPost (withWorkspace "" (Some "note") sampleEnv) None
                    publishedNote)) = [] /\
  fst (publishPost (withWorkspace "https://example.com" None sampleEnv) None
         publishedNote)
  = Ok (ResError (OtherErrorCode "Error") (i18n_t "error_noActiveFile")).
Proof.
  split.
  - rewrite (proj1 (publishPost_without_endpoint_or_file
                      (withWorkspace "" (Some "note") sampleEnv) None publishedNote
                      eq_refl)); reflexivity.
  - rewrite (proj2 (publishPost_without_endpoint_or_file
                      (withWorkspace "https://example.com" None sampleEnv) None
                      publishedNote eq_refl)); reflexivity.
Defined.

(** ** The front matter is written on success, and only then *)

Section WriteBack.

Context (env : Env).

Lemma mergedFor_mono updates updates' data fm fm' :
  updates ⊆ updates' ->
  mergedFor env updates data fm fm' -> mergedFor env updates' data fm fm'.
Proof.
  intros Hsub (i & Hm & Hn & He & Hb & Hi & Hu & Hin).
  exists i. split_and!; try done. by apply Hsub.
Qed.

Lemma writes_mono {A} updates updates' success (m : M A) :
  updates ⊆ updates' ->
  writesOnSuccess env updates success m -> writesOnSuccess env updates' success m.
Proof.
  intros Hsub Hm st. specialize (Hm st).
  destruct (m st) as [[a|e|] st']; try done.
  destruct (success a); [by eapply mergedFor_mono|done].
Qed.

Lemma writes_kept {A} updates success (m : M A) :
  steps frontMatterKept m -> (forall a, success a = None) ->
  writesOnSuccess env updates success m.
Proof.
  intros Hm Hs st. specialize (Hm st).
  destruct (m st) as [[a|e|] st']; try done. by rewrite Hs.
Qed.

Lemma writes_ret {A} updates (success : A -> option PublishData) a :
  success a = None -> writesOnSuccess env updates success (mret a).
Proof. intros Hs st. simpl. by rewrite Hs. Qed.

Lemma writes_throw {A} updates success e :
  writesOnSuccess env updates success (@throw A e).
Proof. by intros st. Qed.

(** Steps that leave the front matter alone, before the one that writes. *)
Lemma writes_bind_pre {A C} updates success (m : M A) (k : A -> M C) :
  steps frontMatterKept m ->
  (forall a, writesOnSuccess env updates success (k a)) ->
  writesOnSuccess env updates success (m ≫= k).
Proof.
  intros Hm Hk st. unfold mbind, M_bind. specialize (Hm st).
  destruct (m st) as [[a|e|] st1]; try done.
  specialize (Hk a st1). unfold frontMatterKept in Hm. simpl in Hm.
  by rewrite <- Hm.
Qed.

(** A step that does not return ends the sequence. *)
Lemma writes_bind_stop {A C} updates success (m : M A) (k : A -> M C) :
  steps frontMatterKept m -> (forall st a, fst (m st) <> Ok a) ->
  writesOnSuccess env updates success (m ≫= k).
Proof.
  intros Hm Hno st. unfold mbind, M_bind. specialize (Hm st). specialize (Hno st).
  destruct (m st) as [[a|e|] st1]; try done. by destruct (Hno a).
Qed.

(** Steps after the one that writes: they leave the front matter alone and
    hand the success on. *)
Lemma writes_bind_post {A C} updates success success' (m : M A) (k : A -> M C) :
  writesOnSuccess env updates success m ->
  (forall a, success a = None -> writesOnSuccess env updates success' (k a)) ->
  (forall a data st, success a = Some data ->
     exists c st', k a st = (Ok c, st') /\ success' c = Some data /\
                   fileFrontMatter st' = fileFrontMatter st) ->
  writesOnSuccess env updates success' (m ≫= k).
Proof.
  intros Hm Hnone Hsome st. unfold mbind, M_bind. specialize (Hm st).
  destruct (m st) as [[a|e|] st1]; try done.
  destruct (success a) as [data|] eqn:Hs.
  - destruct (Hsome a data st1 Hs) as (c & st' & -> & -> & ->). done.
  - specialize (Hnone a Hs st1). by rewrite <- Hm.
Qed.

Lemma writes_tryCatch {A} updates success (m : M A) h :
  writesOnSuccess env updates success m ->
  (forall e, writesOnSuccess env updates success (h e)) ->
  writesOnSuccess env updates success (tryCatch m h).
Proof.
  intros Hm Hh st. unfold tryCatch. specialize (Hm st).
  destruct (m st) as [[a|e|] st1]; try done.
  specialize (Hh e st1). by rewrite <- Hm.
Qed.

Lemma writes_tryFinally {A} updates success (m : M A) fin :
  writesOnSuccess env updates success m ->
  (forall st, fileFrontMatter (fin st) = fileFrontMatter st) ->
  writesOnSuccess env updates success (tryFinally m fin).
Proof.
  intros Hm Hf st. unfold tryFinally. specialize (Hm st).
  destruct (m st) as [[a|e|] st1]; rewrite ?Hf; done.
Qed.

(** The write itself. *)
Lemma writes_processFrontMatter updates data i :
  mi_profile_name i = profile_name env ->
  mi_profile_endpoint i = profile_endpoint env ->
  Some (mi_basename i) = activeFile env ->
  mi_postId i = res_postId data ->
  mi_postUrl i = res_postUrl data ->
  updateMatterData i ∈ updates ->
  writesOnSuccess env updates (fun _ : unit => Some data)
    (processFrontMatter (mergeFrontMatter i)).
Proof.
  intros Hn He Hb Hi Hu Hin st. unfold processFrontMatter, mbind, M_bind, getState.
  destruct (mergeFrontMatter i (fileFrontMatter st)) as [e|fm'] eqn:Hm; [done|].
  simpl. by exists i.
Qed.

Lemma getAuth_settles st :
  (exists auth st', getAuth env st = (Ok auth, st')) \/
  (exists e st', getAuth env st = (Throw e, st')).
Proof.
  pose proof (getAuth_not_pending env st) as Hp.
  destruct (getAuth env st) as [[a|e|] st']; [left|right|done]; by eexists _, _.
Qed.

Lemma rememberCategories_settles data st :
  exists st', rememberCategories env data st = (Ok tt, st') /\
              fileFrontMatter st' = fileFrontMatter st.
Proof.
  pose proof (steps_rememberCategories env data st) as Hk.
  unfold rememberCategories, tryCatch, mbind, M_bind in *.
  destruct (getAuth_settles st) as [(a & st1 & Hg)|(e & st1 & Hg)]; rewrite Hg in *;
    eexists; split; try reflexivity; exact Hk.
Qed.

Lemma updatePostImages_no_file p :
  activeFile env = None ->
  updatePostImages env p = throw (JsError (i18n_t "error_noActiveFile")).
Proof. intros H. unfold updatePostImages. by rewrite H. Qed.

Lemma writes_tryToPublish p cb o :
  writesOnSuccess env [cb] okData (tryToPublish env p cb o).
Proof.
  unfold tryToPublish.
  apply writes_bind_pre; [auto with steps|intros tagTerms]. cbv zeta.
  destruct (activeFile env) as [basename|] eqn:Hfile.
  2: { rewrite updatePostImages_no_file by done.
       apply writes_bind_stop; [steps_tac|done]. }
  apply writes_bind_pre; [auto with steps|intros p1].
  apply writes_bind_pre; [steps_tac|intros _].
  apply writes_bind_pre; [auto with steps|intros [data|code message]];
    [|apply writes_throw].
  apply writes_bind_pre; [auto with steps|intros _]. cbv zeta.
  apply (writes_bind_post _ (fun _ : unit => Some data)).
  - apply writes_bind_pre; [steps_tac|intros cn1].
    apply writes_bind_pre; [auto with steps|intros cfd].
    apply writes_bind_pre; [steps_tac|intros cn2].
    apply writes_processFrontMatter; try done. by left.
  - done.
  - intros [] data' st [= <-].
    destruct (truthy (res_postId data) && rememberLastSelectedCategories env).
    + destruct (rememberCategories_settles data st) as (st' & Hr & Hk).
      eexists _, st'. unfold mbind, M_bind. rewrite Hr. done.
    + by eexists _, st.
Qed.

Lemma writes_publishModal noteTitle fileContent matterData submissions :
  writesOnSuccess env (snd <$> submissions) okData
    (publishModal env noteTitle fileContent matterData submissions).
Proof.
  induction submissions as [|[p cb] rest IH]; [by intros st|].
  cbn [publishModal].
  apply (writes_bind_post _ (fun r : option (ClientResult PublishData) => r ≫= okData)).
  - apply writes_tryCatch; [|intros e; by apply writes_ret].
    apply writes_bind_pre; [auto with steps|intros p1]. cbv zeta.
    apply writes_tryCatch.
    + apply (writes_bind_post _ okData).
      * eapply writes_mono; [|apply writes_tryToPublish].
        intros u ->%list_elem_of_singleton. by left.
      * intros r Hr. by apply writes_ret.
      * intros r data st Hr. by eexists _, _.
    + intros [m|v]; [|apply writes_throw].
      apply writes_bind_pre; [auto with steps|intros _]. by apply writes_ret.
  - intros [[data|code message]|] Hr; try done;
      (eapply writes_mono; [|apply IH]; intros u Hu; by right).
  - intros [[data|code message]|] data' st [= <-]. by eexists _, _.
Qed.

Lemma writes_publishPost defaultPostParams :
  writesOnSuccess env (None :: (snd <$> publishModalSubmissions env)) okData
    (publishPost env defaultPostParams).
Proof.
  unfold publishPost. apply writes_tryFinally; [|done].
  apply writes_tryCatch.
  2: { intros [m|v]; [|apply writes_throw]. unfold showError.
       apply writes_bind_pre; [auto with steps|intros _]. by apply writes_ret. }
  unfold publishPostBody.
  repeat first
    [ apply writes_throw
    | eapply writes_mono; [|apply writes_tryToPublish];
      intros u ->%list_elem_of_singleton; by left
    | eapply writes_mono; [|apply writes_publishModal]; intros u Hu; by right
    | apply writes_bind_pre; [solve [steps_tac]|intros ?]
    | match goal with
      | |- writesOnSuccess _ _ _ (match ?x with _ => _ end) => destruct x
      | |- writesOnSuccess _ _ _ (let _ := _ in _) => cbv zeta
      end ].
Qed.

(** X25.  The front matter of the note after [publishPost] is the one before,
    unless the attempt returns a success: then it is the merge of the one before
    for the answer of the server, under the active profile and file, followed by
    no update on the update path or by the update of one submission of the
    publish modal.  The reads of the vault that the source makes for its log,
    and the saving of the settings, are taken to succeed. *)
Theorem publishPost_writes_on_success_only defaultPostParams st :
  match publishPost env defaultPostParams st with
  | (Ok (ResOK data), st') =>
      mergedFor env (None :: (snd <$> publishModalSubmissions env)) data
        (fileFrontMatter st) (fileFrontMatter st')
  | (_, st') => fileFrontMatter st' = fileFrontMatter st
  end.
Proof.
  pose proof (writes_publishPost defaultPostParams st) as Hw.
  destruct (publishPost env defaultPostParams st) as [[[data|code message]|e|] st'];
    done.
Qed.

(** X27.  A key that is none of the six keys of the merge has, after an attempt,
    the value it had before, however the attempt ends, provided the updates that
    the publish modal hands over leave that key alone. *)
Theorem publishPost_keeps_foreign_keys defaultPostParams st key :
  key ∉ preservedKeys ->
  Forall (fun sub => forall u fm fm',
            snd sub = Some u -> u fm = inr fm' -> fm' !! key = fm !! key)
    (publishModalSubmissions env) ->
  fileFrontMatter (snd (publishPost env defaultPostParams st)) !! key
  = fileFrontMatter st !! key.
Proof.
  intros Hkey Hsubs. pose proof (writes_publishPost defaultPostParams st) as Hw.
  destruct (publishPost env defaultPostParams st) as [[[data|code message]|e|] st'];
    simpl in *; try by rewrite Hw.
  destruct Hw as (i & Hm & _ & _ & _ & _ & _ & Hin).
  unfold mergeFrontMatter in Hm.
  destruct (mergePolicy i (fileFrontMatter st)) as [e|fm1] eqn:Hp; [done|].
  rewrite <- (mergePolicy_other i _ fm1 key Hp Hkey).
  destruct (updateMatterData i) as [u|] eqn:Hu; [|by injection Hm as <-].
  apply elem_of_cons in Hin as [?|Hin]; [done|].
  apply list_elem_of_fmap in Hin as (sub & Hsub & Hin).
  rewrite Forall_forall in Hsubs. by apply (Hsubs sub Hin u).
Qed.

(** X26.  After an attempt that returns a success the note carries the name of
    the active profile, and a URL when it had one or the server sent a URL or a
    post id, provided the updates that the publish modal hands over leave these
    two keys alone. *)
Theorem publishPost_success_links_note defaultPostParams st data st' :
  publishPost env defaultPostParams st = (Ok (ResOK data), st') ->
  Forall (fun sub => forall u fm fm',
            snd sub = Some u -> u fm = inr fm' ->
            fm' !! "wp_profile" = fm !! "wp_profile" /\
            fm' !! "wp_url" = fm !! "wp_url")
    (publishModalSubmissions env) ->
  fileFrontMatter st' !! "wp_profile" = Some (VStr (profile_name env)) /\
  (truthy (prop (fileFrontMatter st) "wp_url") || truthy (res_postUrl data)
   || truthy (res_postId data) = true ->
   truthy (prop (fileFrontMatter st') "wp_url") = true).
Proof.
  intros Hr Hsubs. pose proof (writes_publishPost defaultPostParams st) as Hw.
  rewrite Hr in Hw. simpl in Hw.
  destruct Hw as (i & Hm & Hname & Hend & _ & Hid & Hurl & Hin).
  unfold mergeFrontMatter in Hm.
  destruct (mergePolicy i (fileFrontMatter st)) as [e|fm1] eqn:Hp; [done|].
  assert (fileFrontMatter st' !! "wp_profile" = fm1 !! "wp_profile" /\
          fileFrontMatter st' !! "wp_url" = fm1 !! "wp_url") as [Hkp Hku].
  { destruct (updateMatterData i) as [u|] eqn:Hu; [|by injection Hm as <-].
    apply elem_of_cons in Hin as [?|Hin]; [done|].
    apply list_elem_of_fmap in Hin as (sub & Hsub & Hin).
    rewrite Forall_forall in Hsubs. by apply (Hsubs sub Hin u). }
  split.
  - rewrite Hkp, <- Hname. by apply (mergePolicy_profile i (fileFrontMatter st)).
  - intros Hany. unfold prop at 1. rewrite Hku, (mergePolicy_url _ _ _ Hp).
    unfold mergeUrl. rewrite Hurl, Hid.
    destruct (truthy (prop (fileFrontMatter st) "wp_url")) eqn:H1.
    { by rewrite lookup_insert_eq. }
    destruct (truthy (res_postUrl data)) eqn:H2.
    { by rewrite lookup_insert_eq. }
    destruct (truthy (res_postId data)) eqn:H3; [|done].
    rewrite lookup_insert_eq. simpl.
    destruct (mi_profile_endpoint i) as [|c rest]; [done|]. by rewrite append_cons.
Qed.

End WriteBack.

Lemma publishPost_keeps_foreign_keys_witness :
  fileFrontMatter
    (snd (publishPost sampleEnv None
            (sampleState false
               {["wp_url" := VStr "https://example.com/?p=42"; "author" := VStr "me"]}
               "body"))) !! "author"
  = Some (VStr "me").
Proof.
  rewrite publishPost_keeps_foreign_keys; [reflexivity| |constructor].
  unfold preservedKeys. rewrite !not_elem_of_cons. split_and!; try discriminate.
  apply not_elem_of_nil.
Defined.

Lemma publishPost_success_links_note_witness :
  fileFrontMatter (snd (publishPost sampleEnv (Some sampleParams)
                          (sampleState false ∅ "body"))) !! "wp_profile"
  = Some (VStr "blog") /\
  truthy (prop (fileFrontMatter (snd (publishPost sampleEnv (Some sampleParams)
                                        (sampleState false ∅ "body")))) "wp_url")
  = true.
Proof.
  eassert (publishPost sampleEnv (Some sampleParams) (sampleState false ∅ "body")
           = (Ok (ResOK _), _)) as Hr by (vm_compute; reflexivity).
  destruct (publishPost_success_links_note sampleEnv _ _ _ _ Hr) as [Hp Hu];
    [constructor|].
  split; [exact Hp|]. apply Hu. reflexivity.
Defined.

(** ** What the media relay leaves alone *)

Lemma getImages_no_bang isValidUrl body :
  allChars (isNot "!") body = true -> getImages isValidUrl body = [].
Proof.
  intros Hb. unfold getImages. rewrite !execAll_none; [done| |].
  - intros s' p Hs'. unfold embedImagePattern. rewrite rmatch_group.
    apply rmatch_seq_char_none. by eapply allChars_suffix.
  - intros s' p Hs'. unfold inlineImagePattern. rewrite rmatch_group.
    apply rmatch_seq_char_none. by eapply allChars_suffix.
Qed.

Lemma setContent_same p : setContent (content p) p = p.
Proof. by destruct p. Qed.

Lemma setContent_setContent a b p : setContent a (setContent b p) = setContent a p.
Proof. done. Qed.

Lemma relayImages_body_only env images :
  forall p st p' st',
    relayImages env images p st = (Ok p', st') ->
    p' = setContent (content p') p /\
    ((forall t file url, uploadMedia env t file <> inr (ResOK url)) -> p' = p).
Proof.
  induction images as [|img rest IH]; intros p st p' st' H.
  - injection H as <- <-. by rewrite setContent_same.
  - cbn [relayImages] in H.
    destruct (srcIsUrl img); [by apply (IH _ _ _ _ H)|].
    destruct (decodeURI env (src img)) as [e|decoded]; [done|].
    destruct (last (splitOn "/" decoded)) as [fileName|]; [|by apply (IH _ _ _ _ H)].
    destruct (getFirstLinkpathDest env decoded fileName) as [imgFile|];
      [|by apply (IH _ _ _ _ H)].
    unfold await, ask, mbind, M_bind, throw, mret, M_ret, Notice, modify in H.
    destruct (uploadMedia env (clock st) imgFile) as [e|[url|[|code] message]] eqn:Hup;
      [done| |by apply (IH _ _ _ _ H)..].
    apply IH in H as [Hbody Hno]. split.
    + by rewrite Hbody at 1.
    + intros Hnever. by destruct (Hnever _ _ _ Hup).
Qed.

Lemma updatePostImages_inv env p st p' st' :
  updatePostImages env p st = (Ok p', st') ->
  p' = p \/
  exists st1, relayImages env (getImages (isValidUrl env) (content p)) p st = (Ok p', st1).
Proof.
  unfold updatePostImages. destruct (activeFile env); [|done].
  destruct (hasActiveEditor env); [|intros [= <- <-]; by left].
  unfold mbind, M_bind.
  destruct (relayImages env _ p st) as [[p1|e|] st1] eqn:Hr; try done.
  destruct (replaceMediaLinks env); intros [= <- <-]; right; by exists st1.
Qed.

(** X16.  The media relay changes nothing of the request but its body, and not
    the body either when no upload succeeds. *)
Theorem updatePostImages_changes_body_only env postParams st postParams' st' :
  updatePostImages env postParams st = (Ok postParams', st') ->
  postParams' = setContent (content postParams') postParams /\
  ((forall t file url, uploadMedia env t file <> inr (ResOK url)) ->
   postParams' = postParams).
Proof.
  intros [->|[st1 Hr]]%updatePostImages_inv.
  - by rewrite setContent_same.
  - by apply relayImages_body_only in Hr.
Qed.

Lemma updatePostImages_changes_body_only_witness :
  exists postParams' st',
    updatePostImages sampleEnv (setContent "a ![[cat.png]] b" sampleParams)
      (sampleState false ∅ "") = (Ok postParams', st') /\
    title postParams' = title sampleParams /\
    categories postParams' = categories sampleParams.
Proof.
  eexists _, _. split; [reflexivity|].
  eassert (updatePostImages sampleEnv (setContent "a ![[cat.png]] b" sampleParams)
             (sampleState false ∅ "") = (Ok _, _)) as Hr by reflexivity.
  destruct (updatePostImages_changes_body_only _ _ _ _ _ Hr) as [-> _].
  split; reflexivity.
Defined.

(** X17.  A body without an exclamation mark holds no image: the relay uploads
    nothing and hands the request on as it is, and writes the same body into the
    editor when media links are to be replaced. *)
Theorem updatePostImages_without_images env noteTitle postParams st :
  activeFile env = Some noteTitle ->
  allChars (isNot "!") (content postParams) = true ->
  updatePostImages env postParams st =
  (Ok postParams,
   if hasActiveEditor env && replaceMediaLinks env
   then setEditorValue (content postParams) st else st).
Proof.
  intros Hfile Hbody. unfold updatePostImages. rewrite Hfile.
  destruct (hasActiveEditor env); [|done].
  rewrite getImages_no_bang by done. cbn [relayImages].
  by destruct (replaceMediaLinks env).
Qed.

Lemma updatePostImages_without_images_witness :
  updatePostImages sampleEnv (setContent "plain text" sampleParams)
    (sampleState false ∅ "")
  = (Ok (setContent "plain text" sampleParams), sampleState false ∅ "").
Proof.
  apply (updatePostImages_without_images sampleEnv "note"); reflexivity.
Defined.

Lemma updatePostImages_embed_alone_witness :
  fst (updatePostImages sampleEnv (setContent "a ![[cat.png|300x200]] b" sampleParams)
         (sampleState false ∅ ""))
  = Ok (setContent "a ![[https://cdn.example.com/cat.png|300x200]] b" sampleParams).
Proof.
  apply (updatePostImages_embed_alone sampleEnv "note" "a " "cat.png"
           (WidthHeight "300" "200") " b" "https://cdn.example.com/cat.png"
           "cat.png" "cat.png" "cat.png"
           (setContent "a ![[cat.png|300x200]] b" sampleParams)
           (sampleState false ∅ ""));
    reflexivity.
Defined.

(** ** The safety check on the parsed front matter *)

(** X22.  When the text of the note mentions a [wp_] key and the parsed front
    matter has none, an attempt that is let in publishes nothing and writes
    nothing, and the flag is down when it ends; once the credentials are had it
    ends with the parsing error. *)
Theorem publishPost_unparsed_front_matter env defaultPostParams st noteTitle :
  publishInProgress st = false ->
  nonEmpty (profile_endpoint env) = true ->
  activeFile env = Some noteTitle ->
  fileTextHasWpKey st = true ->
  hasWpKey (fileFrontMatter st) = false ->
  published (snd (publishPost env defaultPostParams st)) = published st /\
  fileFrontMatter (snd (publishPost env defaultPostParams st)) = fileFrontMatter st /\
  publishInProgress (snd (publishPost env defaultPostParams st)) = false /\
  (forall auth st1,
     getAuth env (setInProgress true st) = (Ok auth, st1) ->
     publishPost env defaultPostParams st =
     (Ok (ResError (OtherErrorCode "Error") frontMatterParsingFailedMessage),
      setInProgress false (addNotice frontMatterParsingFailedMessage st1))).
Proof.
  intros Hlock Hend Hfile Htext Hparsed.
  pose proof (kept_getAuth env published ltac:(done) ltac:(done)
                (setInProgress true st)) as Hpub.
  pose proof (kept_getAuth env fileFrontMatter ltac:(done) ltac:(done)
                (setInProgress true st)) as Hfm.
  pose proof (kept_getAuth env fileTextHasWpKey ltac:(done) ltac:(done)
                (setInProgress true st)) as Htxt.
  unfold kept in *.
  unfold publishPost, tryFinally, tryCatch, publishPostBody, processFile.
  unfold mbind, M_bind, getState, modify.
  rewrite Hlock, Hend, Hfile. cbn [negb].
  destruct (getAuth env (setInProgress true st)) as [[a|[m|v]|] s1] eqn:Hg;
    simpl in Hpub, Hfm, Htxt.
  - cbn [mret M_ret fst snd]. rewrite Htxt, Hfm. simpl. rewrite Htext, Hparsed.
    simpl. split_and!; try done. by intros auth st1 [= _ <-].
  - simpl. by split_and!.
  - simpl. by split_and!.
  - simpl.
    pose proof (getAuth_not_pending env (setInProgress true st)) as Hp.
    by rewrite Hg in Hp.
Qed.

Lemma publishPost_unparsed_front_matter_witness :
  fst (publishPost sampleEnv None
         (mkState false ∅ true "wp_url: [broken" None None [] 0 []))
  = Ok (ResError (OtherErrorCode "Error") frontMatterParsingFailedMessage).
Proof.
  eassert (getAuth sampleEnv
             (setInProgress true (mkState false ∅ true "wp_url: [broken" None None [] 0 []))
           = (Ok _, _)) as Hg by reflexivity.
  edestruct (publishPost_unparsed_front_matter sampleEnv None
               (mkState false ∅ true "wp_url: [broken" None None [] 0 []) "note")
    as (_ & _ & _ & Hr); [reflexivity..|vm_compute; reflexivity|].
  rewrite (Hr _ _ Hg). reflexivity.
Defined.

(** ** The selection of categories and the profile check *)

(** X12.  [selectedCategoryIds] always returns, and never an empty selection. *)
Theorem selectedCategoryIds_never_empty env matterData st :
  exists ids st',
    selectedCategoryIds env matterData st = (Ok ids, st') /\ ids <> [] /\
    fileFrontMatter st' = fileFrontMatter st /\ published st' = published st.
Proof.
  pose proof (kept_selectedCategoryIds env fileFrontMatter ltac:(done) ltac:(done)
                matterData st) as Hfm.
  pose proof (kept_selectedCategoryIds env published ltac:(done) ltac:(done)
                matterData st) as Hpub.
  unfold kept in *.
  assert (forall names,
            exists ids st',
              (ids ← convertCategoryNamesToIds env names; mret (VNum <$> ids)) st
              = (Ok ids, st') /\ ids <> []) as Hconv.
  { intros names. rewrite convertCategoryNamesToIds_fmap_run.
    eexists _, _. split; [reflexivity|].
    pose proof (categoryIdsOfNames_nonempty (engine env) (getCategories env (clock st)) names).
    by destruct (fst (categoryIdsOfNames (engine env) _ names)). }
  assert (exists ids st', selectedCategoryIds env matterData st = (Ok ids, st') /\
                          ids <> []) as (ids & st' & Hr & Hne).
  { unfold selectedCategoryIds.
    destruct (nonEmptyArray (prop matterData "wp_categories")) as [l|] eqn:Hn.
    - destruct (firstIsString l) eqn:Hs; [apply Hconv|].
      eexists _, _. split; [reflexivity|]. destruct l; [|done].
      by destruct (prop matterData "wp_categories") as [| | | | |[|]].
    - unfold mbind at 1, M_bind at 1, getState.
      destruct (lastSelectedCategories st) as [[|x rest]|]; try by eexists _, _.
      destruct (firstIsString (x :: rest)); [apply Hconv|by eexists _, _]. }
  rewrite Hr in Hfm, Hpub. by exists ids, st'.
Qed.

(** X13.  Without a stored profile name, or with the name of the active profile,
    [checkExistingProfile] asks nothing and hands the front matter back; with
    another name and the prompt turned down, it hands the front matter back as
    well, the stored URL included. *)
Theorem checkExistingProfile_without_switch env matterData st :
  (isProfileNameMismatch env matterData = false ->
   checkExistingProfile env matterData st = (Ok matterData, st)) /\
  (isProfileNameMismatch env matterData = true ->
   openConfirmModal env (clock st) = Cancel ->
   checkExistingProfile env matterData st = (Ok matterData, tickClock st)) /\
  (prop matterData "wp_profile" = VUndef \/
   prop matterData "wp_profile" = VStr (profile_name env) ->
   isProfileNameMismatch env matterData = false).
Proof.
  unfold checkExistingProfile. split_and!.
  - by intros ->.
  - intros -> Hc. unfold mbind, M_bind, ask. by rewrite Hc.
  - unfold isProfileNameMismatch. intros [-> | ->]; [done|].
    simpl. rewrite String.eqb_refl. by rewrite andb_false_r.
Qed.

(** X14.  [rememberCategories] never fails, and what it does is settled by
    [getAuth].  When the credentials are had, the categories are listed once
    more and the last selection becomes the names that [categoryNamesOfIds]
    gives for the ids the server returned, a list that is not empty; nothing
    else changes after [getAuth].  When [getAuth] throws, the last selection
    becomes the categories as the server sent them, and nothing else changes
    after [getAuth]. *)
Theorem rememberCategories_outcomes env data st :
  exists st',
    rememberCategories env data st = (Ok tt, st') /\
    ((exists auth st1 names,
        getAuth env st = (Ok auth, st1) /\
        names = categoryNamesOfIds (engine env) (getCategories env (clock st1))
                  (res_categories data) /\
        names <> [] /\
        st' = setLastSelected (Some (VStr <$> names)) (tickClock st1) /\
        lastSelectedCategories st' = Some (VStr <$> names)) \/
     (exists e st1,
        getAuth env st = (Throw e, st1) /\
        st' = setLastSelected (res_categories data) st1 /\
        lastSelectedCategories st' = res_categories data)).
Proof.
  unfold rememberCategories, tryCatch, mbind, M_bind, convertCategoryIdsToNames, ask,
    modify, mret, M_ret.
  pose proof (getAuth_not_pending env st) as Hp.
  destruct (getAuth env st) as [[a|e|] st1] eqn:Hg; [| |done].
  - eexists. split; [reflexivity|]. left. exists a, st1. eexists.
    split_and!; try reflexivity. apply categoryNamesOfIds_nonempty.
  - eexists. split; [reflexivity|]. right. exists e, st1. by split_and!.
Qed.

(** ** The header of the request *)

Lemma categoriesFromFrontMatter_header env wpCategories p st p' st' :
  categoriesFromFrontMatter env wpCategories p st = (Ok p', st') ->
  headerOf p' = headerOf p.
Proof.
  assert (forall names,
            (getAuth env;;
             ids ← convertCategoryNamesToIds env names;
             mret (setCategories (VNum <$> ids) p)) st = (Ok p', st') ->
            headerOf p' = headerOf p) as Hconv.
  { intros names. unfold mbind, M_bind.
    destruct (getAuth env st) as [[a|e|] s1]; try done.
    rewrite convertCategoryNamesToIds_run. by intros [= <- <-]. }
  unfold categoriesFromFrontMatter.
  destruct (nonEmptyArray wpCategories) as [items|].
  - destruct (firstIsString items); [apply Hconv|]. by intros [= <- <-].
  - unfold mbind at 1, M_bind at 1, getState.
    destruct (lastSelectedCategories st) as [[|x rest]|]; try by intros [= <- <-].
    destruct (firstIsString (x :: rest)); [apply Hconv|]. by intros [= <- <-].
Qed.

(** X11.  What [readFromFrontMatter] puts at the head of the request: the title
    is the stored title, or else the name of the note, whatever title the
    request came with; the profile name is the stored one or the default one;
    the post type is the stored one or [post]; status, comment status and body
    are those of the request given. *)
Theorem readFromFrontMatter_header env noteTitle matterData params st postParams st' :
  readFromFrontMatter env noteTitle matterData params st = (Ok postParams, st') ->
  title postParams =
    (if truthy (prop matterData "wp_title") then prop matterData "wp_title"
     else VStr noteTitle) /\
  profileName postParams =
    nullish (prop matterData "wp_profile") (VStr (WP_DEFAULT_PROFILE_NAME env)) /\
  postType postParams =
    match prop matterData "wp_ptype" with
    | VUndef => VStr PostTypeConst_Post
    | wp_ptype => wp_ptype
    end /\
  status postParams = status params /\
  commentStatus postParams = commentStatus params /\
  content postParams = content params.
Proof.
  intros Hr.
  assert (exists header st1,
            readHeaderFromFrontMatter env noteTitle matterData params st
            = (Ok header, st1) /\
            headerOf postParams = headerOf header) as (header & st1 & Hh & Heq).
  { revert Hr. unfold readFromFrontMatter. unfold mbind at 1, M_bind at 1.
    destruct (readHeaderFromFrontMatter env noteTitle matterData params st)
      as [[header|e|] st1]; try done.
    intros Hr. exists header, st1. split; [done|]. revert Hr.
    destruct (strictEqStr (postType header) PostTypeConst_Post);
      [|by intros [= <- <-]].
    unfold mbind, M_bind.
    destruct (match prop matterData "wp_categories" with
              | VUndef => mret header
              | wpCategories => categoriesFromFrontMatter env wpCategories header
              end st1) as [[p1|e|] st2] eqn:Hc; try done.
    assert (headerOf p1 = headerOf header) as <-.
    { destruct (prop matterData "wp_categories");
        first [by injection Hc as <- <-
              | by apply categoriesFromFrontMatter_header in Hc]. }
    by destruct (prop matterData "wp_tags"); intros [= <- <-]. }
  assert (title postParams = title header /\ profileName postParams = profileName header /\
          postType postParams = postType header /\ status postParams = status header /\
          commentStatus postParams = commentStatus header /\
          content postParams = content header)
    as (-> & -> & -> & -> & -> & ->).
  { unfold headerOf in Heq. injection Heq as -> -> -> -> -> _ ->. done. }
  revert Hh. unfold readHeaderFromFrontMatter, mbind, M_bind.
  destruct (truthy (prop matterData "wp_title"));
    (destruct (truthy (prop matterData "wp_url"));
     [ destruct (extractPostIdFromUrl env (prop matterData "wp_url") st)
         as [[r|e|] s2]; try done;
       destruct (truthyId r)
     | ]);
    destruct (prop matterData "wp_ptype"); by intros [= <- <-].
Qed.

Lemma readFromFrontMatter_header_witness :
  exists postParams st',
    readFromFrontMatter sampleEnv "note" {["wp_title" := VStr "Stored"]}
      (setTitle (VStr "Typed") sampleParams) (sampleState false ∅ "")
    = (Ok postParams, st') /\
    title postParams = VStr "Stored".
Proof.
  eexists _, _. split; [reflexivity|].
  eassert (readFromFrontMatter sampleEnv "note" {["wp_title" := VStr "Stored"]}
             (setTitle (VStr "Typed") sampleParams) (sampleState false ∅ "")
           = (Ok _, _)) as Hr by reflexivity.
  destruct (readFromFrontMatter_header _ _ _ _ _ _ _ Hr) as (Ht & _).
  rewrite Ht. reflexivity.
Defined.

(** ** The slug of a stored URL *)

Lemma splitOn_nonempty sep s : splitOn sep s <> [].
Proof.
  destruct s as [|c s]; [done|]. simpl.
  destruct (Ascii.eqb c sep); [done|]. by destruct (splitOn sep s).
Qed.

Lemma splitOn_app sep a b :
  splitOn sep (a +:+ String sep b) = splitOn sep a ++ splitOn sep b.
Proof.
  induction a as [|c a IH].
  - rewrite append_nil_l. simpl. by rewrite Ascii.eqb_refl.
  - rewrite append_cons. cbn [splitOn]. rewrite IH.
    destruct (Ascii.eqb c sep); [done|].
    pose proof (splitOn_nonempty sep a) as Hne.
    destruct (splitOn sep a) eqn:Hs; [done|reflexivity].
Qed.

Lemma splitOn_plain sep s : allChars (isNot sep) s = true -> splitOn sep s = [s].
Proof.
  induction s as [|c s IH]; [done|]. simpl. intros [Hc Hs]%andb_prop.
  unfold isNot in Hc. rewrite Ascii.eqb_sym in Hc.
  apply negb_true_iff in Hc. rewrite Hc. by rewrite IH.
Qed.

Lemma last_segment dir seg :
  nonEmpty seg = true -> allChars (isNot "/") seg = true ->
  last (List.filter nonEmpty (splitOn "/" (dir +:+ "/" +:+ seg))) = Some seg /\
  last (List.filter nonEmpty (splitOn "/" (dir +:+ "/" +:+ seg +:+ "/"))) = Some seg.
Proof.
  intros Hne Hseg. split.
  - change ("/" +:+ seg) with (String "/" seg).
    rewrite splitOn_app, List.filter_app, (splitOn_plain "/" seg) by done.
    simpl. rewrite Hne. apply last_snoc.
  - change ("/" +:+ seg +:+ "/") with (String "/" (seg +:+ String "/" "")).
    rewrite splitOn_app, splitOn_app, !List.filter_app, (splitOn_plain "/" seg) by done.
    simpl. rewrite Hne. simpl. rewrite ?app_nil_r. apply last_snoc.
Qed.

(** X7.  For a URL without a [p] parameter, the post is looked up by the last
    segment of the path that is not empty, a slash at the end of the path making
    no difference, and by that segment without its page extension; a segment
    that is nothing but an extension gives no id and no lookup. *)
Theorem extractPostIdFromUrl_looks_up_last_segment env url urlObj dir segment st :
  newURL env (toStr url) = Some urlObj ->
  searchParam_p urlObj = None ->
  pathname urlObj = dir +:+ "/" +:+ segment \/
  pathname urlObj = dir +:+ "/" +:+ segment +:+ "/" ->
  nonEmpty segment = true ->
  allChars (isNot "/") segment = true ->
  extractPostIdFromUrl env url st =
  if nonEmpty (stripPageExtension segment)
  then getPostIdBySlug env (stripPageExtension segment) st
  else (Ok None, st).
Proof.
  intros Hurl Hp Hpath Hne Hseg. unfold extractPostIdFromUrl.
  rewrite Hurl, Hp.
  assert (last (List.filter nonEmpty (splitOn "/" (pathname urlObj)))
          = Some segment) as ->.
  { destruct Hpath as [-> | ->]; by apply last_segment. }
  by destruct (nonEmpty (stripPageExtension segment)).
Qed.

Lemma extractPostIdFromUrl_looks_up_last_segment_witness :
  extractPostIdFromUrl sampleEnv (VStr "https://example.com/hello-world/")
    (sampleState false ∅ "")
  = getPostIdBySlug sampleEnv "hello-world" (sampleState false ∅ "").
Proof.
  rewrite (extractPostIdFromUrl_looks_up_last_segment sampleEnv
             (VStr "https://example.com/hello-world/") (mkURL None "/hello-world/")
             "" "hello-world"); try reflexivity.
  by right.
Defined.

(** ** The request that is sent *)

(** X18.  [tryToPublish] hands at most one request to the server: none when the
    tags cannot be read or the media relay fails, and otherwise the request it
    was given with the ids of the terms found as tags and the relayed body,
    whatever the server answers. *)
Theorem tryToPublish_sends_one_request env p cb o st :
  match getTags env (tags p) st with
  | (Ok tagTerms, st1) =>
      match updatePostImages env
              (setTags (VArr ((fun term => VStr (term_id term)) <$> tagTerms)) p) st1
      with
      | (Ok sent, _) =>
          published (snd (tryToPublish env p cb o st)) = published st ++ [sent] /\
          sent = setContent (content sent)
                   (setTags (VArr ((fun term => VStr (term_id term)) <$> tagTerms)) p)
      | _ => published (snd (tryToPublish env p cb o st)) = published st
      end
  | _ => published (snd (tryToPublish env p cb o st)) = published st
  end.
Proof.
  assert (published (snd (getTags env (tags p) st)) = published st) as Htags
    by (apply (kept_getTags env published); auto).
  assert (forall p1 st1,
            published (snd (updatePostImages env p1 st1)) = published st1) as Himg
    by (intros p1 st1; apply (kept_updatePostImages env published); auto).
  eassert (match getTags env (tags p) st with (r, st1) => _ end) as Hsent
    by (apply (kept_tryToPublish_sent env published); auto).
  destruct (getTags env (tags p) st) as [[tagTerms|e|] st1];
    try (by rewrite Hsent).
  specialize (Himg (setTags (VArr ((fun term => VStr (term_id term)) <$> tagTerms)) p)
                st1).
  destruct (updatePostImages env _ st1) as [[sent|e|] st2] eqn:Hu;
    simpl in Himg, Htags; try (rewrite Hsent; congruence).
  unfold kept in Hsent. split.
  - rewrite Hsent. simpl. congruence.
  - apply updatePostImages_inv in Hu as [->|[st3 Hr]].
    + by rewrite setContent_same.
    + by apply relayImages_body_only in Hr as [Hb _].
Qed.

(** ** An inline image that stands alone *)

Lemma sizeAnnotation_bracket_fails {A} r ch rest c (k : string -> captures -> option A) :
  Ascii.eqb "|" ch = false -> Ascii.eqb "]" ch = false ->
  rmatch (RSeq sizeAnnotation (RSeq (RChar "]") r)) (String ch rest) c k = None.
Proof.
  intros Hbar Hbr. rewrite rmatch_seq. unfold sizeAnnotation.
  rewrite rmatch_opt, rmatch_seq, rmatch_char_other by done.
  by rewrite rmatch_seq, rmatch_char_other.
Qed.

Lemma isAltChar_isPathChar alt :
  allChars isAltChar alt = true -> allChars isPathChar alt = true.
Proof.
  induction alt as [|b alt IH]; [done|]. simpl.
  intros [[[Hb _]%andb_prop _]%andb_prop Hs]%andb_prop. by rewrite Hb, IH.
Qed.

Lemma isTargetChar_not_terminator target :
  allChars isTargetChar target = true ->
  allChars (fun b => negb (isLineTerminator b)) target = true.
Proof.
  induction target as [|b target IH]; [done|]. simpl.
  intros [[[Hb _]%andb_prop _]%andb_prop Hs]%andb_prop. by rewrite Hb, IH.
Qed.

(** The inline pattern on an inline image: the alternative text, the
    annotation, the target and the whole text are captured, and the rest of
    the input is what follows it. *)
Lemma inlineImagePattern_match {A} alt a target post c
    (k : string -> captures -> option A) x :
  allChars isAltChar alt = true -> wellFormedSize a = true ->
  allChars isTargetChar target = true ->
  k post ((1, inlineText alt a target) :: (5, target)
            :: annotationCaptures a ++ (2, alt) :: c) = Some x ->
  rmatch inlineImagePattern (inlineText alt a target +:+ post) c k = Some x.
Proof.
  intros Halt Ha Htarget Hk. unfold inlineImagePattern, inlineText.
  rewrite rmatch_group.
  rewrite !append_assoc, !append_cons, !append_nil_l.
  rewrite rmatch_seq, rmatch_char_here, rmatch_seq, rmatch_char_here.
  rewrite rmatch_seq, rmatch_group, rmatch_lazy.
  apply lazyStar_dot.
  - by apply isPathChar_not_terminator, isAltChar_isPathChar.
  - intros b Hb Hs. pose proof (allChars_suffix _ _ _ Hs Halt) as Hbs.
    destruct b as [|ch b]; [done|]. simpl in Hbs.
    apply andb_prop in Hbs as [[[Hch _]%andb_prop _]%andb_prop _].
    unfold isPathChar, isNot in Hch.
    apply andb_prop in Hch as [[_ Hbar]%andb_prop Hbr].
    apply negb_true_iff in Hbar, Hbr.
    rewrite append_cons. by apply sizeAnnotation_bracket_fails.
  - cbv beta. rewrite consumed_app, rmatch_seq.
    apply sizeAnnotation_match; [done|].
    rewrite rmatch_seq, rmatch_char_here, rmatch_seq, rmatch_char_here.
    rewrite rmatch_seq, rmatch_group, rmatch_lazy.
    apply lazyStar_dot.
    + by apply isTargetChar_not_terminator.
    + intros b Hb Hs. pose proof (allChars_suffix _ _ _ Hs Htarget) as Hbs.
      destruct b as [|ch b]; [done|]. simpl in Hbs.
      apply andb_prop in Hbs as [[[_ Hp]%andb_prop _]%andb_prop _].
      unfold isNot in Hp. apply negb_true_iff in Hp.
      rewrite append_cons. by apply rmatch_char_other.
    + cbv beta. rewrite consumed_app, rmatch_char_here.
      replace (String "!" (String "["
                 (alt +:+ annotationText a +:+
                  String "]" (String "(" (target +:+ String ")" post)))))
        with (("![" +:+ alt +:+ annotationText a +:+ "](" +:+ target +:+ ")") +:+ post).
      * by rewrite consumed_app.
      * by rewrite !append_assoc.
    + rewrite length_append. lia.
  - rewrite length_append. lia.
Qed.

Lemma inlineImagePattern_startsWithBang : startsWithBang inlineImagePattern.
Proof.
  intros A b rest c k Hb. unfold inlineImagePattern.
  rewrite rmatch_group, rmatch_seq. cbn [rmatch]. by rewrite Hb.
Qed.

Lemma allChars_impl (P Q : ascii -> bool) s :
  (forall c, P c = true -> Q c = true) -> allChars P s = true -> allChars Q s = true.
Proof.
  intros H. induction s as [|c s IH]; [done|]. simpl.
  intros [Hc Hs]%andb_prop. by rewrite (H c Hc), IH.
Qed.

Lemma isDigit_not_bang c : isDigit c = true -> isNot "!" c = true.
Proof.
  intros Hc. unfold isNot. destruct (Ascii.eqb "!" c) eqn:He; [|done].
  apply Ascii.eqb_eq in He as <-. discriminate Hc.
Qed.

Lemma annotationText_no_bang a :
  wellFormedSize a = true -> allChars (isNot "!") (annotationText a) = true.
Proof.
  assert (forall w, isDigits w = true -> allChars (isNot "!") w = true) as Hd.
  { intros w [_ Hw]%andb_prop. revert Hw. apply allChars_impl, isDigit_not_bang. }
  intros Ha. destruct a as [|w|w h]; cbn [annotationText]; [done| |].
  - simpl in Ha. by rewrite allChars_app, (Hd w).
  - simpl in Ha. apply andb_prop in Ha as [Hw Hh].
    by rewrite !allChars_app, (Hd w), (Hd h).
Qed.

Lemma inlineText_nonempty alt a target post :
  exists n, String.length (inlineText alt a target +:+ post) = S n.
Proof. unfold inlineText. rewrite !append_cons. simpl. eauto. Qed.

(** No embed is found in a text whose only exclamation mark opens an inline
    image. *)
Lemma embedImagePattern_inline_none pre alt a target post pos :
  allChars (isNot "!") pre = true -> allChars (isNot "!") post = true ->
  allChars isAltChar alt = true -> wellFormedSize a = true ->
  allChars isTargetChar target = true ->
  execFrom embedImagePattern (pre +:+ inlineText alt a target +:+ post) pos = None.
Proof.
  intros Hpre Hpost Halt Ha Htarget.
  rewrite execFrom_skip by (done || apply embedImagePattern_startsWithBang).
  unfold inlineText. rewrite !append_assoc, !append_cons, !append_nil_l.
  cbn [execFrom].
  assert (forall B (k : string -> captures -> option B) c,
            rmatch embedImagePattern
              (String "!" (String "["
                 (alt +:+ annotationText a +:+
                  String "]" (String "(" (target +:+ String ")" post))))) c k = None)
    as ->.
  { intros B k c. unfold embedImagePattern.
    rewrite rmatch_group, rmatch_seq, rmatch_char_here, rmatch_seq, rmatch_char_here,
      rmatch_seq.
    destruct alt as [|ch alt].
    - rewrite append_nil_l.
      destruct a as [|w|w h]; cbn [annotationText];
        rewrite ?append_nil_l, ?append_cons; by apply rmatch_char_other.
    - rewrite append_cons. apply rmatch_char_other. simpl in Halt.
      apply andb_prop in Halt as [[_ Hbr]%andb_prop _].
      unfold isNot in Hbr. by apply negb_true_iff in Hbr. }
  apply execFrom_no_bang; [apply embedImagePattern_startsWithBang|done|].
  assert (allChars (isNot "!") alt = true) as Halt'.
  { revert Halt. apply allChars_impl. by intros ch [[_ Hc]%andb_prop _]%andb_prop. }
  assert (allChars (isNot "!") target = true) as Htarget'.
  { revert Htarget. apply allChars_impl. by intros ch [_ Hc]%andb_prop. }
  repeat (rewrite allChars_app || cbn [allChars]).
  rewrite Hpost, Halt', Htarget', (annotationText_no_bang a Ha). reflexivity.
Qed.

Section InlineAlone.

Context (isValidUrl : string -> bool).

(** The images of a text that holds one inline image and no other
    exclamation mark. *)
Lemma getImages_inline_alone pre alt a target post :
  allChars (isNot "!") pre = true -> allChars (isNot "!") post = true ->
  allChars isAltChar alt = true -> wellFormedSize a = true ->
  allChars isTargetChar target = true ->
  getImages isValidUrl (pre +:+ inlineText alt a target +:+ post) =
  [mkImage (inlineText alt a target) target (Some alt)
     (match a with NoSize => None | WidthOnly w | WidthHeight w _ => Some w end)
     (match a with WidthHeight _ h => Some h | _ => None end)
     (isValidUrl target) (String.length pre) (String.length pre + 6)].
Proof.
  intros Hpre Hpost Halt Ha Htarget. unfold getImages.
  assert (forall fuel pos,
            execAll fuel embedImagePattern (pre +:+ inlineText alt a target +:+ post) pos
            = []) as ->.
  { intros fuel pos. destruct fuel; [done|]. cbn [execAll].
    by rewrite embedImagePattern_inline_none. }
  rewrite app_nil_r, length_append.
  destruct (inlineText_nonempty alt a target post) as [n Hn]. rewrite Hn.
  rewrite Nat.add_succ_r. cbn [execAll].
  rewrite execFrom_skip by (done || apply inlineImagePattern_startsWithBang).
  assert (execFrom inlineImagePattern (inlineText alt a target +:+ post)
            (0 + String.length pre)
          = Some (mkMatch (0 + String.length pre) post
                    ((1, inlineText alt a target) :: (5, target)
                       :: annotationCaptures a ++ [(2, alt)]))) as ->.
  { destruct (inlineText alt a target +:+ post) as [|b rest] eqn:He; [done|].
    cbn [execFrom]. rewrite <- He.
    by rewrite (inlineImagePattern_match alt a target post [] _
                  (mkMatch (0 + String.length pre) post
                     ((1, inlineText alt a target) :: (5, target)
                        :: annotationCaptures a ++ [(2, alt)]))). }
  cbn [match_rest fmap list_fmap app].
  assert (forall fuel pos, execAll fuel inlineImagePattern post pos = []) as ->.
  { intros fuel pos. destruct fuel; [done|]. cbn [execAll].
    by rewrite execFrom_no_bang by (done || apply inlineImagePattern_startsWithBang). }
  unfold inlineImage, group. cbn [match_captures match_index].
  replace (capture 2 ((1, inlineText alt a target) :: (5, target)
                        :: annotationCaptures a ++ [(2, alt)]))
    with (Some alt) by (by destruct a).
  replace (capture 3 ((1, inlineText alt a target) :: (5, target)
                        :: annotationCaptures a ++ [(2, alt)]))
    with (match a with NoSize => None | WidthOnly w | WidthHeight w _ => Some w end)
    by (by destruct a).
  replace (capture 4 ((1, inlineText alt a target) :: (5, target)
                        :: annotationCaptures a ++ [(2, alt)]))
    with (match a with WidthHeight _ h => Some h | _ => None end)
    by (by destruct a).
  reflexivity.
Qed.

End InlineAlone.

(** X29.  An inline image that stands alone, with a local file, becomes an
    embed: when the text around it has no exclamation mark, the alternative text
    and the target are ones the inline pattern reads through, the file exists
    and the upload returns a URL without a dollar sign, the body handed on has
    the embed of that URL in place of the inline image, with the size annotation
    of the alternative text and without the alternative text itself. *)
Theorem updatePostImages_inline_alone env noteTitle pre alt a target post url decoded
    fileName imgFile postParams st :
  activeFile env = Some noteTitle -> hasActiveEditor env = true ->
  content postParams = pre +:+ inlineText alt a target +:+ post ->
  allChars (isNot "!") pre = true -> allChars (isNot "!") post = true ->
  allChars isAltChar alt = true -> wellFormedSize a = true ->
  allChars isTargetChar target = true ->
  isValidUrl env target = false ->
  decodeURI env target = inr decoded ->
  last (splitOn "/" decoded) = Some fileName ->
  getFirstLinkpathDest env decoded fileName = Some imgFile ->
  uploadMedia env (clock st) imgFile = inr (ResOK url) ->
  allChars (isNot "$") url = true ->
  fst (updatePostImages env postParams st)
  = Ok (setContent (pre +:+ embedText url a +:+ post) postParams).
Proof.
  intros Hfile Hed Hc Hpre Hpost Halt Ha Htarget Hurl Hdec Hlast Hdest Hup Hdollar.
  unfold updatePostImages. rewrite Hfile, Hed, Hc.
  rewrite getImages_inline_alone by done.
  unfold mbind, M_bind. cbn [relayImages srcIsUrl src original].
  rewrite Hurl, Hdec, Hlast, Hdest.
  unfold await, ask, mbind, M_bind. rewrite Hup. cbn [mret M_ret].
  rewrite remoteEmbed_embedText.
  assert (replace (content postParams) (inlineText alt a target) (embedText url a)
          = pre +:+ embedText url a +:+ post) as ->.
  { rewrite Hc.
    change (inlineText alt a target)
      with (String "!" ("[" +:+ alt +:+ annotationText a +:+ "](" +:+ target +:+ ")")).
    apply replace_after_plain; [done|]. by apply embedText_no_dollar. }
  by destruct (replaceMediaLinks env).
Qed.

Lemma updatePostImages_inline_alone_witness :
  fst (updatePostImages sampleEnv (setContent "a ![pic|300](cat.png) b" sampleParams)
         (sampleState false ∅ ""))
  = Ok (setContent "a ![[https://cdn.example.com/cat.png|300]] b" sampleParams).
Proof.
  apply (updatePostImages_inline_alone sampleEnv "note" "a " "pic" (WidthOnly "300")
           "cat.png" " b" "https://cdn.example.com/cat.png" "cat.png" "cat.png"
           "cat.png" (setContent "a ![pic|300](cat.png) b" sampleParams)
           (sampleState false ∅ ""));
    reflexivity.
Defined.

(** ** Categories at rest after a publish *)

Lemma bind_Ok_inv {A B} (m : M A) (k : A -> M B) st b st' :
  (m ≫= k) st = (Ok b, st') ->
  exists a st1, m st = (Ok a, st1) /\ k a st1 = (Ok b, st').
Proof.
  unfold mbind, M_bind. destruct (m st) as [[a|e|] st1]; [|done|done].
  intros H. by exists a, st1.
Qed.

Lemma bind_run {A B} (m : M A) (k : A -> M B) st a st1 :
  m st = (Ok a, st1) -> (m ≫= k) st = k a st1.
Proof. intros H. unfold mbind, M_bind. by rewrite H. Qed.

(** What a successful [tryToPublish] has done: the request went out with the
    categories and the post id it was given, the two lists of names were
    computed, the first from the categories of the request and the second
    from the block as it was before the attempt, and the block at the end is
    what [mergeFrontMatter] makes of the old one with these lists. *)
Lemma tryToPublish_success_inv env p cb o st data st' :
  tryToPublish env p cb o st = (Ok (ResOK data), st') ->
  exists basename sent s1 cn1 s2 cn2 s3,
    activeFile env = Some basename /\
    categories sent = categories p /\
    postId sent = postId p /\
    fileFrontMatter s1 = fileFrontMatter st /\
    namesForNewPost env (categories p) s1 = (Ok cn1, s2) /\
    namesForExisting env (fileFrontMatter st) s2 = (Ok cn2, s3) /\
    mergeFrontMatter
      (mkMergeInputs (profile_name env) (profile_endpoint env) basename
         (res_postId data) (res_postUrl data) sent cn1 cn2 cn1 o cb)
      (fileFrontMatter st) = inr (fileFrontMatter st').
Proof.
  intros H. unfold tryToPublish in H.
  apply bind_Ok_inv in H as (tagTerms & sa & Htags & H). cbv zeta in H.
  apply bind_Ok_inv in H as (sent & sb & Himg & H).
  apply bind_Ok_inv in H as ([] & sc & Hmod & H).
  apply bind_Ok_inv in H as (result & sd & Hpub & H).
  destruct result as [data'|code message]; [|done].
  apply bind_Ok_inv in H as ([] & se & Hnote & H).
  apply bind_Ok_inv in H as ([] & sf & Hwrite & H).
  apply bind_Ok_inv in H as ([] & sg & Hrem & H).
  injection H as <- <-.
  destruct (activeFile env) as [basename|] eqn:Hfile.
  2: { unfold updatePostImages in Himg. by rewrite Hfile in Himg. }
  apply bind_Ok_inv in Hwrite as (cn1 & s2 & Hcn1 & Hwrite).
  apply bind_Ok_inv in Hwrite as (cur & s2' & Hcur & Hwrite).
  apply bind_Ok_inv in Hwrite as (cn2 & s3 & Hcn2 & Hwrite).
  injection Hcur as <- <-.
  assert (categories sent = categories p /\ postId sent = postId p) as [Hc Hi].
  { apply updatePostImages_inv in Himg as [->|[s Hr]]; [done|].
    apply relayImages_body_only in Hr as [-> _]. done. }
  assert (fileFrontMatter se = fileFrontMatter st) as Hse.
  { pose proof (steps_getTags env (tags p) st) as H1. rewrite Htags in H1.
    pose proof (steps_updatePostImages env
                  (setTags (VArr ((fun term => VStr (term_id term)) <$> tagTerms)) p) sa)
      as H2.
    rewrite Himg in H2.
    injection Hmod as <-. injection Hnote as <-.
    unfold await, ask, mbind, M_bind in Hpub.
    destruct (publish env _ _ _ _) as [e|r]; [done|]. injection Hpub as _ <-.
    unfold frontMatterKept in *. simpl in *. congruence. }
  assert (fileFrontMatter s2 = fileFrontMatter se) as Hs2.
  { destruct (categories sent) as [|x rest]; [by injection Hcn1 as _ <-|].
    pose proof (steps_tryConvertIdsToNames env (x :: rest) se) as H1.
    by rewrite Hcn1 in H1. }
  assert (fileFrontMatter s3 = fileFrontMatter s2) as Hs3.
  { simpl in Hcn2.
    destruct (nonEmptyArray _) as [[|x rest]|]; try by injection Hcn2 as _ <-.
    destruct (isNumber x); [|by injection Hcn2 as _ <-].
    pose proof (steps_tryConvertIdsToNames env (x :: rest) s2) as H1.
    by rewrite Hcn2 in H1. }
  assert (fileFrontMatter sg = fileFrontMatter sf) as Hsg.
  { destruct (truthy _ && _); [|by injection Hrem as <-].
    pose proof (steps_rememberCategories env data' sf) as H1. by rewrite Hrem in H1. }
  exists basename, sent, se, cn1, s2, cn2, s3.
  split_and!; try done.
  - unfold namesForNewPost. by rewrite <- Hc.
  - unfold namesForExisting. simpl in Hcn2. by rewrite <- Hse, <- Hs2.
  - unfold processFrontMatter, mbind, M_bind, getState, modify, throw in Hwrite.
    rewrite Hsg, <- Hse, <- Hs2, <- Hs3.
    destruct (mergeFrontMatter _ (fileFrontMatter s3)) as [e|fm'] eqn:Hm; [done|].
    by injection Hwrite as <-.
Qed.

(** After a successful [tryToPublish] the block is what the built-in merge,
    followed by the caller's update, makes of the block before the attempt;
    the merge is given the names computed from the categories of the request
    and from the numbers of the block, and stores accordingly. *)
Lemma tryToPublish_stores_categories :
  forall env postParams updateMatterData originalTagNames st data st',
     tryToPublish env postParams updateMatterData originalTagNames st
       = (Ok (ResOK data), st') ->
     exists basename sent s1 newNames s2 existingNames s3 fm',
       activeFile env = Some basename /\
       categories sent = categories postParams /\
       fileFrontMatter s1 = fileFrontMatter st /\
       namesForNewPost env (categories postParams) s1 = (Ok newNames, s2) /\
       namesForExisting env (fileFrontMatter st) s2 = (Ok existingNames, s3) /\
       mergePolicy
         (mkMergeInputs (profile_name env) (profile_endpoint env) basename
            (res_postId data) (res_postUrl data) sent
            newNames existingNames newNames originalTagNames updateMatterData)
         (fileFrontMatter st) = inr fm' /\
       thenUpdate updateMatterData fm' = inr (fileFrontMatter st') /\
       (forall x rest a s, categories postParams = x :: rest ->
          getAuth env s1 = (Ok a, s) ->
          fm' !! "wp_categories" =
            Some (names (categoryNamesOfIds (engine env) (getCategories env (clock s))
                           (Some (x :: rest))))) /\
       (forall x rest a s, categories postParams = [] ->
          nonEmptyArray (prop (fileFrontMatter st) "wp_categories") = Some (x :: rest) ->
          isNumber x = true ->
          getAuth env s2 = (Ok a, s) ->
          fm' !! "wp_categories" =
            Some (names (categoryNamesOfIds (engine env) (getCategories env (clock s))
                           (Some (x :: rest))))) /\
       (forall x rest e s, categories postParams = x :: rest ->
          getAuth env s1 = (Throw e, s) -> existingNames = None ->
          fm' !! "wp_categories" = Some (VArr (x :: rest))) /\
       (categories postParams = [] -> existingNames = None ->
        fm' !! "wp_categories" = fileFrontMatter st !! "wp_categories").
Proof.
  intros env p cb o st data st' H.
  apply tryToPublish_success_inv in H
    as (basename & sent & s1 & cn1 & s2 & cn2 & s3 & Hfile & Hc & _ & Hs1 & Hcn1 & Hcn2 & Hm).
  unfold mergeFrontMatter in Hm.
  destruct (mergePolicy _ (fileFrontMatter st)) as [e|fm'] eqn:Hp; [done|].
  exists basename, sent, s1, cn1, s2, cn2, s3, fm'.
  split_and!; try done.
  - intros x rest a s Hx Ha. rewrite (mergePolicy_categories _ _ _ Hp).
    unfold namesForNewPost in Hcn1. rewrite Hx in Hcn1.
    rewrite (tryConvertIdsToNames_runs _ _ _ _ _ Ha) in Hcn1. injection Hcn1 as <- _.
    unfold mergeCategories. simpl. apply lookup_insert_eq.
  - intros x rest a s Hx Hn Hnum Ha. rewrite (mergePolicy_categories _ _ _ Hp).
    unfold namesForNewPost in Hcn1. rewrite Hx in Hcn1. injection Hcn1 as <- <-.
    unfold namesForExisting in Hcn2. rewrite Hn, Hnum in Hcn2.
    rewrite (tryConvertIdsToNames_runs _ _ _ _ _ Ha) in Hcn2. injection Hcn2 as <- _.
    unfold mergeCategories. simpl. apply lookup_insert_eq.
  - intros x rest e s Hx Ha ->. rewrite (mergePolicy_categories _ _ _ Hp).
    unfold namesForNewPost in Hcn1. rewrite Hx in Hcn1.
    rewrite (tryConvertIdsToNames_fails _ _ _ _ _ Ha) in Hcn1. injection Hcn1 as <- _.
    unfold mergeCategories. simpl. rewrite Hc, Hx. apply lookup_insert_eq.
  - intros Hx ->. rewrite (mergePolicy_categories _ _ _ Hp).
    unfold namesForNewPost in Hcn1. rewrite Hx in Hcn1. injection Hcn1 as <- _.
    unfold mergeCategories. simpl. rewrite Hc, Hx.
    destruct (prop (fileFrontMatter st) "wp_categories") eqn:Hpr; rewrite ?lookup_insert_eq;
      try (symmetry; by apply prop_lookup).
    rewrite mergePostType_other, mergeUrl_other by done.
    unfold mergeProfile. by rewrite lookup_insert_ne.
Qed.

(** C4, as the code has it.  The merge stores names whenever a list of
    names was computed in the attempt, and that is whenever the request
    carried categories (or the block held numbers) and the credentials could
    be had again for the conversion.  Without such a list the ids of the
    request are stored as they are, and without categories in the request
    the field is as it was.  The last part is about [tryToPublish] itself:
    after a successful publish the block is what the built-in merge, followed
    by the caller's update, makes of the block before the attempt, and the
    merge is given the names that [tryConvertIdsToNames] computed from the
    categories of the request and from the numbers of the block; so the merge
    stores the names of the request's categories when the credentials are had
    at that moment, the names for the stored numbers when the request has no
    categories, the ids of the request as they are when the credentials
    cannot be had, and what was there when the request has no categories and
    no names were computed.  In particular, when the
    credentials can always be had and the request carries categories, what
    the merge stores is a list of names. *)
Theorem merge_stores_converted_category_names :
  (forall i fm,
     originalTagNames i <> VNull -> tags (mi_postParams i) <> VNull ->
     exists fm',
       mergePolicy i fm = inr fm' /\
       (forall l, categoryNamesForNewPost i = Some l ->
          fm' !! "wp_categories" = Some (names l) /\ isNameForm (names l) = true) /\
       (forall l, categoryNamesForNewPost i = None ->
          categoryNamesForExisting i = Some l ->
          fm' !! "wp_categories" = Some (names l) /\ isNameForm (names l) = true) /\
       (categoryNamesForNewPost i = None -> categoryNamesForExisting i = None ->
        categoryNamesForUpdate i = None ->
        forall x rest, categories (mi_postParams i) = x :: rest ->
          fm' !! "wp_categories" = Some (VArr (x :: rest))) /\
       (categoryNamesForNewPost i = None -> categoryNamesForExisting i = None ->
        categoryNamesForUpdate i = None -> categories (mi_postParams i) = [] ->
        fm' !! "wp_categories" = fm !! "wp_categories")) /\
  (forall env ids st a st1,
     getAuth env st = (Ok a, st1) ->
     exists l st2, tryConvertIdsToNames env ids st = (Ok (Some l), st2)) /\
  (forall env ids st e st1,
     getAuth env st = (Throw e, st1) ->
     tryConvertIdsToNames env ids st = (Ok None, st1)) /\
  (forall env postParams updateMatterData originalTagNames st data st',
     tryToPublish env postParams updateMatterData originalTagNames st
       = (Ok (ResOK data), st') ->
     exists basename sent s1 newNames s2 existingNames s3 fm',
       activeFile env = Some basename /\
       categories sent = categories postParams /\
       fileFrontMatter s1 = fileFrontMatter st /\
       namesForNewPost env (categories postParams) s1 = (Ok newNames, s2) /\
       namesForExisting env (fileFrontMatter st) s2 = (Ok existingNames, s3) /\
       mergePolicy
         (mkMergeInputs (profile_name env) (profile_endpoint env) basename
            (res_postId data) (res_postUrl data) sent
            newNames existingNames newNames originalTagNames updateMatterData)
         (fileFrontMatter st) = inr fm' /\
       thenUpdate updateMatterData fm' = inr (fileFrontMatter st') /\
       (forall x rest a s, categories postParams = x :: rest ->
          getAuth env s1 = (Ok a, s) ->
          fm' !! "wp_categories" =
            Some (names (categoryNamesOfIds (engine env) (getCategories env (clock s))
                           (Some (x :: rest))))) /\
       (forall x rest a s, categories postParams = [] ->
          nonEmptyArray (prop (fileFrontMatter st) "wp_categories") = Some (x :: rest) ->
          isNumber x = true ->
          getAuth env s2 = (Ok a, s) ->
          fm' !! "wp_categories" =
            Some (names (categoryNamesOfIds (engine env) (getCategories env (clock s))
                           (Some (x :: rest))))) /\
       (forall x rest e s, categories postParams = x :: rest ->
          getAuth env s1 = (Throw e, s) -> existingNames = None ->
          fm' !! "wp_categories" = Some (VArr (x :: rest))) /\
       (categories postParams = [] -> existingNames = None ->
        fm' !! "wp_categories" = fileFrontMatter st !! "wp_categories")) /\
  (forall env postParams updateMatterData originalTagNames st data st' x rest,
     tryToPublish env postParams updateMatterData originalTagNames st
       = (Ok (ResOK data), st') ->
     categories postParams = x :: rest ->
     (forall s, exists a s', getAuth env s = (Ok a, s')) ->
     exists fm' t,
       thenUpdate updateMatterData fm' = inr (fileFrontMatter st') /\
       fm' !! "wp_categories" =
         Some (names (categoryNamesOfIds (engine env) (getCategories env t)
                        (Some (x :: rest)))) /\
       isNameForm (names (categoryNamesOfIds (engine env) (getCategories env t)
                            (Some (x :: rest)))) = true).
Proof.
  split_and!.
  - intros i fm Ho Ht. destruct (mergePolicy_returns i fm Ho Ht) as [fm' Hm].
    exists fm'. split; [done|].
    rewrite (mergePolicy_categories _ _ _ Hm). unfold mergeCategories.
    split_and!.
    + intros l ->. split; [apply lookup_insert_eq|apply names_isNameForm].
    + intros l -> ->. split; [apply lookup_insert_eq|apply names_isNameForm].
    + intros -> -> -> x rest ->. apply lookup_insert_eq.
    + intros -> -> -> ->.
      destruct (prop fm "wp_categories") eqn:Hp; rewrite ?lookup_insert_eq;
        try (symmetry; by apply prop_lookup).
      rewrite mergePostType_other, mergeUrl_other by done.
      unfold mergeProfile. by rewrite lookup_insert_ne.
  - intros env ids st a st1 H. eexists _, _.
    by apply (tryConvertIdsToNames_runs env ids st a st1).
  - intros env ids st e st1 H. by eapply tryConvertIdsToNames_fails.
  - exact tryToPublish_stores_categories.
  - intros env p cb o st data st' x rest H Hx Hauth.
    destruct (tryToPublish_stores_categories env p cb o st data st' H)
      as (basename & sent & s1 & cn1 & s2 & cn2 & s3 & fm' & _ & _ & _ & _ & _ & _ &
          Hu & Hnew & _).
    destruct (Hauth s1) as (a & s & Ha).
    exists fm', (clock s). split; [exact Hu|].
    split; [exact (Hnew x rest a s Hx Ha)|apply names_isNameForm].
Qed.

Lemma merge_stores_converted_category_names_witness :
  (originalTagNames sampleMergeInputs <> VNull /\
   tags (mi_postParams sampleMergeInputs) <> VNull /\
   categoryNamesForNewPost sampleMergeInputs = Some ["News"] /\
   exists fm',
     mergePolicy sampleMergeInputs {["wp_categories" := VArr [VNum (Num 3)]]}
       = inr fm' /\
     fm' !! "wp_categories" = Some (VArr [VStr "News"])) /\
  (exists data st',
     tryToPublish sampleEnv (setCategories [VNum (Num 3)] sampleParams) None (VArr [])
       (sampleState false {["wp_categories" := VArr [VNum (Num 7)]]} "body")
     = (Ok (ResOK data), st') /\
     fileFrontMatter st' !! "wp_categories" = Some (VArr [VStr "News"])).
Proof.
  split.
  - split; [discriminate|]. split; [discriminate|]. split; [reflexivity|].
    destruct (proj1 merge_stores_converted_category_names sampleMergeInputs
                {["wp_categories" := VArr [VNum (Num 3)]]})
      as (fm' & Hm & Hnew & _); [discriminate|discriminate|].
    exists fm'. split; [exact Hm|]. exact (proj1 (Hnew ["News"] eq_refl)).
  - assert (exists data st',
              tryToPublish sampleEnv (setCategories [VNum (Num 3)] sampleParams) None
                (VArr []) (sampleState false {["wp_categories" := VArr [VNum (Num 7)]]} "body")
              = (Ok (ResOK data), st')) as (data & st' & H).
    { eexists _, _. vm_compute. reflexivity. }
    exists data, st'. split; [exact H|].
    destruct (proj2 (proj2 (proj2 (proj2 merge_stores_converted_category_names)))
                _ _ _ _ _ _ _ (VNum (Num 3)) [] H eq_refl)
      as (fm' & t & Hu & Hcat & _).
    { intros s. eexists _, _. reflexivity. }
    injection Hu as <-. rewrite Hcat. reflexivity.
Defined.

(** C4, as stated, fails: the stored credentials are accepted when the
    attempt starts and refused afterwards, the publish succeeds, and the
    block ends with the numeric id it had. *)
Lemma publish_can_store_category_ids :
  (exists data,
     fst (publishPost expiringEnv None
            (sampleState false
               {["wp_url" := VStr "https://example.com/?p=42";
                 "wp_categories" := VArr [VNum (Num 3)]]} "body"))
     = Ok (ResOK data)) /\
  prop (fileFrontMatter
          (snd (publishPost expiringEnv None
                  (sampleState false
                     {["wp_url" := VStr "https://example.com/?p=42";
                       "wp_categories" := VArr [VNum (Num 3)]]} "body"))))
    "wp_categories" = VArr [VNum (Num 3)] /\
  isNameForm (VArr [VNum (Num 3)]) = false.
Proof. split; [eexists|split]; vm_compute; reflexivity. Qed.

(** ** The post id after a profile switch *)

Global Instance sendsOnly_preorder P : PreOrder (sendsOnly P).
Proof.
  split.
  - intros st. exists []. by rewrite app_nil_r.
  - intros a b c (n1 & H1 & F1) (n2 & H2 & F2). exists (n1 ++ n2).
    split; [by rewrite H2, H1, app_assoc|by apply Forall_app].
Qed.

Lemma sendsOnly_kept P st st' : kept published st st' -> sendsOnly P st st'.
Proof. unfold kept. intros H. exists []. by rewrite app_nil_r. Qed.

Lemma steps_sendsOnly_kept {A} P (m : M A) :
  steps (kept published) m -> steps (sendsOnly P) m.
Proof. intros H st. apply sendsOnly_kept, H. Qed.

(** A continuation runs on what the first part can return. *)
Lemma steps_bind_yield {A B} (R : State -> State -> Prop) `{!PreOrder R}
    (Q : A -> Prop) (m : M A) (k : A -> M B) :
  steps R m -> (forall st a st', m st = (Ok a, st') -> Q a) ->
  (forall a, Q a -> steps R (k a)) -> steps R (m ≫= k).
Proof.
  intros Hm HQ Hk st. unfold mbind, M_bind. specialize (Hm st). specialize (HQ st).
  destruct (m st) as [[a|e|] st1]; simpl in *; [|done|done].
  etrans; [exact Hm|]. apply Hk. by eapply HQ.
Qed.

Section Sends.

Context (env : Env) (P : PostParams -> Prop).

(** [tryToPublish] sends one request at most, which is the one it was given
    but for the tags and the body. *)
Lemma sends_tryToPublish p cb o :
  (forall sent, sameTarget sent p -> P sent) ->
  steps (sendsOnly P) (tryToPublish env p cb o).
Proof.
  intros HP st.
  pose proof (kept_tryToPublish_sent env published ltac:(done) ltac:(done)
                ltac:(auto) ltac:(auto) p cb o st) as Hsent.
  pose proof (kept_getTags env published ltac:(done) (tags p) st) as Htags.
  destruct (getTags env (tags p) st) as [[tagTerms|e|] st1];
    try (rewrite Hsent; by apply sendsOnly_kept).
  pose proof (kept_updatePostImages env published ltac:(done) ltac:(done) ltac:(auto)
                (setTags (VArr ((fun term => VStr (term_id term)) <$> tagTerms)) p) st1)
    as Himg.
  destruct (updatePostImages env _ st1) as [[sent|e|] st2] eqn:Hu;
    try (rewrite Hsent; apply sendsOnly_kept; by etrans).
  exists [sent]. unfold kept in *. simpl in *. rewrite Hsent, Himg, Htags.
  split; [done|]. constructor; [|done]. apply HP.
  apply updatePostImages_inv in Hu as [->|[s Hr]]; [done|].
  apply relayImages_body_only in Hr as [-> _]. done.
Qed.

Lemma readFromFrontMatter_postId noteTitle matterData params st postParams st' :
  truthy (prop matterData "wp_url") = false ->
  readFromFrontMatter env noteTitle matterData params st = (Ok postParams, st') ->
  postId postParams = postId params.
Proof.
  intros Hurl H. unfold readFromFrontMatter in H.
  apply bind_Ok_inv in H as (header & s1 & Hh & H).
  destruct (readHeaderFromFrontMatter_returns env noteTitle matterData params st)
    as (header' & s1' & Hh' & _ & _ & _ & Hno & _).
  rewrite Hh in Hh'. injection Hh' as <- <-. destruct (Hno Hurl) as [<- _].
  destruct (strictEqStr _ _); [|by injection H as <-].
  apply bind_Ok_inv in H as (p1 & s2 & Hc & H).
  assert (postId p1 = postId header) as <-.
  { destruct (prop matterData "wp_categories") eqn:Hp;
      try (apply categoriesFromFrontMatter_header in Hc; by injection Hc);
      by injection Hc as <-. }
  destruct (prop matterData "wp_tags"); by injection H as <-.
Qed.

(** The categories of a request for a post, when the metadata holds a
    selection: the ids that its names resolve to, or the selection itself
    when it does not start with a name. *)
Lemma readFromFrontMatter_selection noteTitle matterData selection params st
    postParams st' :
  prop matterData "wp_categories" = VArr selection -> selection <> [] ->
  readFromFrontMatter env noteTitle matterData params st = (Ok postParams, st') ->
  strictEqStr (postType postParams) PostTypeConst_Post = true ->
  fromSelection env selection postParams.
Proof.
  intros Hsel Hne H Hpost. unfold readFromFrontMatter in H.
  apply bind_Ok_inv in H as (header & s1 & Hh & H).
  destruct (strictEqStr (postType header) PostTypeConst_Post) eqn:Hh'.
  2: { injection H as <- <-. by rewrite Hh' in Hpost. }
  apply bind_Ok_inv in H as (p1 & s2 & Hc & H). rewrite Hsel in Hc.
  assert (fromSelection env selection p1) as Hp1.
  { unfold categoriesFromFrontMatter in Hc. unfold fromSelection.
    destruct selection as [|x rest]; [done|]. cbn [nonEmptyArray] in Hc.
    destruct (firstIsString (x :: rest)); [|by injection Hc as <-].
    unfold mbind, M_bind in Hc.
    destruct (getAuth env s1) as [[a|e|] s1']; try done.
    rewrite convertCategoryNamesToIds_run in Hc. injection Hc as <- _.
    by exists (clock s1'). }
  unfold fromSelection in *.
  destruct (prop matterData "wp_tags"); by injection H as <-.
Qed.

Lemma sends_publishModal noteTitle fileContent matterData submissions :
  (forall p cb st p' st' sent,
     (p, cb) ∈ submissions ->
     readFromFrontMatter env noteTitle matterData p st = (Ok p', st') ->
     sameTarget sent p' -> P sent) ->
  steps (sendsOnly P) (publishModal env noteTitle fileContent matterData submissions).
Proof.
  induction submissions as [|[p cb] rest IH]; intros HP.
  - simpl. apply steps_pending. apply _.
  - cbn [publishModal]. apply steps_bind; [apply _| |].
    + apply steps_tryCatch; [apply _| |intros e; apply steps_ret; apply _].
      apply (steps_bind_yield _
               (fun p' => exists st st',
                  readFromFrontMatter env noteTitle matterData p st = (Ok p', st'))).
      * apply steps_sendsOnly_kept.
        by apply (kept_readFromFrontMatter env published).
      * intros st a st' Hr. by exists st, st'.
      * intros p' (st & st' & Hr). cbv zeta.
        apply steps_tryCatch; [apply _| |].
        -- apply steps_bind; [apply _| |intros r; apply steps_ret; apply _].
           apply sends_tryToPublish. intros sent Hs.
           apply (HP p cb st p' st'); [left|done|exact Hs].
        -- intros [m|v]; [|apply steps_throw; apply _].
           apply steps_bind; [apply _| |intros r; apply steps_ret; apply _].
           apply steps_sendsOnly_kept. by apply (kept_showError published).
    + intros [[data|c m]|]; try apply steps_ret; try apply _;
        apply IH; intros p0 cb0 st p' st' sent Hin; apply (HP p0 cb0); by right.
Qed.

End Sends.

Lemma mismatch_hasWpKey env matterData :
  isProfileNameMismatch env matterData = true -> hasWpKey matterData = true.
Proof.
  unfold isProfileNameMismatch, hasWpKey, prop. intros [Ht _]%andb_true_iff.
  destruct (matterData !! "wp_profile") as [v|] eqn:Hv; [|done].
  apply existsb_exists. exists ("wp_profile", v). split; [|done].
  apply list_elem_of_In. by apply elem_of_map_to_list.
Qed.

(** The attempt after the switch: what is sent is what [readFromFrontMatter]
    makes of the caller's parameters and of the metadata without [wp_url] and
    with the selection of the profile. *)
Lemma sends_publishPostBody_switch env P defaultPostParams st :
  isProfileNameMismatch env (fileFrontMatter st) = true ->
  (forall t, openConfirmModal env t = Confirm) ->
  (forall noteTitle p st0 p' st' sent,
     p ∈ callerParams env defaultPostParams ->
     readFromFrontMatter env noteTitle (switchedMatter st) p st0 = (Ok p', st') ->
     sameTarget sent p' -> P sent) ->
  sendsOnly P st (snd (publishPostBody env defaultPostParams st)).
Proof.
  intros Hm Hc HP. unfold publishPostBody.
  match goal with
  | |- context [(getState ≫= ?k) st] => change ((getState ≫= k) st) with (k st st)
  end.
  cbv beta. destruct (publishInProgress st); [reflexivity|].
  match goal with
  | |- context [(modify ?g ≫= ?k) st] =>
      change ((modify g ≫= k) st) with (k tt (g st))
  end.
  cbv beta.
  destruct (negb (nonEmpty (profile_endpoint env))); [by apply sendsOnly_kept|].
  destruct (activeFile env) as [noteTitle|]; [|by apply sendsOnly_kept].
  pose proof (kept_getAuth env published ltac:(done) ltac:(done) (setInProgress true st))
    as Hpub.
  pose proof (kept_getAuth env fileFrontMatter ltac:(done) ltac:(done)
                (setInProgress true st)) as Hfm.
  pose proof (kept_getAuth env lastSelectedCategories ltac:(done) ltac:(done)
                (setInProgress true st)) as Hsel.
  unfold mbind at 1, M_bind at 1.
  destruct (getAuth env (setInProgress true st)) as [[a|e|] s1];
    try by apply sendsOnly_kept.
  unfold kept in Hpub, Hfm, Hsel. simpl in Hpub, Hfm, Hsel.
  match goal with
  | |- context [(processFile ≫= ?k) s1] =>
      change ((processFile ≫= k) s1) with (k (fileBody s1, fileFrontMatter s1) s1)
  end.
  cbv beta.
  match goal with
  | |- context [(getState ≫= ?k) s1] => change ((getState ≫= k) s1) with (k s1 s1)
  end.
  cbn beta iota delta [fst snd]. rewrite Hfm, (mismatch_hasWpKey _ _ Hm).
  cbn [negb andb]. rewrite andb_false_r.
  match goal with
  | |- context [(mret ?x ≫= ?k) s1] => change ((mret x ≫= k) s1) with (k x s1)
  end.
  cbv beta.
  assert (checkExistingProfile env (fileFrontMatter st) s1 =
          (Ok (switchedMatter st), tickClock s1)) as Hrun.
  { unfold checkExistingProfile, mbind, M_bind, ask, getState.
    rewrite Hm, Hc. unfold switchedMatter, profileCategories. simpl. by rewrite Hsel. }
  rewrite (bind_run _ _ _ _ _ Hrun).
  assert (hasExistingPost (switchedMatter st) = false) as ->.
  { unfold hasExistingPost, prop, switchedMatter.
    by rewrite lookup_insert_ne, lookup_delete_eq. }
  rewrite orb_false_r.
  etrans; [apply (sendsOnly_kept P st (tickClock s1)); exact Hpub|].
  match goal with
  | |- sendsOnly P ?s (snd (?m ?s)) => cut (steps (sendsOnly P) m); [intros Hs; apply Hs|]
  end.
  destruct defaultPostParams as [p|]; simpl.
  - apply steps_bind; [apply _| |intros ids].
    { apply steps_sendsOnly_kept. by apply (kept_selectedCategoryIds env published). }
    apply (steps_bind_yield _
             (fun p' => exists st0 st',
                readFromFrontMatter env noteTitle (switchedMatter st) p st0 = (Ok p', st'))).
    + apply steps_sendsOnly_kept. by apply (kept_readFromFrontMatter env published).
    + intros s0 a0 s0' Hr. by exists s0, s0'.
    + intros p' (s0 & s0' & Hr). apply sends_tryToPublish. intros sent Hs.
      apply (HP noteTitle p s0 p' s0'); [by left|done|exact Hs].
  - apply steps_bind; [apply _| |intros ?].
    { apply steps_sendsOnly_kept. by apply (@kept_await _ published). }
    apply steps_bind; [apply _| |intros ?].
    { apply steps_sendsOnly_kept. by apply (kept_selectedCategoryIds env published). }
    apply steps_bind; [apply _| |intros ?].
    { apply steps_sendsOnly_kept. by apply (@kept_await _ published). }
    apply sends_publishModal.
    intros p cb s0 p' s0' sent Hin Hr Hs. apply (HP noteTitle p s0 p' s0'); [|done..].
    unfold callerParams. apply list_elem_of_fmap. by exists (p, cb).
Qed.

Lemma sends_publishPost_switch env P defaultPostParams st :
  isProfileNameMismatch env (fileFrontMatter st) = true ->
  (forall t, openConfirmModal env t = Confirm) ->
  (forall noteTitle p st0 p' st' sent,
     p ∈ callerParams env defaultPostParams ->
     readFromFrontMatter env noteTitle (switchedMatter st) p st0 = (Ok p', st') ->
     sameTarget sent p' -> P sent) ->
  sendsOnly P st (snd (publishPost env defaultPostParams st)).
Proof.
  intros Hm Hc HP.
  pose proof (sends_publishPostBody_switch env P defaultPostParams st Hm Hc HP) as Hb.
  unfold publishPost, tryFinally, tryCatch.
  destruct (publishPostBody env defaultPostParams st) as [[r|[m|v]|] s1]; simpl in *;
    (etrans; [exact Hb|]; by apply sendsOnly_kept).
Qed.

Lemma profileCategories_nonempty st selection :
  profileCategories st = VArr selection -> selection <> [].
Proof.
  unfold profileCategories.
  destruct (lastSelectedCategories st) as [[|x rest]|]; by intros [= <-].
Qed.

(** C9, as the code has it.  When the stored profile name is another one and
    the user takes the new profile, the metadata in memory loses [wp_url] and
    gets the profile's last selection (or [[1]]) as categories; the attempt
    is then not an update, and the request built from this metadata has no
    post id but the one the caller gave.  For [publishPost] as a whole: every
    request that the attempt sends carries the post id of the parameters
    given from outside, those passed to [publishPost] or those of a
    submission of the modal, and, when it is for a post, the categories that
    the selection of the profile gives, whatever categories the note had;
    when the parameters from outside carry no post id, every request sent is
    one that creates a post. *)
Theorem profile_switch_makes_create :
  (forall env matterData st,
     isProfileNameMismatch env matterData = true ->
     openConfirmModal env (clock st) = Confirm ->
     exists matterData',
       checkExistingProfile env matterData st = (Ok matterData', tickClock st) /\
       matterData' !! "wp_url" = None /\
       matterData' !! "wp_categories" =
         Some (match lastSelectedCategories st with
               | Some (x :: rest) => VArr (x :: rest)
               | _ => VArr [VNum (Num 1)]
               end) /\
       hasExistingPost matterData' = false /\
       (forall noteTitle params st1,
          exists header,
            readHeaderFromFrontMatter env noteTitle matterData' params st1
              = (Ok header, st1) /\
            postId header = postId params)) /\
  (forall env defaultPostParams st selection,
     isProfileNameMismatch env (fileFrontMatter st) = true ->
     (forall t, openConfirmModal env t = Confirm) ->
     profileCategories st = VArr selection ->
     exists new,
       published (snd (publishPost env defaultPostParams st)) = published st ++ new /\
       Forall (fun sent =>
                 (exists postParams,
                    postParams ∈ callerParams env defaultPostParams /\
                    postId sent = postId postParams) /\
                 (strictEqStr (postType sent) PostTypeConst_Post = true ->
                  fromSelection env selection sent)) new) /\
  (forall env defaultPostParams st,
     isProfileNameMismatch env (fileFrontMatter st) = true ->
     (forall t, openConfirmModal env t = Confirm) ->
     Forall (fun postParams => postId postParams = None)
       (callerParams env defaultPostParams) ->
     exists new,
       published (snd (publishPost env defaultPostParams st)) = published st ++ new /\
       Forall (fun sent => postId sent = None) new).
Proof.
  assert (forall st, truthy (prop (switchedMatter st) "wp_url") = false) as Hurl.
  { intros st. unfold prop, switchedMatter.
    by rewrite lookup_insert_ne, lookup_delete_eq. }
  split_and!.
  - intros env matterData st Hm Hc. eexists. split.
    { unfold checkExistingProfile, mbind, M_bind, ask, getState.
      rewrite Hm, Hc. reflexivity. }
    assert (forall v, prop (<["wp_categories" := v]> (delete "wp_url" matterData))
                        "wp_url" = VUndef) as Hprop.
    { intros v. unfold prop. by rewrite lookup_insert_ne, lookup_delete_eq. }
    split_and!.
    + by rewrite lookup_insert_ne, lookup_delete_eq.
    + by rewrite lookup_insert_eq.
    + unfold hasExistingPost. by rewrite Hprop.
    + intros noteTitle params st1.
      destruct (readHeaderFromFrontMatter_returns env noteTitle
                  (<["wp_categories" := profileCategories (tickClock st)]>
                     (delete "wp_url" matterData)) params st1)
        as (header & st' & Hr & _ & _ & _ & Hno & _).
      destruct Hno as [Hid ->]; [by rewrite Hprop|].
      exists header. by split.
  - intros env d st selection Hm Hc Hsel. apply sends_publishPost_switch; [done..|].
    intros noteTitle p st0 p' st' sent Hin Hr (Hid & Hty & Hcat). split.
    + exists p. split; [done|]. rewrite Hid.
      by apply (readFromFrontMatter_postId env noteTitle (switchedMatter st) p st0 p' st').
    + rewrite Hty. intros Hpost.
      pose proof (readFromFrontMatter_selection env noteTitle (switchedMatter st)
                    selection p st0 p' st') as Hs.
      unfold fromSelection in *. rewrite Hcat. apply Hs; try done.
      * unfold prop, switchedMatter. by rewrite lookup_insert_eq.
      * by eapply profileCategories_nonempty.
  - intros env d st Hm Hc Hnone. apply sends_publishPost_switch; [done..|].
    intros noteTitle p st0 p' st' sent Hin Hr (Hid & _). rewrite Hid.
    rewrite (readFromFrontMatter_postId env noteTitle (switchedMatter st) p st0 p' st')
      by done.
    rewrite Forall_forall in Hnone. by apply Hnone.
Qed.

Lemma profile_switch_makes_create_witness :
  (isProfileNameMismatch sampleEnv
     {["wp_profile" := VStr "old"; "wp_url" := VStr "https://example.com/?p=42"]} = true /\
   openConfirmModal sampleEnv 0 = Confirm /\
   exists matterData',
     fst (checkExistingProfile sampleEnv
            {["wp_profile" := VStr "old"; "wp_url" := VStr "https://example.com/?p=42"]}
            (sampleState false ∅ "body")) = Ok matterData' /\
     hasExistingPost matterData' = false) /\
  (Forall (fun postParams => postId postParams = None)
     (callerParams (withSubmissions [(sampleParams, None)] sampleEnv) None) /\
   exists new,
     published
       (snd (publishPost (withSubmissions [(sampleParams, None)] sampleEnv) None
               (sampleState false
                  {["wp_profile" := VStr "old";
                    "wp_url" := VStr "https://example.com/?p=42"]} "body")))
     = new /\
     Forall (fun sent => postId sent = None) new) /\
  (exists new,
     published
       (snd (publishPost (withSubmissions [(sampleParams, None)] sampleEnv) None
               (sampleState false
                  {["wp_profile" := VStr "old";
                    "wp_categories" := VArr [VNum (Num 7)];
                    "wp_url" := VStr "https://example.com/?p=42"]} "body")))
     = new /\
     Forall (fun sent =>
               strictEqStr (postType sent) PostTypeConst_Post = true ->
               categories sent = [VNum (Num 1)]) new).
Proof.
  split; [|split; [split|]].
  - split; [reflexivity|]. split; [reflexivity|].
    destruct (proj1 profile_switch_makes_create sampleEnv
                {["wp_profile" := VStr "old"; "wp_url" := VStr "https://example.com/?p=42"]}
                (sampleState false ∅ "body"))
      as (m' & Hrun & _ & _ & Hcreate & _); [reflexivity|reflexivity|].
    exists m'. split; [by rewrite Hrun|exact Hcreate].
  - repeat constructor.
  - destruct (proj2 (proj2 profile_switch_makes_create)
                (withSubmissions [(sampleParams, None)] sampleEnv) None
                (sampleState false
                   {["wp_profile" := VStr "old";
                     "wp_url" := VStr "https://example.com/?p=42"]} "body"))
      as (new & Hpub & Hnew); [reflexivity|intros t; reflexivity|repeat constructor|].
    exists new. split; [exact Hpub|exact Hnew].
  - destruct (proj1 (proj2 profile_switch_makes_create)
                (withSubmissions [(sampleParams, None)] sampleEnv) None
                (sampleState false
                   {["wp_profile" := VStr "old";
                     "wp_categories" := VArr [VNum (Num 7)];
                     "wp_url" := VStr "https://example.com/?p=42"]} "body")
                [VNum (Num 1)])
      as (new & Hpub & Hnew); [reflexivity|intros t; reflexivity|reflexivity|].
    exists new. split; [exact Hpub|].
    eapply Forall_impl; [exact Hnew|]. intros sent [_ Hc] Hpost. exact (Hc Hpost).
Defined.

(** C9, as stated, fails when the caller passes a post id: the stored URL is
    dropped after the switch, yet the request carries the id of the caller,
    and the server updates that post. *)
Lemma profile_switch_can_update :
  isProfileNameMismatch sampleEnv
    {["wp_profile" := VStr "old"; "wp_url" := VStr "https://example.com/?p=42"]} = true /\
  (forall t, openConfirmModal sampleEnv t = Confirm) /\
  postId <$> published
    (snd (publishPost sampleEnv (Some (setPostId "42" sampleParams))
            (sampleState false
               {["wp_profile" := VStr "old";
                 "wp_url" := VStr "https://example.com/?p=42"]} "body")))
  = [Some "42"] /\
  exists categories,
    fst (publishPost sampleEnv (Some (setPostId "42" sampleParams))
           (sampleState false
              {["wp_profile" := VStr "old";
                "wp_url" := VStr "https://example.com/?p=42"]} "body"))
    = Ok (ResOK (mkPublishData (VStr "42") VUndef categories)).
Proof.
  split; [reflexivity|]. split; [intros t; reflexivity|].
  split; [|eexists]; vm_compute; reflexivity.
Qed.
